(** * Semantic Scholar fetcher: catalog client, retry scheduler, field merger

    A shallow embedding of [src/lib/api.js], [src/lib/item-utils.js] and the
    data-fetching part of [src/plugin.js].

    Conventions of the embedding.
    - A JavaScript string is a [string]; its characters are code units
      below 256 (the Latin-1 range), on which the case mapping, [\w], [\d]
      and [\s] are written out exactly.
    - A parsed JSON document is a [JSON] value; [null] is [JNull], and an
      absent property reads as [JUndefined].
    - The host (Zotero) is a world threaded through the code: every HTTP
      request and every [Zotero.Promise.delay] is appended to an event
      log, and the server is an arbitrary function of that log.
    - An [await] is a sequencing point of the state monad. *)

From Stdlib Require Import ZArith List String Ascii Bool Lia DecimalString.
From stdpp Require Import gmap strings.
Import ListNotations.

Local Open Scope string_scope.
Local Open Scope list_scope.

(** ** JavaScript values *)

#[warnings="-register-all"]
Inductive JSON : Type :=
| JUndefined
| JNull
| JBool (b : bool)
| JNum (n : Z)
| JStr (s : string)
| JArr (l : list JSON)
| JObj (l : list (string * JSON)).

(** [if (v)], [!v], [a && b], [a || b]: the truth value of [v]. *)
Definition truthy (v : JSON) : bool :=
  match v with
  | JUndefined | JNull => false
  | JBool b => b
  | JNum n => negb (n =? 0)%Z
  | JStr s => negb (String.eqb s "")
  | JArr _ | JObj _ => true
  end.

(** [a || b] on values. *)
Definition jsOr (a b : JSON) : JSON := if truthy a then a else b.

(** [obj[k]]; the keys of a parsed object are distinct. *)
Fixpoint assoc (k : string) (l : list (string * JSON)) : JSON :=
  match l with
  | [] => JUndefined
  | (k', v) :: l' => if String.eqb k k' then v else assoc k l'
  end.

(** [String.prototype.includes]. *)
Fixpoint includes (needle hay : string) : bool :=
  String.prefix needle hay ||
  match hay with
  | EmptyString => false
  | String _ rest => includes needle rest
  end.


(** Property reads that the code performs on a value already known to
    be neither [null] nor [undefined] (or guarded by [?.]).  The keys the
    program asks for are fixed names; of the built-in properties only
    [length] is among them. *)
Definition prop (v : JSON) (k : string) : JSON :=
  match v with
  | JObj l => assoc k l
  | JArr l => if String.eqb k "length" then JNum (Z.of_nat (List.length l)) else JUndefined
  | JStr s => if String.eqb k "length" then JNum (Z.of_nat (String.length s)) else JUndefined
  | _ => JUndefined
  end.

(** [v?.k] *)
Definition optProp (v : JSON) (k : string) : JSON :=
  match v with
  | JUndefined | JNull => JUndefined
  | _ => prop v k
  end.

(** A thrown value is an [Error] object; the handlers read only its
    [message]. *)
Record Exn : Type := mkExn { message : string }.

(** The engine's own [TypeError]s: their texts name the expression at
    fault and hold no digit. *)
Definition TypeError (what : string) : Exn := mkExn what.

(** [error.message && error.message.includes('429')] *)
Definition mentions429 (e : Exn) : bool :=
  negb (String.eqb (message e) "") && includes "429" (message e).

(** [v.k] where [v] may be [null] or [undefined]. *)
Definition getProp (v : JSON) (k : string) : Exn + JSON :=
  match v with
  | JUndefined => inl (TypeError "value is undefined")
  | JNull => inl (TypeError "value is null")
  | _ => inr (prop v k)
  end.

(** ** Characters and strings *)

Definition code (c : ascii) : N := N_of_ascii c.

Definition isDigit (c : ascii) : bool := ((48 <=? code c) && (code c <=? 57))%N.
Definition isUpper (c : ascii) : bool := ((65 <=? code c) && (code c <=? 90))%N.
Definition isLower (c : ascii) : bool := ((97 <=? code c) && (code c <=? 122))%N.

(** [\w] is [[A-Za-z0-9_]]. *)
Definition isWord (c : ascii) : bool :=
  isUpper c || isLower c || isDigit c || (code c =? 95)%N.

(** [\s] below 256: tab, line feed, vertical tab, form feed, carriage
    return, space and the no-break space. *)
Definition isSpace (c : ascii) : bool :=
  ((9 <=? code c) && (code c <=? 13) || (code c =? 32) || (code c =? 160))%N.

(** [toLowerCase] on one code unit below 256: the ASCII capitals and the
    Latin-1 capitals (all of 192..222 but the multiplication sign). *)
Definition lowerChar (c : ascii) : ascii :=
  if isUpper c then ascii_of_N (code c + 32)
  else if ((192 <=? code c) && (code c <=? 222) && negb (code c =? 215))%N
       then ascii_of_N (code c + 32)
       else c.

Fixpoint toLowerCase (s : string) : string :=
  match s with
  | EmptyString => EmptyString
  | String c r => String (lowerChar c) (toLowerCase r)
  end.

Fixpoint filterChars (keep : ascii -> bool) (s : string) : string :=
  match s with
  | EmptyString => EmptyString
  | String c r => if keep c then String c (filterChars keep r) else filterChars keep r
  end.

(** [s.replace(/\s+/g, ' ')]: [inRun] tells that the character before
    belonged to a run already replaced. *)
Fixpoint collapseSpaces (inRun : bool) (s : string) : string :=
  match s with
  | EmptyString => EmptyString
  | String c r =>
      if isSpace c
      then if inRun then collapseSpaces true r else String " " (collapseSpaces true r)
      else String c (collapseSpaces false r)
  end.

Fixpoint trimStart (s : string) : string :=
  match s with
  | EmptyString => EmptyString
  | String c r => if isSpace c then trimStart r else s
  end.

Fixpoint allSpaces (s : string) : bool :=
  match s with
  | EmptyString => true
  | String c r => isSpace c && allSpaces r
  end.

Fixpoint trimEnd (s : string) : string :=
  match s with
  | EmptyString => EmptyString
  | String c r => if allSpaces s then EmptyString else String c (trimEnd r)
  end.

Definition trim (s : string) : string := trimEnd (trimStart s).

(** [String(v)] as a template literal or a string field takes it;
    numbers are the integers. *)
Definition decimal (n : Z) : string :=
  DecimalString.NilZero.string_of_int (Z.to_int n).

Fixpoint join (sep : string) (l : list string) : string :=
  match l with
  | [] => ""
  | [x] => x
  | x :: r => x +:+ sep +:+ join sep r
  end.

Fixpoint jsString (v : JSON) : string :=
  match v with
  | JUndefined => "undefined"
  | JNull => "null"
  | JBool true => "true"
  | JBool false => "false"
  | JNum n => decimal n
  | JStr s => s
  | JArr l =>
      join "," (map (fun x => match x with
                              | JUndefined | JNull => ""
                              | _ => jsString x
                              end) l)
  | JObj _ => "[object Object]"
  end.

(** [encodeURIComponent]: the unreserved marks and alphanumerics stay,
    every other code unit goes out as the percent-escaped bytes of its
    UTF-8 form. *)
Definition hexDigit (n : N) : ascii :=
  if (n <? 10)%N then ascii_of_N (48 + n) else ascii_of_N (55 + n).

Definition percent (byte : N) : string :=
  String "%" (String (hexDigit (byte / 16)) (String (hexDigit (byte mod 16)) EmptyString)).

Definition isUnreserved (c : ascii) : bool :=
  isUpper c || isLower c || isDigit c ||
  existsb (fun m => (code c =? code m)%N)
          ["-"; "_"; "."; "!"; "~"; "*"; "'"; "("; ")"]%char.

Definition encodeChar (c : ascii) : string :=
  if isUnreserved c then String c EmptyString
  else if (code c <? 128)%N then percent (code c)
  else percent (192 + code c / 64) +:+ percent (128 + code c mod 64).

Fixpoint encodeURIComponent (s : string) : string :=
  match s with
  | EmptyString => EmptyString
  | String c r => encodeChar c +:+ encodeURIComponent r
  end.

(** ** Zotero items *)

Record Item : Type := mkItem {
  item_id : Z;                       (* item.id *)
  isRegularItem : bool;              (* item.isRegularItem() *)
  itemType : string;                 (* item.itemType *)
  fields : gmap string string;       (* the exported bibliographic fields *)
  storedData : JSON                  (* this._getStoredData(item); null without a note *)
}.

(** [item.getField(name)]: the empty string for a field that is unset. *)
Definition getField (it : Item) (name : string) : string :=
  default "" (fields it !! name).

(** [item.setField(name, value)]: the store keeps the value it is given. *)
Definition setField (it : Item) (name value : string) : Item :=
  mkItem (item_id it) (isRegularItem it) (itemType it)
         (<[name := value]> (fields it)) (storedData it).

(** ** Fetch results *)

(** The object [{ data, rateLimited }] every fetch returns. *)
Record FetchResult : Type := mkResult { data : JSON; rateLimited : bool }.

Inductive FetchOutcome : Type :=
| Found (payload : JSON)
| NotFound
| RateLimited.

(** How the callers read a result: [if (result.rateLimited) ...
    else if (result.data) ... else ...]. *)
Definition outcome (r : FetchResult) : FetchOutcome :=
  if rateLimited r then RateLimited
  else if truthy (data r) then Found (data r)
  else NotFound.

Definition notFoundResult : FetchResult := mkResult JNull false.
Definition rateLimitedResult : FetchResult := mkResult JNull true.

(** ** The text of a value, and back

    [JSON.stringify]: an [undefined] member of an object is left out, an
    [undefined] entry of an array goes out as [null]; the numbers are
    those that [JSON.parse] gave, which print and parse back to
    themselves. *)
Definition doubleQuote : string := String (ascii_of_N 34) EmptyString.

Definition lowerHex (n : N) : ascii :=
  if (n <? 10)%N then ascii_of_N (48 + n) else ascii_of_N (87 + n).

(** One code unit inside a quoted string. *)
Definition escapeChar (c : ascii) : string :=
  let n := code c in
  if (n =? 34)%N then "\" +:+ doubleQuote
  else if (n =? 92)%N then "\\"
  else if (n =? 8)%N then "\b"
  else if (n =? 9)%N then "\t"
  else if (n =? 10)%N then "\n"
  else if (n =? 12)%N then "\f"
  else if (n =? 13)%N then "\r"
  else if (n <? 32)%N
       then "\u00" +:+ String (lowerHex (n / 16)) (String (lowerHex (n mod 16)) EmptyString)
  else String c EmptyString.

Fixpoint escape (s : string) : string :=
  match s with
  | EmptyString => EmptyString
  | String c r => escapeChar c +:+ escape r
  end.

Definition quote (s : string) : string := doubleQuote +:+ escape s +:+ doubleQuote.

Fixpoint JSON_stringify (v : JSON) : string :=
  match v with
  | JUndefined => "undefined"       (* as the template literal prints it *)
  | JNull => "null"
  | JBool true => "true"
  | JBool false => "false"
  | JNum n => decimal n
  | JStr s => quote s
  | JArr l =>
      "[" +:+ join "," (map (fun x => match x with
                                      | JUndefined => "null"
                                      | _ => JSON_stringify x
                                      end) l) +:+ "]"
  | JObj l =>
      "{" +:+ join "," (flat_map (fun kv => match kv with
                                            | (_, JUndefined) => []
                                            | (k, x) => [quote k +:+ ":" +:+ JSON_stringify x]
                                            end) l) +:+ "}"
  end.

(** What [JSON.parse] makes of the whole text of [JSON.stringify v]. *)
Fixpoint reparsed (v : JSON) : JSON :=
  match v with
  | JUndefined => JNull
  | JArr l => JArr (map reparsed l)
  | JObj l =>
      JObj (flat_map (fun kv => match kv with
                                | (_, JUndefined) => []
                                | (k, x) => [(k, reparsed x)]
                                end) l)
  | _ => v
  end.

(** ** Item utilities (item-utils.js, [ItemUtils]) *)

Module ItemUtils.

(** [title.toLowerCase().replace(/[^\w\s]/g, '').replace(/\s+/g, ' ').trim()] *)
Definition normalizeTitle (title : string) : string :=
  trim (collapseSpaces false
          (filterChars (fun c => isWord c || isSpace c) (toLowerCase title))).

(** The same call on whatever value the caller holds: only a string has
    a [toLowerCase] method. *)
Definition normalizeTitleJS (title : JSON) : Exn + string :=
  match title with
  | JStr s => inr (normalizeTitle s)
  | JUndefined => inl (TypeError "title is undefined")
  | JNull => inl (TypeError "title is null")
  | _ => inl (TypeError "title.toLowerCase is not a function")
  end.

(** *** The three patterns

    In each pattern a greedy class is followed by a character outside
    the class, so no backtracking can change a match: the matcher reads
    the literal, then the longest run of each class. *)

Definition lowerASCII (c : ascii) : ascii :=
  if isUpper c then ascii_of_N (code c + 32) else c.

(** One literal character under the [i] flag. *)
Definition eqCI (p c : ascii) : bool := (code (lowerASCII p) =? code (lowerASCII c))%N.

(** Read the literal [lit] at the head of [s]; the rest of [s] on success. *)
Fixpoint literalCI (lit s : string) : option string :=
  match lit, s with
  | EmptyString, _ => Some s
  | String p lit', String c s' => if eqCI p c then literalCI lit' s' else None
  | String _ _, EmptyString => None
  end.

Fixpoint takeWhile (p : ascii -> bool) (s : string) : string :=
  match s with
  | String c r => if p c then String c (takeWhile p r) else EmptyString
  | EmptyString => EmptyString
  end.

Fixpoint dropWhile (p : ascii -> bool) (s : string) : string :=
  match s with
  | String c r => if p c then dropWhile p r else s
  | EmptyString => EmptyString
  end.

(** [(\d+\.\d+)] at the head of [s]. *)
Definition digitsDotDigits (s : string) : option string :=
  let d1 := takeWhile isDigit s in
  match d1, dropWhile isDigit s with
  | String _ _, String "." r =>
      match takeWhile isDigit r with
      | EmptyString => None
      | d2 => Some (d1 +:+ "." +:+ d2)
      end
  | _, _ => None
  end.

(** [(\d+)] at the head of [s]. *)
Definition digits (s : string) : option string :=
  match takeWhile isDigit s with
  | EmptyString => None
  | d => Some d
  end.

(** [/arXiv:\s*(\d+\.\d+)/i] anchored at the head of [s]. *)
Definition arxivExtraAt (s : string) : option string :=
  match literalCI "arXiv:" s with
  | Some r => digitsDotDigits (dropWhile isSpace r)
  | None => None
  end.

(** [/arxiv\.org\/abs\/(\d+\.\d+)/i] anchored at the head of [s]. *)
Definition arxivUrlAt (s : string) : option string :=
  match literalCI "arxiv.org/abs/" s with
  | Some r => digitsDotDigits r
  | None => None
  end.

(** [/PMID:\s*(\d+)/i] anchored at the head of [s]. *)
Definition pmidAt (s : string) : option string :=
  match literalCI "PMID:" s with
  | Some r => digits (dropWhile isSpace r)
  | None => None
  end.

(** [s.match(re)[1]] for an unanchored pattern: the leftmost position
    at which it matches. *)
Fixpoint firstMatch (at_ : string -> option string) (s : string) : option string :=
  match at_ s with
  | Some m => Some m
  | None =>
      match s with
      | EmptyString => None
      | String _ r => firstMatch at_ r
      end
  end.

Definition getArxivId (it : Item) : option string :=
  let extra := getField it "extra" in
  match firstMatch arxivExtraAt extra with
  | Some m => Some m
  | None =>
      let url := getField it "url" in
      firstMatch arxivUrlAt url
  end.

Definition getPMID (it : Item) : option string :=
  let extra := getField it "extra" in
  firstMatch pmidAt extra.

(** [item.getField('DOI') || null] *)
Definition getDOI (it : Item) : option string :=
  match getField it "DOI" with
  | EmptyString => None
  | doi => Some doi
  end.

(** [data.paperId || null] out of the stored data; a value that is not
    [JNull] is truthy. *)
Definition getScholarId (it : Item) : JSON :=
  if negb (isRegularItem it) then JNull
  else
    let data := storedData it in
    if negb (truthy data) then JNull
    else jsOr (prop data "paperId") JNull.

(** The note that [_setStoredData] writes holds
    [<semantic-scholar-data>], the text of [JSON.stringify(data)] and
    [</semantic-scholar-data>]; the host is taken to keep the text of a
    note as it was set.  Reading it, [_getStoredData] takes what its
    regex finds between the opening tag and the first closing tag after
    it, and gives [JSON.parse] of that, or [null] when that throws.  A
    closing tag in the JSON text can only be inside a quoted string (it
    starts with [<]) and is not touched by the escapes (it has no quote,
    backslash or control character): the regex then stops inside that
    string, and [JSON.parse] throws. *)
Definition closingTag : string := "</semantic-scholar-data>".

Definition readBack (data : JSON) : JSON :=
  if includes closingTag (JSON_stringify data) then JNull
  else match data with
       | JUndefined => JNull          (* the text is not JSON *)
       | _ => reparsed data
       end.

(** [_setStoredData]: from then on [_getStoredData] gives what it reads
    back from the note. *)
Definition _setStoredData (it : Item) (data : JSON) : Item :=
  if negb (isRegularItem it) then it
  else mkItem (item_id it) (isRegularItem it) (itemType it) (fields it) (readBack data).

(** One guarded write of applyDataToItem:
    [if (overwriteExisting || !current) item.setField(name, value)]. *)
Definition writeField (overwriteExisting : bool) (name : string) (value : JSON)
    (it : Item) : Item :=
  let current := getField it name in
  if overwriteExisting || String.eqb current ""
  then setField it name (jsString value)
  else it.

Definition venueFieldOf (itemType : string) : string :=
  if String.eqb itemType "conferencePaper" then "proceedingsTitle"
  else if String.eqb itemType "bookSection" then "bookTitle"
  else "publicationTitle".

(** The entries of [storedData], in the order the assignments make them. *)
Definition buildStoredData (today : string) (data : JSON)
    (shouldFetchField : string -> bool) : JSON :=
  let defined v := match v with JUndefined => false | _ => true end in
  JObj (
    (if defined (prop data "citationCount")
     then [("citationCount", prop data "citationCount")] else []) ++
    (if defined (prop data "influentialCitationCount") && shouldFetchField "influentialCitationCount"
     then [("influentialCitationCount", prop data "influentialCitationCount")] else []) ++
    (if defined (prop data "referenceCount") && shouldFetchField "referenceCount"
     then [("referenceCount", prop data "referenceCount")] else []) ++
    (if truthy (prop data "paperId")
     then [("paperId", prop data "paperId")] else []) ++
    [("lastUpdated", JStr today)] ++
    (if shouldFetchField "arXivId" && truthy (optProp (prop data "externalIds") "ArXiv")
     then [("arXivId", prop (prop data "externalIds") "ArXiv")] else []) ++
    (if shouldFetchField "fieldsOfStudy" && truthy (optProp (prop data "fieldsOfStudy") "length")
     then [("fieldsOfStudy", prop data "fieldsOfStudy")] else [])).

(** The five guarded blocks that write exported fields, in the order
    applyDataToItem runs them. *)
Definition applyDOI (data : JSON) (shouldFetchField : string -> bool)
    (overwriteExisting : bool) (it : Item) : Item :=
  if shouldFetchField "DOI" && truthy (optProp (prop data "externalIds") "DOI")
  then writeField overwriteExisting "DOI" (prop (prop data "externalIds") "DOI") it
  else it.

Definition applyAbstract (data : JSON) (shouldFetchField : string -> bool)
    (overwriteExisting : bool) (it : Item) : Item :=
  if shouldFetchField "abstract" && truthy (prop data "abstract")
  then writeField overwriteExisting "abstractNote" (prop data "abstract") it
  else it.

Definition applyPublicationDate (data : JSON) (shouldFetchField : string -> bool)
    (overwriteExisting : bool) (it : Item) : Item :=
  if shouldFetchField "publicationDate" && truthy (prop data "publicationDate")
  then writeField overwriteExisting "date" (prop data "publicationDate") it
  else it.

Definition applyVenue (data : JSON) (shouldFetchField : string -> bool)
    (overwriteExisting : bool) (it : Item) : Item :=
  if shouldFetchField "venue"
  then
    let venue := jsOr (optProp (prop data "journal") "name") (prop data "venue") in
    if truthy venue
    then writeField overwriteExisting (venueFieldOf (itemType it)) venue it
    else it
  else it.

Definition applyOpenAccessPdf (data : JSON) (shouldFetchField : string -> bool)
    (overwriteExisting : bool) (it : Item) : Item :=
  if shouldFetchField "openAccessPdf" && truthy (optProp (prop data "openAccessPdf") "url")
  then writeField overwriteExisting "url" (prop (prop data "openAccessPdf") "url") it
  else it.

(** [applyDataToItem(item, data, shouldFetchField, overwriteExisting, log)];
    [today] is [new Date().toLocaleDateString()], and [log] only writes
    to the debug console. *)
Definition applyDataToItem (today : string) (it : Item) (data : JSON)
    (shouldFetchField : string -> bool) (overwriteExisting : bool) : Item :=
  if negb (isRegularItem it) || negb (truthy data) then it
  else
    let it := _setStoredData it (buildStoredData today data shouldFetchField) in
    let it := applyDOI data shouldFetchField overwriteExisting it in
    let it := applyAbstract data shouldFetchField overwriteExisting it in
    let it := applyPublicationDate data shouldFetchField overwriteExisting it in
    let it := applyVenue data shouldFetchField overwriteExisting it in
    let it := applyOpenAccessPdf data shouldFetchField overwriteExisting it in
    it.

(** The getters of the stored data: the item pane and the two columns
    read the metrics through them. *)
Definition getCitationCount (it : Item) : string :=
  if negb (isRegularItem it) then ""
  else
    let data := storedData it in
    if negb (truthy data) then ""
    else match prop data "citationCount" with
         | JUndefined => ""
         | v => jsString v
         end.

Definition getInfluentialCitationCount (it : Item) : string :=
  if negb (isRegularItem it) then ""
  else
    let data := storedData it in
    if negb (truthy data) then ""
    else match prop data "influentialCitationCount" with
         | JUndefined => ""
         | v => jsString v
         end.

Definition getReferenceCount (it : Item) : string :=
  if negb (isRegularItem it) then ""
  else
    let data := storedData it in
    if negb (truthy data) then ""
    else match prop data "referenceCount" with
         | JUndefined => ""
         | v => jsString v
         end.

(** [data.lastUpdated || null] *)
Definition getLastUpdated (it : Item) : JSON :=
  if negb (isRegularItem it) then JNull
  else
    let data := storedData it in
    if negb (truthy data) then JNull
    else jsOr (prop data "lastUpdated") JNull.

End ItemUtils.

(** ** The host: network and clock *)

Inductive Request : Type :=
| GET (url : string)
| POST (url : string) (ids : list JSON).   (* body: JSON.stringify({ ids }) *)

Inductive Event : Type :=
| Sent (r : Request)      (* Zotero.HTTP.request *)
| Slept (ms : Z).         (* Zotero.Promise.delay *)

(** What [await Zotero.HTTP.request(...)] gives back: a response, whose
    [responseText] is held as what [JSON.parse] makes of it, or a
    rejection. *)
Inductive HttpResult : Type :=
| Responded (status : Z) (responseText : Exn + JSON)
| Rejected (e : Exn).

(** The catalog service: any function of what has happened so far. *)
Definition Server : Type := list Event -> Request -> HttpResult.

(** Computations over the event log. *)
Definition M (A : Type) : Type := list Event -> A * list Event.

Definition ret {A : Type} (a : A) : M A := fun log => (a, log).

Definition bind {A B : Type} (m : M A) (k : A -> M B) : M B :=
  fun log => let '(a, log') := m log in k a log'.

Notation "'let*' x ':=' m 'in' k" := (bind m (fun x => k))
  (at level 10, x name, m at level 100, k at level 200).

Definition HTTP_request (server : Server) (r : Request) : M HttpResult :=
  fun log => (server log r, log ++ [Sent r]).

Definition Promise_delay (ms : Z) : M unit :=
  fun log => (tt, log ++ [Slept ms]).

(** [arr.slice(i, j)] for [i <= j]. *)
Definition slice {A : Type} (i j : nat) (l : list A) : list A :=
  firstn (j - i) (skipn i l).

(** The code units of a string, one string each: what iterating a
    string yields. *)
Fixpoint chars (s : string) : list JSON :=
  match s with
  | EmptyString => []
  | String c r => JStr (String c EmptyString) :: chars r
  end.

(** [for (const x of v)] and [...v]: arrays and strings are iterable. *)
Definition iterate (v : JSON) : Exn + list JSON :=
  match v with
  | JArr l => inr l
  | JStr s => inr (chars s)
  | _ => inl (TypeError "value is not iterable")
  end.

(** ** The catalog client and the retry scheduler (api.js) *)

Module SemanticScholarAPI.

Local Open Scope Z_scope.

Definition BASE_URL : string := "https://api.semanticscholar.org/graph/v1".

(** [AVAILABLE_FIELDS], each name with its [default]. *)
Definition AVAILABLE_FIELDS : list (string * bool) :=
  [ ("citationCount", true);
    ("influentialCitationCount", true);
    ("referenceCount", false);
    ("DOI", false);
    ("abstract", false);
    ("publicationDate", false);
    ("venue", false);
    ("openAccessPdf", false);
    ("arXivId", false);
    ("fieldsOfStudy", false) ].

(** [[...new Set(fields)]]: first occurrences, in order. *)
Fixpoint dedupe (seen l : list string) : list string :=
  match l with
  | [] => []
  | x :: r =>
      if existsb (String.eqb x) seen then dedupe seen r
      else x :: dedupe (x :: seen) r
  end.

Definition buildFieldsParam (shouldFetchField : string -> bool) : string :=
  let fields :=
    ["paperId"; "citationCount"] ++
    (if shouldFetchField "influentialCitationCount" then ["influentialCitationCount"] else []) ++
    (if shouldFetchField "referenceCount" then ["referenceCount"] else []) ++
    (if shouldFetchField "DOI" then ["externalIds"] else []) ++
    (if shouldFetchField "arXivId" then ["externalIds"] else []) ++
    (if shouldFetchField "abstract" then ["abstract"] else []) ++
    (if shouldFetchField "publicationDate" then ["publicationDate"] else []) ++
    (if shouldFetchField "venue" then ["venue"; "journal"] else []) ++
    (if shouldFetchField "openAccessPdf" then ["openAccessPdf"] else []) ++
    (if shouldFetchField "fieldsOfStudy" then ["fieldsOfStudy"] else []) in
  join "," (dedupe [] fields).

(** The [catch] block shared by makeRequest and fetchByTitle. *)
Definition onError (error : Exn) : FetchResult :=
  if mentions429 error then mkResult JNull true else mkResult JNull false.

(** The [for ... of] loop of fetchByTitle over the candidates. *)
Fixpoint matchLoop (normalizeTitle : JSON -> Exn + string)
    (normalizedSearchTitle : string) (papers : list JSON) : Exn + FetchResult :=
  match papers with
  | [] => inr (mkResult JNull false)
  | paper :: rest =>
      match getProp paper "title" with
      | inl e => inl e
      | inr title =>
          match normalizeTitle title with
          | inl e => inl e
          | inr normalizedPaperTitle =>
              if truthy title && String.eqb normalizedPaperTitle normalizedSearchTitle
              then inr (mkResult paper false)
              else matchLoop normalizeTitle normalizedSearchTitle rest
          end
      end
  end.

(** The part of fetchByTitle's [try] block that follows [JSON.parse]. *)
Definition searchBody (title : string) (normalizeTitle : JSON -> Exn + string)
    (responseData : JSON) : Exn + FetchResult :=
  match getProp responseData "data" with
  | inl e => inl e
  | inr candidates =>
      if negb (truthy candidates) ||
         match prop candidates "length" with JNum 0 => true | _ => false end
      then inr (mkResult JNull false)
      else
        match normalizeTitle (JStr title) with
        | inl e => inl e
        | inr normalizedSearchTitle =>
            match iterate candidates with
            | inl e => inl e
            | inr papers => matchLoop normalizeTitle normalizedSearchTitle papers
            end
        end
  end.

(** What one turn of batchFetch's loop does with its response: leave the
    loop with [rateLimited = true], or push some results and go on. *)
Inductive ChunkEffect : Type :=
| Abort
| Push (l : list JSON).

Definition chunkEffect (r : HttpResult) : ChunkEffect :=
  match r with
  | Rejected error => if mentions429 error then Abort else Push []
  | Responded status responseText =>
      if status =? 429 then Abort
      else if status =? 200 then
        match responseText with
        | inl error => if mentions429 error then Abort else Push []
        | inr (JArr l) => Push l
        | inr (JStr s) => Push (chars s)   (* spread, then [data.filter] throws *)
        | inr _ => Push []                 (* not iterable: the spread throws *)
        end
      else Push []
  end.

Record BatchResult : Type := mkBatch { results : list JSON; batchRateLimited : bool }.

Section Client.

Variable server : Server.

Definition makeRequest (url : string) : M FetchResult :=
  let* response := HTTP_request server (GET url) in
  ret match response with
      | Rejected error => onError error
      | Responded status responseText =>
          if status =? 429 then mkResult JNull true
          else if negb (status =? 200) then mkResult JNull false
          else match responseText with
               | inr data => mkResult data false
               | inl error => onError error
               end
      end.

Definition fetchByDOI (doi fields : string) : M FetchResult :=
  makeRequest (BASE_URL +:+ "/paper/DOI:" +:+ encodeURIComponent doi +:+ "?fields=" +:+ fields).

Definition fetchByArxivId (arxivId fields : string) : M FetchResult :=
  makeRequest (BASE_URL +:+ "/paper/ARXIV:" +:+ encodeURIComponent arxivId +:+ "?fields=" +:+ fields).

Definition fetchByPMID (pmid fields : string) : M FetchResult :=
  makeRequest (BASE_URL +:+ "/paper/PMID:" +:+ encodeURIComponent pmid +:+ "?fields=" +:+ fields).

Definition fetchByScholarId (scholarId : JSON) (fields : string) : M FetchResult :=
  makeRequest (BASE_URL +:+ "/paper/" +:+ jsString scholarId +:+ "?fields=" +:+ fields).

Definition searchUrl (title fields : string) : string :=
  BASE_URL +:+ "/paper/search?query=" +:+ encodeURIComponent title +:+
  "&fields=" +:+ fields +:+ ",title&limit=5".

Definition fetchByTitle (title fields : string)
    (normalizeTitle : JSON -> Exn + string) : M FetchResult :=
  let* response := HTTP_request server (GET (searchUrl title fields)) in
  ret match response with
      | Rejected error => onError error
      | Responded status responseText =>
          if status =? 429 then mkResult JNull true
          else if negb (status =? 200) then mkResult JNull false
          else match responseText with
               | inl error => onError error
               | inr responseData =>
                   match searchBody title normalizeTitle responseData with
                   | inr result => result
                   | inl error => onError error
                   end
               end
      end.

Definition batchSize : nat := 500.

Definition batchUrl (fields : string) : string :=
  BASE_URL +:+ "/paper/batch?fields=" +:+ fields.

(** The [for (let i = 0; i < ids.length; i += batchSize)] loop; [None]
    when the fuel does not reach its end. *)
Fixpoint batchLoop (fuel : nat) (ids : list JSON) (fields : string)
    (i : nat) (results : list JSON) : M (option BatchResult) :=
  if (i <? List.length ids)%nat then
    match fuel with
    | O => ret None
    | S fuel' =>
        let batch := slice i (i + batchSize) ids in
        let* response := HTTP_request server (POST (batchUrl fields) batch) in
        match chunkEffect response with
        | Abort => ret (Some (mkBatch results true))
        | Push l =>
            let* _ := (if (i + batchSize <? List.length ids)%nat
                       then Promise_delay 200 else ret tt) in
            batchLoop fuel' ids fields (i + batchSize)%nat (results ++ l)
        end
    end
  else ret (Some (mkBatch results false)).

Definition batchFetch (ids : list JSON) (fields : string) : M (option BatchResult) :=
  match ids with
  | [] => ret (Some (mkBatch [] false))
  | _ => batchLoop (List.length ids) ids fields 0 []
  end.

End Client.

(** *** Rate limiting state *)

Definition maxRetryDelay : Z := 60000.
Definition maxRetries : Z := 5.

Record RetryEntry : Type := mkEntry { item : Item; retryCount : Z }.

(** The mutable part of the singleton. *)
Record t : Type := mkAPI {
  retryQueue : list RetryEntry;
  isProcessingRetryQueue : bool;
  retryDelay : Z
}.

Definition init : t := mkAPI [] false 2000.

Definition with_queue (q : list RetryEntry) (api : t) : t :=
  mkAPI q (isProcessingRetryQueue api) (retryDelay api).
Definition with_processing (b : bool) (api : t) : t :=
  mkAPI (retryQueue api) b (retryDelay api).
Definition with_delay (d : Z) (api : t) : t :=
  mkAPI (retryQueue api) (isProcessingRetryQueue api) d.

(** [this.retryQueue.some(q => q.item.id === item.id)] *)
Definition queued (it : Item) (q : list RetryEntry) : bool :=
  existsb (fun e => item_id (item e) =? item_id it) q.

Definition addToRetryQueue (it : Item) (rc : Z) (api : t) : t :=
  if rc >=? maxRetries then api
  else if queued it (retryQueue api) then api
  else with_queue (retryQueue api ++ [mkEntry it rc]) api.

Definition hasQueuedItems (api : t) : bool :=
  (0 <? Z.of_nat (List.length (retryQueue api))).

Definition getQueueLength (api : t) : Z := Z.of_nat (List.length (retryQueue api)).

Section Drain.

(** The two callbacks run in a world [W] of their own and do not touch
    the scheduler; [sleep] is [Zotero.Promise.delay]. *)
Context {W : Type}.
Variable fetchCallback : Item -> W -> FetchResult * W.
Variable applyCallback : Item -> JSON -> W -> W.
Variable sleep : Z -> W -> W.

(** The body of the [while] loop, after [this.retryQueue.shift()] has
    handed over [e] and left [api] with the rest of the queue. *)
Definition drainIteration (e : RetryEntry) (api : t) (w : W) : t * W :=
  let '(result, w1) := fetchCallback (item e) w in
  if rateLimited result then
    let api1 := with_queue (mkEntry (item e) (retryCount e + 1) :: retryQueue api) api in
    let api2 := with_delay (Z.min (retryDelay api1 * 2) maxRetryDelay) api1 in
    (api2, sleep 500 (sleep (retryDelay api2) w1))
  else if truthy (data result) then
    let w2 := applyCallback (item e) (data result) w1 in
    (with_delay 2000 api, sleep 500 w2)
  else
    (api, sleep 500 w1).

(** One turn of the loop: test, shift, body.  An empty queue ends it. *)
Definition drainStep (s : t * W) : t * W :=
  match retryQueue (fst s) with
  | [] => s
  | e :: q => drainIteration e (with_queue q (fst s)) (snd s)
  end.

Fixpoint drainN (n : nat) (s : t * W) : t * W :=
  match n with
  | O => s
  | S k => drainN k (drainStep s)
  end.

(** The [while] loop; [None] when the fuel does not reach the end. *)
Fixpoint drainLoop (fuel : nat) (s : t * W) : option (t * W) :=
  match retryQueue (fst s) with
  | [] => Some s
  | _ :: _ =>
      match fuel with
      | O => None
      | S k => drainLoop k (drainStep s)
      end
  end.

Definition processRetryQueue (fuel : nat) (api : t) (w : W) : option (t * W) :=
  if isProcessingRetryQueue api || (Z.of_nat (List.length (retryQueue api)) =? 0)
  then Some (api, w)
  else
    let api1 := with_processing true api in
    let delay := Z.min (retryDelay api1) maxRetryDelay in
    match drainLoop fuel (api1, sleep delay w) with
    | Some (api2, w2) => Some (with_processing false api2, w2)
    | None => None
    end.

End Drain.

(** processRetryQueue up to its first [await]: what has happened when a
    caller that does not wait for it goes on.  The loop that follows
    runs later, as a task of its own. *)
Definition processRetryQueue_start (api : t) : M t :=
  if isProcessingRetryQueue api || (Z.of_nat (List.length (retryQueue api)) =? 0)
  then ret api
  else
    let api1 := with_processing true api in
    let delay := Z.min (retryDelay api1) maxRetryDelay in
    let* _ := Promise_delay delay in
    ret api1.

(** The ids of the queued records, front first. *)
Definition queueIds (api : t) : list Z := map (fun e => item_id (item e)) (retryQueue api).


End SemanticScholarAPI.

(** ** The plugin (plugin.js, [SemanticScholar]) *)

Module SemanticScholar.

(** The preferences under [extensions.zotero.semanticScholar.]; a key of
    [fetch] that is absent reads as its default. *)
Record Prefs : Type := mkPrefs {
  fetch : gmap string bool;          (* fetch.<fieldName> *)
  searchMode : string;               (* 'identifiers' unless set *)
  overwriteExistingFields : bool     (* false unless set *)
}.

Definition getSearchMode (p : Prefs) : string := searchMode p.

Fixpoint fieldInfo (fieldName : string) (table : list (string * bool)) : option bool :=
  match table with
  | [] => None
  | (k, dflt) :: r => if String.eqb fieldName k then Some dflt else fieldInfo fieldName r
  end.

Definition shouldFetchField (p : Prefs) (fieldName : string) : bool :=
  match fieldInfo fieldName SemanticScholarAPI.AVAILABLE_FIELDS with
  | None => false
  | Some dflt => default dflt (fetch p !! fieldName)
  end.

Definition applyDataToItem (p : Prefs) (today : string) (it : Item) (data : JSON) : Item :=
  ItemUtils.applyDataToItem today it data (shouldFetchField p) (overwriteExistingFields p).

Section Fetching.

Variable server : Server.
Variable p : Prefs.

(** One of the four identifier blocks of fetchDataForItem:
    [if (x) { const result = await lookup(x); if (result.rateLimited)
    return result; if (result.data) return result; }], then the rest. *)
Definition tryIdentifier {A : Type} (ident : option A)
    (lookup : A -> M FetchResult) (rest : M FetchResult) : M FetchResult :=
  match ident with
  | Some x =>
      let* result := lookup x in
      if rateLimited result then ret result
      else if truthy (data result) then ret result
      else rest
  | None => rest
  end.

(** [if (v)] on a value that may be [null]. *)
Definition present (v : JSON) : option JSON := if truthy v then Some v else None.

Definition fetchDataForItem (it : Item) : M FetchResult :=
  if negb (isRegularItem it) then ret (mkResult JNull false)
  else
    let fields := SemanticScholarAPI.buildFieldsParam (shouldFetchField p) in
    let searchMode := getSearchMode p in
    tryIdentifier (ItemUtils.getDOI it)
      (fun doi => SemanticScholarAPI.fetchByDOI server doi fields) (
    tryIdentifier (ItemUtils.getArxivId it)
      (fun arxivId => SemanticScholarAPI.fetchByArxivId server arxivId fields) (
    tryIdentifier (ItemUtils.getPMID it)
      (fun pmid => SemanticScholarAPI.fetchByPMID server pmid fields) (
    tryIdentifier (present (ItemUtils.getScholarId it))
      (fun scholarId => SemanticScholarAPI.fetchByScholarId server scholarId fields) (
    if String.eqb searchMode "title" then
      let title := getField it "title" in
      if negb (String.eqb title "")
      then SemanticScholarAPI.fetchByTitle server title fields ItemUtils.normalizeTitleJS
      else ret (mkResult JNull false)
    else ret (mkResult JNull false))))).

(** [results.set(item.id, paperData)] for the pairs the loop visits:
    positions below both lengths, a truthy result only. *)
Fixpoint mapBack (itemsWithIds : list (Item * JSON)) (apiResults : list JSON)
    (results : gmap Z JSON) : gmap Z JSON :=
  match itemsWithIds, apiResults with
  | (it, _) :: items', paperData :: api' =>
      mapBack items' api'
              (if truthy paperData then <[item_id it := paperData]> results else results)
  | _, _ => results
  end.

Definition withScholarIds (items : list Item) : list (Item * JSON) :=
  flat_map (fun it =>
              let scholarId := ItemUtils.getScholarId it in
              if truthy scholarId then [(it, scholarId)] else []) items.

Definition batchFetchByScholarIds (items : list Item)
    : M (option (gmap Z JSON * bool)) :=
  let itemsWithIds := withScholarIds items in
  match itemsWithIds with
  | [] => ret (Some (∅, false))
  | _ =>
      let fields := SemanticScholarAPI.buildFieldsParam (shouldFetchField p) in
      let ids := map snd itemsWithIds in
      let* r := SemanticScholarAPI.batchFetch server ids fields in
      ret match r with
          | None => None
          | Some b =>
              Some (mapBack itemsWithIds (SemanticScholarAPI.results b) ∅,
                    SemanticScholarAPI.batchRateLimited b)
          end
  end.

End Fetching.

(** *** Runs over several items

    What a run has done when it returns: the scheduler, the items it has
    saved (each as applyDataToItem left it, in the order of the saves)
    and its three counters ([successCount], [failCount],
    [rateLimitedCount]; [updatedItems], [failedItems],
    [rateLimitedItems] at startup).

    The lists of items stand for lists of distinct objects, the host is
    taken not to throw (so the [catch] blocks around the loops stay
    unused), and no other task touches the scheduler while a run is
    suspended.  The progress window is left out. *)
Record Run : Type := mkRun {
  scheduler : SemanticScholarAPI.t;
  saved : list Item;
  successCount : Z;
  failCount : Z;
  rateLimitedCount : Z
}.

Definition startOf (api : SemanticScholarAPI.t) : Run := mkRun api [] 0 0 0.

(** [successCount++] after [await this.applyDataToItem(item, data)] *)
Definition countFound (it' : Item) (r : Run) : Run :=
  mkRun (scheduler r) (saved r ++ [it']) (successCount r + 1) (failCount r)
        (rateLimitedCount r).

(** [failCount += n] *)
Definition countNotFound (n : Z) (r : Run) : Run :=
  mkRun (scheduler r) (saved r) (successCount r) (failCount r + n) (rateLimitedCount r).

(** [SemanticScholarAPI.addToRetryQueue(item); rateLimitedCount++] *)
Definition countRateLimited (it : Item) (r : Run) : Run :=
  mkRun (SemanticScholarAPI.addToRetryQueue it 0 (scheduler r)) (saved r)
        (successCount r) (failCount r) (rateLimitedCount r + 1).

(** The [Map] of batchFetchByScholarIds as the callers iterate it: its
    entries in insertion order.  [results.set(id, v)] gives a key that
    is there its new value where it stands, and puts a new key last. *)
Fixpoint mapSet (id : Z) (v : JSON) (entries : list (Z * JSON)) : list (Z * JSON) :=
  match entries with
  | [] => [(id, v)]
  | (id', v') :: rest =>
      if (id' =? id)%Z then (id, v) :: rest else (id', v') :: mapSet id v rest
  end.

Fixpoint mapBackInOrder (itemsWithIds : list (Item * JSON)) (apiResults : list JSON)
    (entries : list (Z * JSON)) : list (Z * JSON) :=
  match itemsWithIds, apiResults with
  | (it, _) :: items', paperData :: api' =>
      mapBackInOrder items' api'
        (if truthy paperData then mapSet (item_id it) paperData entries else entries)
  | _, _ => entries
  end.

(** [batchResults.has(item.id)] *)
Definition has (batchResults : list (Z * JSON)) (id : Z) : bool :=
  existsb (fun kv => (fst kv =? id)%Z) batchResults.

Section Runs.

Variable server : Server.
Variable p : Prefs.
(** [new Date().toLocaleDateString()], read when a result is applied. *)
Variable today : list Event -> string.

(** batchFetchByScholarIds, its [Map] in insertion order. *)
Definition batchFetchByScholarIdsInOrder (items : list Item)
    : M (option (list (Z * JSON) * bool)) :=
  let itemsWithIds := withScholarIds items in
  match itemsWithIds with
  | [] => ret (Some ([], false))
  | _ =>
      let fields := SemanticScholarAPI.buildFieldsParam (shouldFetchField p) in
      let ids := map snd itemsWithIds in
      let* r := SemanticScholarAPI.batchFetch server ids fields in
      ret match r with
          | None => None
          | Some b =>
              Some (mapBackInOrder itemsWithIds (SemanticScholarAPI.results b) [],
                    SemanticScholarAPI.batchRateLimited b)
          end
  end.

(** [await this.applyDataToItem(item, data)] *)
Definition applyAndSave (it : Item) (data : JSON) : M Item :=
  fun log => (applyDataToItem p (today log) it data, log).

(** [for (const [itemId, data] of batchResults)]: find the item, apply,
    count. *)
Fixpoint applyBatchResults (regularItems : list Item) (entries : list (Z * JSON))
    (r : Run) : M Run :=
  match entries with
  | [] => ret r
  | (itemId, data) :: rest =>
      match List.find (fun i => item_id i =? itemId)%Z regularItems with
      | Some it =>
          let* it' := applyAndSave it data in
          applyBatchResults regularItems rest (countFound it' r)
      | None => applyBatchResults regularItems rest r
      end
  end.

(** The loop of fetchForSelectedItems over [itemsToFetch]. *)
Fixpoint fetchRemaining (itemsToFetch : list Item) (r : Run) : M Run :=
  match itemsToFetch with
  | [] => ret r
  | it :: rest =>
      let* result := fetchDataForItem server p it in
      let* r1 := (if rateLimited result then ret (countRateLimited it r)
                  else if truthy (data result) then
                    let* it' := applyAndSave it (data result) in
                    ret (countFound it' r)
                  else ret (countNotFound 1 r)) in
      let* _ := (match rest with
                 | [] => ret tt
                 | _ :: _ => Promise_delay 200
                 end) in
      fetchRemaining rest r1
  end.

(** [SemanticScholarAPI.processRetryQueue(...)], not awaited: the run
    goes on when the call has reached its first [await]. *)
Definition startDrain (r : Run) : M Run :=
  let* api := SemanticScholarAPI.processRetryQueue_start (scheduler r) in
  ret (mkRun api (saved r) (successCount r) (failCount r) (rateLimitedCount r)).

(** [if (SemanticScholarAPI.hasQueuedItems()) SemanticScholarAPI.processRetryQueue(...)] *)
Definition startDrainIfQueued (r : Run) : M Run :=
  if SemanticScholarAPI.hasQueuedItems (scheduler r) then startDrain r else ret r.

(** fetchForSelectedItems on the selected [items]; [None] only if the
    batch ran out of fuel. *)
Definition fetchForSelectedItems (items : list Item) (api : SemanticScholarAPI.t)
    : M (option Run) :=
  match items with
  | [] => ret (Some (startOf api))
  | _ :: _ =>
      let regularItems := List.filter isRegularItem items in
      match regularItems with
      | [] => ret (Some (startOf api))
      | _ :: _ =>
          let* b := batchFetchByScholarIdsInOrder regularItems in
          match b with
          | None => ret None
          | Some (batchResults, _) =>
              let* r1 := applyBatchResults regularItems batchResults (startOf api) in
              let itemsToFetch :=
                List.filter (fun it => negb (has batchResults (item_id it))) regularItems in
              let* r2 := fetchRemaining itemsToFetch r1 in
              let* r3 := startDrainIfQueued r2 in
              ret (Some r3)
          end
      end
  end.

(** fetchForNewItem, [autoFetch] being [this.getPref('autoFetch', true)]:
    the scheduler it leaves and the item as saved, if it saved it. *)
Definition fetchForNewItem (autoFetch : bool) (it : Item) (api : SemanticScholarAPI.t)
    : M (SemanticScholarAPI.t * option Item) :=
  if negb (isRegularItem it) then ret (api, None)
  else if negb autoFetch then ret (api, None)
  else
    let* result := fetchDataForItem server p it in
    if rateLimited result then
      let api1 := SemanticScholarAPI.addToRetryQueue it 0 api in
      let* api2 := SemanticScholarAPI.processRetryQueue_start api1 in
      ret (api2, None)
    else if truthy (data result) then
      let* it' := applyAndSave it (data result) in
      ret (api, Some it')
    else ret (api, None).

(** The loop of updateLibraryOnStartup over [itemsWithoutScholarId]. *)
Fixpoint searchEach (itemsWithoutScholarId : list Item) (r : Run) : M Run :=
  match itemsWithoutScholarId with
  | [] => ret r
  | it :: rest =>
      let* result := fetchDataForItem server p it in
      let* r1 := (if rateLimited result then
                    let r' := countRateLimited it r in
                    let* _ := Promise_delay 3000 in
                    ret r'
                  else if truthy (data result) then
                    let* it' := applyAndSave it (data result) in
                    ret (countFound it' r)
                  else ret (countNotFound 1 r)) in
      let* _ := Promise_delay 500 in
      searchEach rest r1
  end.

(** updateLibraryOnStartup, [updateOnStartup] being
    [this.getPref('updateOnStartup', false)] and [libraries] what
    [Zotero.Items.getAll] gives for each library. *)
Definition updateLibraryOnStartup (updateOnStartup : bool) (libraries : list (list Item))
    (api : SemanticScholarAPI.t) : M (option Run) :=
  if negb updateOnStartup then ret (Some (startOf api))
  else
    let allItems := flat_map (List.filter isRegularItem) libraries in
    let itemsWithScholarId :=
      List.filter (fun it => truthy (ItemUtils.getScholarId it)) allItems in
    let itemsWithoutScholarId :=
      List.filter (fun it => negb (truthy (ItemUtils.getScholarId it))) allItems in
    let* r1 :=
      (match itemsWithScholarId with
       | [] => ret (Some (startOf api))
       | _ :: _ =>
           let* b := batchFetchByScholarIdsInOrder itemsWithScholarId in
           match b with
           | None => ret None
           | Some (batchResults, _) =>
               let* r := applyBatchResults itemsWithScholarId batchResults (startOf api) in
               ret (Some (countNotFound
                            (Z.of_nat (List.length itemsWithScholarId) -
                             Z.of_nat (List.length batchResults)) r))
           end
       end) in
    match r1 with
    | None => ret None
    | Some r1 =>
        let* r2 := searchEach itemsWithoutScholarId r1 in
        let* r3 := startDrainIfQueued r2 in
        ret (Some r3)
    end.

End Runs.

End SemanticScholar.

(** * Vocabulary of the statements *)

Module Scheduler.
Import SemanticScholarAPI.

(** What can happen to the scheduler while a drain runs: a call of
    addToRetryQueue by another task, or one turn of the drain loop.  A
    turn takes the front entry off the queue and then awaits its fetch;
    [meanwhile] are the calls of addToRetryQueue that other tasks make
    during that wait, before the turn goes on with the result.  Calls
    made while the turn pauses are calls before the next turn. *)
Inductive Op : Type :=
| Enqueue (it : Item) (retryCount : Z)
| DrainTurn (meanwhile : list (Item * Z)).

(** A turn that nothing lands in. *)
Definition quiet (op : Op) : bool :=
  match op with
  | DrainTurn (_ :: _) => false
  | _ => true
  end.

Section Runs.
Context {W : Type}.
Variable fetchCallback : Item -> W -> FetchResult * W.
Variable applyCallback : Item -> JSON -> W -> W.
Variable sleep : Z -> W -> W.

Definition runOp (s : t * W) (op : Op) : t * W :=
  match op with
  | Enqueue it rc => (addToRetryQueue it rc (fst s), snd s)
  | DrainTurn meanwhile =>
      match retryQueue (fst s) with
      | [] => s
      | e :: q =>
          (* shift(); the fetch is awaited, the calls land; the body goes on *)
          drainIteration fetchCallback applyCallback sleep e
            (fold_left (fun api c => addToRetryQueue (fst c) (snd c) api) meanwhile
                       (with_queue q (fst s)))
            (snd s)
      end
  end.

Definition runOps (ops : list Op) (s : t * W) : t * W := fold_left runOp ops s.

(** The result the callback is about to give for the entry at the front. *)
Definition nextOutcome (s : t * W) : option FetchOutcome :=
  match retryQueue (fst s) with
  | [] => None
  | e :: _ => Some (outcome (fst (fetchCallback (item e) (snd s))))
  end.

End Runs.

Definition inBounds (d : Z) : Prop := (2000 <= d <= maxRetryDelay)%Z.

(** A catalog that answers every fetch with a rate limit. *)
Definition alwaysRateLimited : Item -> unit -> FetchResult * unit :=
  fun _ w => (mkResult JNull true, w).
Definition neverFound : Item -> unit -> FetchResult * unit :=
  fun _ w => (mkResult JNull false, w).
Definition noApply : Item -> JSON -> unit -> unit := fun _ _ w => w.
Definition noSleep : Z -> unit -> unit := fun _ w => w.

Definition paperItem (n : Z) : Item := mkItem n true "journalArticle" ∅ JNull.

End Scheduler.

Module Lookup.
Import SemanticScholarAPI SemanticScholar.

(** The four single-identifier requests of the client. *)
Inductive Identifier : Type :=
| DOI (value : string)
| ArXiv (value : string)
| PMID (value : string)
| ScholarId (value : JSON).

Definition lookupUrl (ident : Identifier) (fields : string) : string :=
  match ident with
  | DOI v => BASE_URL +:+ "/paper/DOI:" +:+ encodeURIComponent v +:+ "?fields=" +:+ fields
  | ArXiv v => BASE_URL +:+ "/paper/ARXIV:" +:+ encodeURIComponent v +:+ "?fields=" +:+ fields
  | PMID v => BASE_URL +:+ "/paper/PMID:" +:+ encodeURIComponent v +:+ "?fields=" +:+ fields
  | ScholarId v => BASE_URL +:+ "/paper/" +:+ jsString v +:+ "?fields=" +:+ fields
  end.

Definition lookupByIdentifier (server : Server) (ident : Identifier) (fields : string)
    : M FetchResult :=
  match ident with
  | DOI v => fetchByDOI server v fields
  | ArXiv v => fetchByArxivId server v fields
  | PMID v => fetchByPMID server v fields
  | ScholarId v => fetchByScholarId server v fields
  end.

(** The classification rule in the words of the specification: 429 is
    a rate limit; any other status but 200, and any exception, is not
    found, unless the exception mentions 429; a 200 with parseable JSON
    is found, with the parsed payload. *)
Definition classification_stated (r : HttpResult) : FetchOutcome :=
  match r with
  | Rejected e => if mentions429 e then RateLimited else NotFound
  | Responded status body =>
      if (status =? 429)%Z then RateLimited
      else if negb (status =? 200)%Z then NotFound
      else match body with
           | inl e => if mentions429 e then RateLimited else NotFound
           | inr payload => Found payload
           end
  end.

(** The same rule, with a payload that is falsy read as the callers
    read it. *)
Definition classification (r : HttpResult) : FetchOutcome :=
  match r with
  | Rejected e => if mentions429 e then RateLimited else NotFound
  | Responded status body =>
      if (status =? 429)%Z then RateLimited
      else if negb (status =? 200)%Z then NotFound
      else match body with
           | inl e => if mentions429 e then RateLimited else NotFound
           | inr payload => if truthy payload then Found payload else NotFound
           end
  end.

(** A server whose every answer is [r]. *)
Definition always (r : HttpResult) : Server := fun _ _ => r.

Section Resolver.
Variable server : Server.
Variable p : Prefs.

(** The identifier candidates of a record, in priority order: DOI, arXiv
    id (the pattern of the extra field first, else the pattern of the
    URL), PMID, stored catalog id. *)
Definition candidates (it : Item) : list Identifier :=
  match getField it "DOI" with
  | EmptyString => []
  | doi => [DOI doi]
  end ++
  match ItemUtils.firstMatch ItemUtils.arxivExtraAt (getField it "extra") with
  | Some a => [ArXiv a]
  | None =>
      match ItemUtils.firstMatch ItemUtils.arxivUrlAt (getField it "url") with
      | Some a => [ArXiv a]
      | None => []
      end
  end ++
  match ItemUtils.firstMatch ItemUtils.pmidAt (getField it "extra") with
  | Some m => [PMID m]
  | None => []
  end ++
  (if truthy (ItemUtils.getScholarId it) then [ScholarId (ItemUtils.getScholarId it)] else []).

(** The short-circuiting fold over lookups: stop at the first result
    that is found or rate limited, else go on; [last] when all are used up. *)
Fixpoint firstDecisive (fields : string) (cs : list Identifier) (last : M FetchResult)
    : M FetchResult :=
  match cs with
  | [] => last
  | c :: rest =>
      let* result := lookupByIdentifier server c fields in
      match outcome result with
      | Found _ | RateLimited => ret result
      | NotFound => firstDecisive fields rest last
      end
  end.

(** The title search, issued only in title-search mode (and for a record
    that has a title); not found otherwise. *)
Definition titleFallback (it : Item) (fields : string) : M FetchResult :=
  if String.eqb (searchMode p) "title" && negb (String.eqb (getField it "title") "")
  then fetchByTitle server (getField it "title") fields ItemUtils.normalizeTitleJS
  else ret (mkResult JNull false).

Definition fetchForRecord (it : Item) : M FetchResult :=
  let fields := buildFieldsParam (shouldFetchField p) in
  firstDecisive fields (candidates it) (titleFallback it fields).

(** Every request the record can give rise to, in priority order. *)
Definition plannedRequests (it : Item) : list Request :=
  let fields := buildFieldsParam (shouldFetchField p) in
  map (fun c => GET (lookupUrl c fields)) (candidates it) ++
  (if String.eqb (searchMode p) "title" && negb (String.eqb (getField it "title") "")
   then [GET (searchUrl (getField it "title") fields)] else []).

End Resolver.

Definition titlePrefs (mode : string) : Prefs := mkPrefs ∅ mode false.

Definition sampleRecord : Item :=
  mkItem 7 true "journalArticle"
         (<["DOI" := "10.1016/J.JMVA.2021.104879"]>
            (<["extra" := "arXiv: 2106.00170"]>
               (<["title" := "Adaptive Conformal Inference"]> ∅)))
         JNull.

End Lookup.

Module TitleSearch.
Import SemanticScholarAPI.

Fixpoint allChars (p : ascii -> bool) (s : string) : bool :=
  match s with
  | EmptyString => true
  | String c r => p c && allChars p r
  end.

Definition isAlnum (c : ascii) : bool := isUpper c || isLower c || isDigit c.

(** What a normalized title is made of: lower-case ASCII letters,
    digits, the underscore, and the space. *)
Definition isNormalChar (c : ascii) : bool :=
  isLower c || isDigit c || (code c =? 95)%N || (code c =? 32)%N.

Definition headIsSpace (s : string) : bool :=
  match s with
  | String c _ => isSpace c
  | EmptyString => false
  end.

Fixpoint lastIsSpace (s : string) : bool :=
  match s with
  | EmptyString => false
  | String c EmptyString => isSpace c
  | String _ r => lastIsSpace r
  end.

Fixpoint noSpaceRun (s : string) : bool :=
  match s with
  | String c r => negb (isSpace c && headIsSpace r) && noSpaceRun r
  | EmptyString => true
  end.

(** No whitespace at either end, and no two whitespace characters in a row. *)
Definition tidy (s : string) : bool :=
  negb (headIsSpace s) && negb (lastIsSpace s) && noSpaceRun s.

(** Normalization in the words of the specification: lower-case, strip
    every character that is not alphanumeric or whitespace, collapse
    whitespace runs, trim. *)
Definition normalizeTitle_stated (title : string) : string :=
  trim (collapseSpaces false
          (filterChars (fun c => isAlnum c || isSpace c) (toLowerCase title))).

(** A candidate of the search response that has a string for a title. *)
Definition titleOf (paper : JSON) : option string :=
  match getProp paper "title" with
  | inr (JStr s) => Some s
  | _ => None
  end.

(** A candidate whose title is [null] or missing. *)
Definition titleAbsent (paper : JSON) : bool :=
  match getProp paper "title" with
  | inr JNull | inr JUndefined => true
  | _ => false
  end.

(** The test of the loop on a candidate with a string title: the title
    is not empty and normalizes to the normalized query. *)
Definition exactMatch (normalize : string -> string) (title : string) (paper : JSON) : bool :=
  match titleOf paper with
  | Some s => negb (String.eqb s "") && String.eqb (normalize s) (normalize title)
  | None => false
  end.

Definition firstExactMatch (normalize : string -> string) (title : string)
    (candidates : list JSON) : FetchResult :=
  match find (exactMatch normalize title) candidates with
  | Some paper => mkResult paper false
  | None => mkResult JNull false
  end.

(** A 200 response of the search endpoint that lists [candidates]. *)
Definition searchResponse (candidates : list JSON) : HttpResult :=
  Responded 200 (inr (JObj [("total", JNum (Z.of_nat (List.length candidates)));
                            ("data", JArr candidates)])).

(** A server that answers every request with that response. *)
Definition always_search (candidates : list JSON) : Server :=
  fun _ _ => searchResponse candidates.

Definition paperTitled (paperId title : string) : JSON :=
  JObj [("paperId", JStr paperId); ("title", JStr title)].

Definition paperUntitled (paperId : string) : JSON :=
  JObj [("paperId", JStr paperId); ("title", JNull)].

End TitleSearch.

Module Merge.
Import ItemUtils.

(** The exported bibliographic fields applyDataToItem may write. *)
Inductive ExportedField : Type :=
| FieldDOI
| FieldAbstract
| FieldDate
| FieldVenue
| FieldOpenAccessUrl.

(** The fetch flag that gates the field. *)
Definition flagOf (f : ExportedField) : string :=
  match f with
  | FieldDOI => "DOI"
  | FieldAbstract => "abstract"
  | FieldDate => "publicationDate"
  | FieldVenue => "venue"
  | FieldOpenAccessUrl => "openAccessPdf"
  end.

(** The item field it is written to. *)
Definition targetOf (it : Item) (f : ExportedField) : string :=
  match f with
  | FieldDOI => "DOI"
  | FieldAbstract => "abstractNote"
  | FieldDate => "date"
  | FieldVenue => venueFieldOf (itemType it)
  | FieldOpenAccessUrl => "url"
  end.

(** The value the catalog result holds for it. *)
Definition catalogValue (data : JSON) (f : ExportedField) : JSON :=
  match f with
  | FieldDOI => optProp (prop data "externalIds") "DOI"
  | FieldAbstract => prop data "abstract"
  | FieldDate => prop data "publicationDate"
  | FieldVenue => jsOr (optProp (prop data "journal") "name") (prop data "venue")
  | FieldOpenAccessUrl => optProp (prop data "openAccessPdf") "url"
  end.

(** A catalog value is a string, or is absent. *)
Definition textOrAbsent (v : JSON) : bool :=
  match v with
  | JStr _ | JNull | JUndefined => true
  | _ => false
  end.

Definition wellTyped (data : JSON) : Prop :=
  forall f, textOrAbsent (catalogValue data f) = true.

(** The block of applyDataToItem that writes the field. *)
Definition block (data : JSON) (should : string -> bool) (ow : bool)
    (f : ExportedField) : Item -> Item :=
  match f with
  | FieldDOI => applyDOI data should ow
  | FieldAbstract => applyAbstract data should ow
  | FieldDate => applyPublicationDate data should ow
  | FieldVenue => applyVenue data should ow
  | FieldOpenAccessUrl => applyOpenAccessPdf data should ow
  end.

(** The blocks, in the order applyDataToItem runs them. *)
Definition exportedFields : list ExportedField :=
  [FieldDOI; FieldAbstract; FieldDate; FieldVenue; FieldOpenAccessUrl].

Definition applyBlocks (data : JSON) (should : string -> bool) (ow : bool)
    (fs : list ExportedField) (it : Item) : Item :=
  fold_left (fun it f => block data should ow f it) fs it.

Definition allFlags : string -> bool := fun _ => true.

Definition sampleArticle : Item :=
  mkItem 3 true "journalArticle"
         (<["DOI" := "10.1000/old"]> (<["title" := "A paper"]> ∅)) JNull.

Definition sampleResult : JSON :=
  JObj [ ("paperId", JStr "abc123");
         ("citationCount", JNum 12);
         ("externalIds", JObj [("DOI", JStr "10.1000/new")]);
         ("abstract", JStr "We study.");
         ("venue", JStr "Journal of Things") ].

End Merge.

Module Batch.
Import SemanticScholarAPI SemanticScholar.

(** The consecutive chunks of at most batchSize ids. *)
Fixpoint chunksFrom (fuel : nat) (ids : list JSON) : list (list JSON) :=
  match fuel, ids with
  | S fuel', _ :: _ => firstn batchSize ids :: chunksFrom fuel' (skipn batchSize ids)
  | _, _ => []
  end.

Definition chunks (ids : list JSON) : list (list JSON) := chunksFrom (List.length ids) ids.

(** A run of the batch loop over the chunks still to send: from the log
    and the results so far to the returned object and the final log.
    Every chunk is one POST; a rate limit ends the run with the results
    gathered before it; otherwise what the response holds is appended
    and, if a chunk remains, 200 ms pass before it is sent. *)
Inductive BatchRun (server : Server) (fields : string)
  : list (list JSON) -> list Event -> list JSON -> BatchResult -> list Event -> Prop :=
| run_done log results :
    BatchRun server fields [] log results (mkBatch results false) log
| run_rate_limited chunk rest log results :
    chunkEffect (server log (POST (batchUrl fields) chunk)) = Abort ->
    BatchRun server fields (chunk :: rest) log results
             (mkBatch results true) (log ++ [Sent (POST (batchUrl fields) chunk)])
| run_next chunk rest log results got b log' :
    chunkEffect (server log (POST (batchUrl fields) chunk)) = Push got ->
    BatchRun server fields rest
             ((log ++ [Sent (POST (batchUrl fields) chunk)]) ++
              match rest with [] => [] | _ => [Slept 200] end)
             (results ++ got) b log' ->
    BatchRun server fields (chunk :: rest) log results b log'.

(** The batch lookup in the words of the specification.  A chunk is
    rate limited when its answer has status 429, or when the request or
    the reading of a 200 body fails with an error that names 429. *)
Definition chunkRateLimited (r : HttpResult) : bool :=
  match r with
  | Responded status body =>
      (status =? 429)%Z ||
      ((status =? 200)%Z && match body with
                            | inl e => mentions429 e
                            | inr _ => false
                            end)
  | Rejected e => mentions429 e
  end.

(** The results a chunk that is not rate limited adds: the entries of
    the array a 200 answer holds (the characters of a string), nothing
    otherwise. *)
Definition chunkResults (r : HttpResult) : list JSON :=
  match r with
  | Responded status (inr (JArr l)) => if (status =? 200)%Z then l else []
  | Responded status (inr (JStr s)) => if (status =? 200)%Z then chars s else []
  | _ => []
  end.

(** One request per chunk, in order; a rate-limited chunk ends the
    lookup with the results obtained so far and the flag set, and the
    chunks after it are not sent; between a chunk and the next, 200 ms. *)
Fixpoint batchLookup_stated (server : Server) (fields : string)
    (chunks : list (list JSON)) (results : list JSON) : M BatchResult :=
  match chunks with
  | [] => ret (mkBatch results false)
  | chunk :: rest =>
      let* response := HTTP_request server (POST (batchUrl fields) chunk) in
      if chunkRateLimited response then ret (mkBatch results true)
      else
        let* _ := (match rest with
                   | [] => ret tt
                   | _ :: _ => Promise_delay 200
                   end) in
        batchLookup_stated server fields rest (results ++ chunkResults response)
  end.

(** The id lists of the POST requests of a log, in order. *)
Fixpoint postsOf (log : list Event) : list (list JSON) :=
  match log with
  | [] => []
  | Sent (POST _ ids) :: r => ids :: postsOf r
  | _ :: r => postsOf r
  end.

(** A catalog that knows every id: the paper it holds for an id. *)
Definition paperOf (scholarId : JSON) : JSON :=
  JObj [("paperId", scholarId); ("citationCount", JNum 1)].

(** It answers a batch with the papers of the ids, in order; its first
    answer, though, is a server error. *)
Definition flakyCatalog : Server :=
  fun log r =>
    match r, log with
    | POST _ ids, [] => Responded 500 (inl (mkExn "Internal Server Error"))
    | POST _ ids, _ => Responded 200 (inr (JArr (map paperOf ids)))
    | GET _, _ => Responded 404 (inl (mkExn "Not Found"))
    end.

(** It answers every batch with the papers of the ids, in order. *)
Definition steadyCatalog : Server :=
  fun log r =>
    match r with
    | POST _ ids => Responded 200 (inr (JArr (map paperOf ids)))
    | GET _ => Responded 404 (inl (mkExn "Not Found"))
    end.

(** A catalog that answers its first batch with the papers of the ids
    and rate limits every batch after it. *)
Definition limitingCatalog : Server :=
  fun log r =>
    match r, log with
    | POST _ ids, [] => Responded 200 (inr (JArr (map paperOf ids)))
    | POST _ ids, _ => Responded 429 (inl (mkExn "Too Many Requests"))
    | GET _, _ => Responded 404 (inl (mkExn "Not Found"))
    end.

(** Records 0, 1, 2, ... each with its own stored catalog id. *)
Definition scholarIdOf (n : nat) : JSON := JStr ("a" +:+ decimal (Z.of_nat n)).

Definition storedItem (n : nat) : Item :=
  mkItem (Z.of_nat n) true "journalArticle" ∅ (JObj [("paperId", scholarIdOf n)]).

Definition storedItems (count : nat) : list Item := map storedItem (seq 0 count).

Definition defaultPrefs : Prefs := mkPrefs ∅ "identifiers" false.

End Batch.

Module Shapes.
Import TitleSearch.

(** The shape [\d+\.\d+] of an arXiv id without its version. *)
Definition versionless (a : string) : Prop :=
  exists d1 d2 : string,
    a = d1 +:+ "." +:+ d2 /\ d1 <> "" /\ d2 <> "" /\
    allChars isDigit d1 = true /\ allChars isDigit d2 = true.

(** The block of an exported field has nothing left to do on an item:
    the field holds the catalog value, or overwriting is off and the
    field holds a value of its own. *)
Definition settled (data : JSON) (should : string -> bool) (ow : bool)
    (it : Item) (f : Merge.ExportedField) : Prop :=
  should (Merge.flagOf f) && truthy (Merge.catalogValue data f) = true ->
  fields it !! Merge.targetOf it f = Some (jsString (Merge.catalogValue data f)) \/
  (ow = false /\ getField it (Merge.targetOf it f) <> "").

Definition annotated (extra url : string) : Item :=
  mkItem 11 true "journalArticle" (<["extra" := extra]> (<["url" := url]> ∅)) JNull.

(** A value as [JSON.parse] gives them: with no [undefined] inside. *)
Fixpoint parsed (v : JSON) : bool :=
  match v with
  | JUndefined => false
  | JArr l => forallb parsed l
  | JObj l => forallb (fun kv => match kv with (_, x) => parsed x end) l
  | _ => true
  end.

(** The note written for [data] can be read back: the JSON text of
    [data] does not hold the closing tag. *)
Definition readable (data : JSON) : bool :=
  negb (includes ItemUtils.closingTag (JSON_stringify data)).

(** A catalog result whose paperId is the closing tag of the note. *)
Definition tagResult : JSON :=
  JObj [("paperId", JStr "</semantic-scholar-data>"); ("citationCount", JNum 12)].

End Shapes.

Module Requests.
Import SemanticScholarAPI.

(** The attribute names buildFieldsParam joins with commas. *)
Definition requestedFields (shouldFetchField : string -> bool) : list string :=
  dedupe []
    (["paperId"; "citationCount"] ++
     (if shouldFetchField "influentialCitationCount" then ["influentialCitationCount"] else []) ++
     (if shouldFetchField "referenceCount" then ["referenceCount"] else []) ++
     (if shouldFetchField "DOI" then ["externalIds"] else []) ++
     (if shouldFetchField "arXivId" then ["externalIds"] else []) ++
     (if shouldFetchField "abstract" then ["abstract"] else []) ++
     (if shouldFetchField "publicationDate" then ["publicationDate"] else []) ++
     (if shouldFetchField "venue" then ["venue"; "journal"] else []) ++
     (if shouldFetchField "openAccessPdf" then ["openAccessPdf"] else []) ++
     (if shouldFetchField "fieldsOfStudy" then ["fieldsOfStudy"] else [])).

(** A run of addToRetryQueue calls, first to last. *)
Definition enqueueAll (calls : list (Item * Z)) (api : t) : t :=
  fold_left (fun a c => addToRetryQueue (fst c) (snd c) a) calls api.

Section Serving.
Context {W : Type}.
Variable fetchCallback : Item -> W -> FetchResult * W.
Variable applyCallback : Item -> JSON -> W -> W.
Variable sleep : Z -> W -> W.

(** What a drain turn does to the world for an entry whose fetch is not
    rate limited: the fetch, the apply when data came back, the pause. *)
Definition serve (w : W) (e : RetryEntry) : W :=
  let '(result, w1) := fetchCallback (item e) w in
  sleep 500 (if truthy (data result) then applyCallback (item e) (data result) w1 else w1).

End Serving.

(** A world that records the ids of the items fetched. *)
Definition recordFetch : Item -> list Z -> FetchResult * list Z :=
  fun it w => (mkResult JNull false, w ++ [item_id it]).
Definition recordApply : Item -> JSON -> list Z -> list Z := fun _ _ w => w.
Definition recordSleep : Z -> list Z -> list Z := fun _ w => w.

End Requests.

Module Tally.
Import SemanticScholarAPI SemanticScholar.

Local Open Scope Z_scope.

(** The records a run has counted, under any of its three counters. *)
Definition counted (r : Run) : Z := successCount r + failCount r + rateLimitedCount r.

(** The urls of the GET requests of a log, in order. *)
Fixpoint getsOf (log : list Event) : list string :=
  match log with
  | [] => []
  | Sent (GET url) :: r => url :: getsOf r
  | _ :: r => getsOf r
  end.

(** How many pauses of [ms] milliseconds a log holds. *)
Fixpoint pauses (ms : Z) (log : list Event) : Z :=
  match log with
  | [] => 0
  | Slept d :: r => (if d =? ms then 1 else 0) + pauses ms r
  | _ :: r => pauses ms r
  end.

(** The delays the backoff can hold: the floor doubled up to the
    ceiling. *)
Definition backoffDelay (d : Z) : Prop :=
  In d [2000; 4000; 8000; 16000; 32000; 60000].

(** The pause a drain starts with, when the run that ended in scheduler
    [after] started one: none was in progress before and the queue is
    not empty. *)
Definition drainStartPauses (ms : Z) (before after : t) : Z :=
  if negb (isProcessingRetryQueue before) && hasQueuedItems after &&
     (Z.min (retryDelay before) maxRetryDelay =? ms)
  then 1 else 0.

(** An item with a stored catalog id. *)
Definition stored (it : Item) : bool := truthy (ItemUtils.getScholarId it).

(** A clock that stands still. *)
Definition sameDay : list Event -> string := fun _ => "1/2/2025".

(** A catalog that answers every batch in full and rate limits every
    single lookup. *)
Definition busyCatalog : Server :=
  fun log r =>
    match r with
    | POST _ ids => Responded 200 (inr (JArr (map Batch.paperOf ids)))
    | GET _ => Responded 429 (inl (mkExn "Too Many Requests"))
    end.

(** A catalog that knows every DOI. *)
Definition knowingCatalog : Server :=
  fun log r =>
    match r with
    | POST _ ids => Responded 200 (inr (JArr (map Batch.paperOf ids)))
    | GET _ => Responded 200 (inr (Batch.paperOf (JStr "p7")))
    end.

(** A scheduler with one record waiting and no drain in progress. *)
Definition waiting : t := mkAPI [mkEntry (Scheduler.paperItem 99) 0] false 2000.

(** A record with a DOI and nothing stored. *)
Definition doiItem (n : Z) : Item :=
  mkItem n true "journalArticle" {[ "DOI" := "10.1000/182" ]} JNull.

End Tally.

(** * The retry scheduler *)

Module SchedulerFacts.
Import SemanticScholarAPI Scheduler.

Local Open Scope Z_scope.

Lemma queued_spec it q :
  queued it q = true <-> In (item_id it) (map (fun e => item_id (item e)) q).
Proof.
  unfold queued. rewrite existsb_exists, in_map_iff. split.
  - intros [e [He Hid]]. exists e. split; [now apply Z.eqb_eq | exact He].
  - intros [e [Hid He]]. exists e. split; [exact He | now apply Z.eqb_eq].
Qed.

Lemma addToRetryQueue_queued it rc api :
  queued it (retryQueue api) = true -> addToRetryQueue it rc api = api.
Proof.
  intros H. unfold addToRetryQueue. rewrite H. now destruct (rc >=? maxRetries).
Qed.

Lemma addToRetryQueue_NoDup it rc api :
  NoDup (queueIds api) -> NoDup (queueIds (addToRetryQueue it rc api)).
Proof.
  intros H. unfold addToRetryQueue.
  destruct (rc >=? maxRetries); [exact H |].
  destruct (queued it (retryQueue api)) eqn:Hq; [exact H |].
  unfold queueIds, with_queue; simpl. rewrite map_app; simpl.
  apply NoDup_app. repeat split.
  - exact H.
  - intros x Hx Hy. apply list_elem_of_In in Hx, Hy.
    destruct Hy as [Hy | []]. subst x.
    apply queued_spec in Hx. congruence.
  - apply NoDup_singleton.
Qed.

Section WithCallbacks.
Context {W : Type}.
Variable fetchCallback : Item -> W -> FetchResult * W.
Variable applyCallback : Item -> JSON -> W -> W.
Variable sleep : Z -> W -> W.

Abbreviation step := (drainStep fetchCallback applyCallback sleep).
Abbreviation iteration := (drainIteration fetchCallback applyCallback sleep).

(** The three arms of the loop body, by outcome. *)
Lemma drainIteration_cases e api w :
  let r := fst (fetchCallback (item e) w) in
  fst (iteration e api w) =
    match outcome r with
    | RateLimited =>
        mkAPI (mkEntry (item e) (retryCount e + 1) :: retryQueue api)
              (isProcessingRetryQueue api)
              (Z.min (retryDelay api * 2) maxRetryDelay)
    | Found _ => with_delay 2000 api
    | NotFound => api
    end.
Proof.
  unfold drainIteration, outcome; simpl.
  destruct (fetchCallback (item e) w) as [r w1]; simpl.
  destruct (rateLimited r); [reflexivity |].
  destruct (truthy (data r)); reflexivity.
Qed.

Lemma drainStep_ids s :
  queueIds (fst (step s)) = queueIds (fst s) \/
  queueIds (fst (step s)) = tl (queueIds (fst s)).
Proof.
  unfold drainStep. destruct s as [api w]; simpl.
  destruct (retryQueue api) as [| e q] eqn:Hq; [now left |].
  rewrite drainIteration_cases; simpl.
  unfold queueIds; rewrite Hq.
  destruct (outcome _); simpl; auto.
Qed.

Lemma drainStep_NoDup s :
  NoDup (queueIds (fst s)) -> NoDup (queueIds (fst (step s))).
Proof.
  intros H. destruct (drainStep_ids s) as [E | E]; rewrite E; [exact H |].
  destruct (queueIds (fst s)); [exact H | now inversion H].
Qed.

Lemma runOp_quiet_turn s :
  runOp fetchCallback applyCallback sleep s (DrainTurn []) = step s.
Proof. reflexivity. Qed.

Lemma runOps_NoDup ops : forall s,
  forallb quiet ops = true ->
  NoDup (queueIds (fst s)) ->
  NoDup (queueIds (fst (runOps fetchCallback applyCallback sleep ops s))).
Proof.
  induction ops as [| op ops IH]; intros s Hq H; [exact H |].
  cbn [forallb] in Hq. apply andb_true_iff in Hq as [Hop Hq].
  cbn [runOps fold_left]. apply (IH _ Hq). destruct op as [it rc | [| c meanwhile]].
  - now apply addToRetryQueue_NoDup.
  - rewrite runOp_quiet_turn. now apply drainStep_NoDup.
  - discriminate Hop.
Qed.

Lemma drainStep_delay s :
  inBounds (retryDelay (fst s)) -> inBounds (retryDelay (fst (step s))).
Proof.
  unfold drainStep, inBounds, maxRetryDelay. destruct s as [api w]; simpl.
  destruct (retryQueue api) as [| e q]; [auto |].
  rewrite drainIteration_cases; simpl.
  destruct (outcome _); simpl; unfold maxRetryDelay; lia.
Qed.

Lemma drainN_delay n : forall s,
  inBounds (retryDelay (fst s)) ->
  inBounds (retryDelay (fst (drainN fetchCallback applyCallback sleep n s))).
Proof.
  induction n as [| n IH]; intros s H; simpl; [exact H |].
  apply IH, drainStep_delay, H.
Qed.

Lemma addToRetryQueue_delay it rc api :
  retryDelay (addToRetryQueue it rc api) = retryDelay api.
Proof.
  unfold addToRetryQueue. destruct (rc >=? maxRetries); [reflexivity |].
  now destruct (queued it (retryQueue api)).
Qed.

Lemma enqueues_delay (calls : list (Item * Z)) : forall api,
  retryDelay (fold_left (fun api c => addToRetryQueue (fst c) (snd c) api) calls api)
  = retryDelay api.
Proof.
  induction calls as [| c calls IH]; intros api; [reflexivity |].
  cbn [fold_left]. now rewrite IH, addToRetryQueue_delay.
Qed.

Lemma runOp_delay s op :
  inBounds (retryDelay (fst s)) ->
  inBounds (retryDelay (fst (runOp fetchCallback applyCallback sleep s op))).
Proof.
  intros H. destruct op as [it rc | meanwhile]; cbn [runOp fst].
  - now rewrite addToRetryQueue_delay.
  - destruct (retryQueue (fst s)) as [| e q]; [exact H |].
    rewrite drainIteration_cases. unfold inBounds, maxRetryDelay in *.
    destruct (outcome _); cbn [retryDelay with_delay];
      rewrite ?enqueues_delay; cbn [with_queue retryDelay]; unfold maxRetryDelay; lia.
Qed.

Lemma runOps_delay ops : forall s,
  inBounds (retryDelay (fst s)) ->
  inBounds (retryDelay (fst (runOps fetchCallback applyCallback sleep ops s))).
Proof.
  induction ops as [| op ops IH]; intros s H; [exact H |].
  cbn [runOps fold_left]. apply IH, runOp_delay, H.
Qed.

End WithCallbacks.

(** C7: a record can be present twice in the retry queue.  The guard of
    addToRetryQueue looks at the queue, and the entry a drain turn has
    taken off to fetch is not in it: a call for that record during the
    wait appends it, and when the fetch comes back rate limited the turn
    puts its entry back at the front.  With one call of addToRetryQueue
    for a record, then a turn during whose fetch the record is enqueued
    again, the queue holds the record at retryCount 1 and at retryCount
    0.  Without such a call in a turn the invariant holds: after any
    sequence of addToRetryQueue calls and turns that nothing lands in,
    from the empty queue, the queued ids are pairwise distinct, and
    addToRetryQueue for a queued record leaves the scheduler as it is. *)
Theorem C7_enqueue_during_fetch_queues_record_twice :
  (let api := fst (runOps alwaysRateLimited noApply noSleep
                     [Enqueue (paperItem 1) 0; DrainTurn [(paperItem 1, 0)]]
                     (init, tt)) in
   retryQueue api = [mkEntry (paperItem 1) 1; mkEntry (paperItem 1) 0] /\
   queueIds api = [1; 1] /\
   ~ NoDup (queueIds api)) /\
  (forall (W : Type) (fetchCallback : Item -> W -> FetchResult * W)
          (applyCallback : Item -> JSON -> W -> W) (sleep : Z -> W -> W)
          (ops : list Op) (w : W),
      forallb quiet ops = true ->
      NoDup (queueIds (fst (runOps fetchCallback applyCallback sleep ops (init, w))))) /\
  (forall (api : t) (it : Item) (rc : Z),
      queued it (retryQueue api) = true -> addToRetryQueue it rc api = api).
Proof.
  split; [| split].
  - cbn zeta. split; [reflexivity |]. split; [reflexivity |].
    change (queueIds _) with [1; 1]. intros H.
    apply NoDup_cons in H as [H _]. apply H. now left.
  - intros W f a sl ops w Hq. apply runOps_NoDup; [exact Hq | apply NoDup_nil_2].
  - intros api it rc. apply addToRetryQueue_queued.
Qed.

(** C6: across the drain, the backoff delay stays between the floor
    (2000 ms) and the ceiling (60000 ms): after any sequence of
    addToRetryQueue calls and drain turns it is within these bounds, and
    the next turn doubles it up to the ceiling when its fetch is rate
    limited, resets it to the floor when its fetch finds the paper, and
    leaves it as it was when its fetch finds nothing. *)
Theorem C6_backoff_delay :
  forall (W : Type) (fetchCallback : Item -> W -> FetchResult * W)
         (applyCallback : Item -> JSON -> W -> W) (sleep : Z -> W -> W)
         (api : t) (w : W),
    inBounds (retryDelay api) ->
    forall ops : list Op,
      let s := runOps fetchCallback applyCallback sleep ops (api, w) in
      let s' := drainStep fetchCallback applyCallback sleep s in
      inBounds (retryDelay (fst s)) /\
      match nextOutcome fetchCallback s with
      | Some RateLimited => retryDelay (fst s') = Z.min (2 * retryDelay (fst s)) 60000
      | Some (Found _) => retryDelay (fst s') = 2000
      | Some NotFound => retryDelay (fst s') = retryDelay (fst s)
      | None => s' = s
      end.
Proof.
  intros W f a sl api w Hb ops s s'. split.
  - apply runOps_delay. exact Hb.
  - subst s'. unfold nextOutcome, drainStep.
    destruct (retryQueue (fst s)) as [| e q]; [reflexivity |].
    rewrite drainIteration_cases; simpl.
    destruct (outcome _); simpl; unfold maxRetryDelay; try reflexivity.
    f_equal. lia.
Qed.

Lemma C6_backoff_delay_witness :
  inBounds (retryDelay init) /\
  retryDelay (fst (runOps alwaysRateLimited noApply noSleep
                     [Enqueue (paperItem 1) 0; DrainTurn []; DrainTurn []; DrainTurn []]
                     (init, tt))) = 16000.
Proof.
  assert (Hb : inBounds (retryDelay init)).
  { unfold inBounds, maxRetryDelay; simpl; lia. }
  split; [exact Hb |].
  pose proof (C6_backoff_delay unit alwaysRateLimited noApply noSleep init tt Hb
                [Enqueue (paperItem 1) 0; DrainTurn []; DrainTurn []]) as [_ H].
  exact H.
Defined.

Lemma drainN_alwaysRateLimited n : forall api k,
  retryQueue api = [mkEntry (paperItem 1) k] ->
  retryQueue (fst (drainN alwaysRateLimited noApply noSleep n (api, tt)))
  = [mkEntry (paperItem 1) (k + Z.of_nat n)].
Proof.
  induction n as [| n IH]; intros api k Hq.
  - simpl. rewrite Hq. do 2 f_equal. lia.
  - cbn [drainN]. unfold drainStep at 1; cbn [fst snd]. rewrite Hq.
    unfold drainIteration, alwaysRateLimited; cbn [rateLimited noSleep].
    rewrite (IH _ (k + 1)); [| reflexivity].
    do 2 f_equal. lia.
Qed.

Lemma drainLoop_alwaysRateLimited fuel : forall api k,
  retryQueue api = [mkEntry (paperItem 1) k] ->
  drainLoop alwaysRateLimited noApply noSleep fuel (api, tt) = None.
Proof.
  induction fuel as [| fuel IH]; intros api k Hq.
  - simpl. now rewrite Hq.
  - cbn [drainLoop fst]. rewrite Hq.
    unfold drainStep; cbn [fst snd]. rewrite Hq.
    unfold drainIteration, alwaysRateLimited; cbn [rateLimited noSleep].
    apply (IH _ (k + 1)). reflexivity.
Qed.

(** C1: an entry that keeps being rate limited is never dropped by the
    drain.  With one record enqueued and a catalog that answers every
    fetch with a rate limit, after [n] turns of the loop the queue holds
    that record with retryCount [n]: from the fifth turn on the count is
    at least maxRetries, and the loop has no way to end. *)
Theorem C1_rate_limited_entry_outlives_maxRetries :
  forall n : nat,
    retryQueue (fst (drainN alwaysRateLimited noApply noSleep n
                       (addToRetryQueue (paperItem 1) 0 init, tt)))
    = [mkEntry (paperItem 1) (Z.of_nat n)] /\
    processRetryQueue alwaysRateLimited noApply noSleep n
      (addToRetryQueue (paperItem 1) 0 init) tt = None.
Proof.
  intros n. split.
  - rewrite (drainN_alwaysRateLimited n _ 0); [reflexivity | reflexivity].
  - unfold processRetryQueue. cbn [isProcessingRetryQueue addToRetryQueue init].
    change (with_processing true (addToRetryQueue (paperItem 1) 0 init))
      with (mkAPI [mkEntry (paperItem 1) 0] true 2000).
    simpl orb. cbv iota.
    rewrite drainLoop_alwaysRateLimited with (k := 0); reflexivity.
Qed.

End SchedulerFacts.


(** * The catalog client *)

Module ClientFacts.
Import SemanticScholarAPI SemanticScholar Lookup.

Lemma lookup_is_makeRequest server ident fields :
  lookupByIdentifier server ident fields = makeRequest server (lookupUrl ident fields).
Proof. destruct ident; reflexivity. Qed.

Lemma makeRequest_run server url log :
  makeRequest server url log =
  (match server log (GET url) with
   | Rejected error => onError error
   | Responded status responseText =>
       if (status =? 429)%Z then mkResult JNull true
       else if negb (status =? 200)%Z then mkResult JNull false
       else match responseText with
            | inr data => mkResult data false
            | inl error => onError error
            end
   end, log ++ [Sent (GET url)]).
Proof. reflexivity. Qed.

Lemma outcome_onError e :
  outcome (onError e) = if mentions429 e then RateLimited else NotFound.
Proof. unfold onError. destruct (mentions429 e); reflexivity. Qed.

Lemma makeRequest_outcome server url log :
  outcome (fst (makeRequest server url log)) = classification (server log (GET url)).
Proof.
  rewrite makeRequest_run; simpl.
  destruct (server log (GET url)) as [status body | e]; simpl.
  - destruct (status =? 429)%Z; [reflexivity |].
    destruct (status =? 200)%Z; simpl; [| reflexivity].
    destruct body as [e | payload].
    + apply outcome_onError.
    + unfold outcome; simpl. reflexivity.
  - apply outcome_onError.
Qed.

(** C4, as the code has it: every single-identifier lookup sends one
    GET and classifies the answer by one rule.  Status 429 is
    RateLimited; any other status but 200 is NotFound; a rejection or a
    JSON parse error is NotFound, unless its message contains 429, which
    makes it RateLimited; a 200 whose text parses is returned as
    [{ data: payload, rateLimited: false }], which is Found with the
    payload when the payload is truthy and NotFound when it is falsy. *)
Theorem C4_lookup_classification :
  forall (server : Server) (ident : Identifier) (fields : string) (log : list Event),
    let response := server log (GET (lookupUrl ident fields)) in
    let run := lookupByIdentifier server ident fields log in
    snd run = log ++ [Sent (GET (lookupUrl ident fields))] /\
    outcome (fst run) = classification response /\
    (forall payload, response = Responded 200 (inr payload) ->
                     fst run = mkResult payload false).
Proof.
  intros server ident fields log response run. subst run response.
  rewrite lookup_is_makeRequest. split; [reflexivity |]. split.
  - apply makeRequest_outcome.
  - intros payload H. rewrite makeRequest_run, H. reflexivity.
Qed.

Lemma C4_lookup_classification_witness :
  let server := always (Responded 200 (inr (JObj [("paperId", JStr "abc")]))) in
  server [] (GET (lookupUrl (DOI "10.1/x") "paperId")) =
    Responded 200 (inr (JObj [("paperId", JStr "abc")])) /\
  fst (lookupByIdentifier server (DOI "10.1/x") "paperId" []) =
    mkResult (JObj [("paperId", JStr "abc")]) false.
Proof.
  intros server. split; [reflexivity |].
  apply (C4_lookup_classification server (DOI "10.1/x") "paperId" []).
  reflexivity.
Defined.

(** C4, as stated, fails: a 200 response whose text is the JSON [null]
    is classified NotFound, not Found. *)
Lemma C4_counterexample :
  ~ (forall (server : Server) (ident : Identifier) (fields : string) (log : list Event),
       outcome (fst (lookupByIdentifier server ident fields log)) =
       classification_stated (server log (GET (lookupUrl ident fields)))).
Proof.
  intros H.
  specialize (H (always (Responded 200 (inr JNull))) (DOI "10.1/x") "paperId" []).
  discriminate H.
Qed.

End ClientFacts.

(** * Title search *)

Module TitleFacts.
Import SemanticScholarAPI ItemUtils TitleSearch.

Lemma append_assoc (a b c : string) : (a +:+ b) +:+ c = a +:+ (b +:+ c).
Proof.
  induction a as [| x a IH]; [reflexivity |].
  change (String x ((a +:+ b) +:+ c) = String x (a +:+ (b +:+ c))). now f_equal.
Qed.

Lemma normalizeTitle_example :
  normalizeTitle "Deep Learning, 2016!" = "deep learning 2016" /\
  normalizeTitle "deep learning 2016" = "deep learning 2016".
Proof. split; vm_compute; reflexivity. Qed.

(** The underscore stays; a letter outside ASCII goes (201 is the code
    unit of a capital E with an acute accent). *)
Example normalizeTitle_underscore_accent :
  normalizeTitle "Foo_Bar" = "foo_bar" /\
  normalizeTitle (String (ascii_of_N 201) "tat") = "tat".
Proof. split; vm_compute; reflexivity. Qed.

(** Character facts, by enumeration of the 256 code units. *)
Lemma kept_lower_is_normal c :
  isWord (lowerChar c) || isSpace (lowerChar c) = true ->
  isSpace (lowerChar c) = true \/ isNormalChar (lowerChar c) = true.
Proof.
  destruct c as [[] [] [] [] [] [] [] []]; vm_compute; intros H;
    first [now right | now left | discriminate H].
Qed.

Lemma allChars_trimStart p s : allChars p s = true -> allChars p (trimStart s) = true.
Proof.
  induction s as [| c r IH]; simpl; [easy |].
  intros H. apply andb_prop in H as [Hc Hr].
  destruct (isSpace c); [now apply IH | simpl; now rewrite Hc, Hr].
Qed.

Lemma allChars_trimEnd p s : allChars p s = true -> allChars p (trimEnd s) = true.
Proof.
  induction s as [| c r IH]; [easy |].
  intros H. cbn [allChars] in H. apply andb_prop in H as [Hc Hr].
  cbn [trimEnd]. destruct (allSpaces (String c r)); [reflexivity |].
  cbn [allChars]. now rewrite Hc, IH.
Qed.

Lemma allChars_collapse s : forall b,
  allChars (fun c => isSpace c || isNormalChar c) s = true ->
  allChars isNormalChar (collapseSpaces b s) = true.
Proof.
  induction s as [| c r IH]; intros b H; [reflexivity |].
  cbn [allChars] in H. apply andb_prop in H as [Hc Hr].
  cbn [collapseSpaces]. destruct (isSpace c) eqn:Hs.
  - destruct b; cbn [allChars]; rewrite ?IH; auto.
  - cbn [allChars]. simpl in Hc. now rewrite Hc, IH.
Qed.

Lemma allChars_filter_lower s :
  allChars (fun c => isSpace c || isNormalChar c)
           (filterChars (fun c => isWord c || isSpace c) (toLowerCase s)) = true.
Proof.
  induction s as [| c r IH]; [reflexivity |].
  cbn [toLowerCase filterChars].
  destruct (isWord (lowerChar c) || isSpace (lowerChar c)) eqn:Hk; [| exact IH].
  cbn [allChars]. rewrite IH, andb_true_r.
  destruct (kept_lower_is_normal c Hk) as [H | H]; rewrite H; [reflexivity | apply orb_true_r].
Qed.

Lemma normalizeTitle_chars title : allChars isNormalChar (normalizeTitle title) = true.
Proof.
  unfold normalizeTitle, trim.
  apply allChars_trimEnd, allChars_trimStart, allChars_collapse, allChars_filter_lower.
Qed.

(** The loop over candidates that all have a string title. *)
Lemma matchLoop_wellTitled title candidates :
  Forall (fun c => titleOf c <> None) candidates ->
  matchLoop normalizeTitleJS (normalizeTitle title) candidates =
  inr (firstExactMatch normalizeTitle title candidates).
Proof.
  unfold firstExactMatch.
  induction 1 as [| c cs Hc _ IH]; [reflexivity |].
  cbn [matchLoop find]. unfold exactMatch at 1. unfold titleOf in *.
  destruct (getProp c "title") as [e | [| | | | s | |]]; try congruence.
  cbn [normalizeTitleJS truthy].
  destruct (negb (String.eqb s "") && String.eqb (normalizeTitle s) (normalizeTitle title));
    [reflexivity | exact IH].
Qed.

Lemma getProp_error v k e : getProp v k = inl e -> mentions429 e = false.
Proof. destruct v; simpl; intros H; inversion H; reflexivity. Qed.

Lemma normalizeTitleJS_error v e : normalizeTitleJS v = inl e -> mentions429 e = false.
Proof. destruct v; simpl; intros H; inversion H; reflexivity. Qed.

(** The loop that meets a candidate without a title before any match. *)
Lemma matchLoop_titleAbsent title pre bad post :
  Forall (fun c => exactMatch normalizeTitle title c = false) pre ->
  titleAbsent bad = true ->
  exists e, matchLoop normalizeTitleJS (normalizeTitle title) (pre ++ bad :: post) = inl e /\
            mentions429 e = false.
Proof.
  intros Hpre Hbad. induction Hpre as [| c cs Hm _ IH].
  - cbn [app matchLoop]. unfold titleAbsent in Hbad.
    destruct (getProp bad "title") as [e | [| | | | s | |]]; try discriminate Hbad;
      cbn [normalizeTitleJS]; eexists; split; reflexivity.
  - cbn [app matchLoop]. unfold exactMatch, titleOf in Hm.
    destruct (getProp c "title") as [e | v] eqn:Eprop.
    + exists e. split; [reflexivity | exact (getProp_error _ _ _ Eprop)].
    + destruct (normalizeTitleJS v) as [e | n] eqn:Enorm.
      * exists e. split; [reflexivity | exact (normalizeTitleJS_error _ _ Enorm)].
      * destruct v; try discriminate Enorm. cbn [normalizeTitleJS] in Enorm.
        injection Enorm as <-. cbn [truthy]. rewrite Hm. exact IH.
Qed.

Lemma searchBody_candidates title responseData candidates :
  getProp responseData "data" = inr (JArr candidates) ->
  searchBody title normalizeTitleJS responseData =
  matchLoop normalizeTitleJS (normalizeTitle title) candidates.
Proof.
  intros H. unfold searchBody. rewrite H.
  destruct candidates as [| c cs]; reflexivity.
Qed.

Lemma fetchByTitle_run server title fields log :
  fetchByTitle server title fields normalizeTitleJS log =
  (match server log (GET (searchUrl title fields)) with
   | Rejected error => onError error
   | Responded status responseText =>
       if (status =? 429)%Z then mkResult JNull true
       else if negb (status =? 200)%Z then mkResult JNull false
       else match responseText with
            | inl error => onError error
            | inr responseData =>
                match searchBody title normalizeTitleJS responseData with
                | inr result => result
                | inl error => onError error
                end
            end
   end, log ++ [Sent (GET (searchUrl title fields))]).
Proof. reflexivity. Qed.

Lemma collapse_shape s : forall b,
  noSpaceRun (collapseSpaces b s) = true /\
  (b = true -> headIsSpace (collapseSpaces b s) = false).
Proof.
  induction s as [| c r IH]; intros b; [now split |].
  cbn [collapseSpaces]. destruct (isSpace c) eqn:Hs.
  - destruct (IH true) as [Hrun Hhead]. destruct b.
    + split; [exact Hrun | intros _; now apply Hhead].
    + split; [| discriminate]. cbn [noSpaceRun]. rewrite Hrun, Hhead by reflexivity.
      now rewrite andb_false_r.
  - destruct (IH false) as [Hrun _]. split.
    + cbn [noSpaceRun]. now rewrite Hs, Hrun.
    + intros _. cbn [headIsSpace]. exact Hs.
Qed.

Lemma noSpaceRun_tail c r : noSpaceRun (String c r) = true -> noSpaceRun r = true.
Proof. cbn [noSpaceRun]. intros H. now apply andb_prop in H. Qed.

Lemma trimStart_shape s :
  noSpaceRun s = true ->
  noSpaceRun (trimStart s) = true /\ headIsSpace (trimStart s) = false.
Proof.
  induction s as [| c r IH]; intros H; [now split |].
  cbn [trimStart]. destruct (isSpace c) eqn:Hs.
  - apply IH. now apply noSpaceRun_tail in H.
  - split; [exact H | exact Hs].
Qed.

Lemma trimEnd_empty s : trimEnd s = EmptyString -> allSpaces s = true.
Proof.
  destruct s as [| c r]; [reflexivity |].
  cbn [trimEnd]. now destruct (allSpaces (String c r)).
Qed.

Lemma trimEnd_head s : headIsSpace (trimEnd s) = true -> headIsSpace s = true.
Proof.
  destruct s as [| c r]; [easy |].
  cbn [trimEnd]. now destruct (allSpaces (String c r)).
Qed.

Lemma trimEnd_shape s :
  noSpaceRun s = true ->
  noSpaceRun (trimEnd s) = true /\ lastIsSpace (trimEnd s) = false.
Proof.
  induction s as [| c r IH]; intros H; [now split |].
  cbn [trimEnd]. destruct (allSpaces (String c r)) eqn:Ha; [now split |].
  pose proof H as Hr. apply noSpaceRun_tail in Hr. destruct (IH Hr) as [Hrun Hlast].
  cbn [noSpaceRun] in H. apply andb_prop in H as [Hc _].
  split.
  - cbn [noSpaceRun]. rewrite Hrun, andb_true_r.
    destruct (isSpace c) eqn:Hs; [| reflexivity]. cbn [andb] in *.
    destruct (headIsSpace (trimEnd r)) eqn:Hh; [| reflexivity].
    apply trimEnd_head in Hh. now rewrite Hh in Hc.
  - cbn [lastIsSpace]. destruct (trimEnd r) eqn:Ht; [| exact Hlast].
    apply trimEnd_empty in Ht. cbn [allSpaces] in Ha. rewrite Ht, andb_true_r in Ha. exact Ha.
Qed.

Lemma normalizeTitle_tidy title : tidy (normalizeTitle title) = true.
Proof.
  unfold normalizeTitle, trim, tidy.
  set (s := filterChars _ _).
  destruct (collapse_shape s false) as [H1 _].
  destruct (trimStart_shape _ H1) as [H2 H3].
  destruct (trimEnd_shape _ H2) as [H4 H5].
  rewrite H4, H5. destruct (headIsSpace (trimEnd (trimStart (collapseSpaces false s)))) eqn:Hh;
    [| reflexivity].
  apply trimEnd_head in Hh. congruence.
Qed.

(** C5, as the code has it: a 200 search response whose candidates all
    have a string title yields the first candidate whose title is not
    empty and normalizes to exactly the normalized query title, and
    NotFound when there is none; there is no other comparison.  The
    request asks for at most 5 candidates.  Normalization lower-cases,
    strips every character that is not a letter, digit or underscore of
    ASCII or whitespace, collapses whitespace runs to one space and
    trims: a normalized title holds only lower-case letters, digits,
    underscores and single inner spaces, and the two titles of the
    example normalize to the same string. *)
Theorem C5_title_search_exact_match :
  forall (server : Server) (title fields : string) (log : list Event)
         (responseData : JSON) (candidates : list JSON),
    server log (GET (searchUrl title fields)) = Responded 200 (inr responseData) ->
    getProp responseData "data" = inr (JArr candidates) ->
    Forall (fun c => titleOf c <> None) candidates ->
    fetchByTitle server title fields normalizeTitleJS log =
      (firstExactMatch normalizeTitle title candidates,
       log ++ [Sent (GET (searchUrl title fields))]) /\
    (exists q, searchUrl title fields = q +:+ "&limit=5") /\
    (forall t, normalizeTitle t =
               trim (collapseSpaces false
                       (filterChars (fun c => isWord c || isSpace c) (toLowerCase t))) /\
               allChars isNormalChar (normalizeTitle t) = true /\
               tidy (normalizeTitle t) = true) /\
    normalizeTitle "Deep Learning, 2016!" = normalizeTitle "deep learning 2016".
Proof.
  intros server title fields log responseData candidates Hresp Hdata Hwell.
  split; [| split; [| split]].
  - rewrite fetchByTitle_run, Hresp. cbn [Z.eqb Pos.eqb negb].
    rewrite (searchBody_candidates _ _ _ Hdata), (matchLoop_wellTitled _ _ Hwell).
    reflexivity.
  - unfold searchUrl.
    exists (BASE_URL +:+ "/paper/search?query=" +:+ encodeURIComponent title +:+
            "&fields=" +:+ fields +:+ ",title").
    rewrite !append_assoc. reflexivity.
  - intros t. split; [reflexivity |]. split.
    + apply normalizeTitle_chars.
    + apply normalizeTitle_tidy.
  - vm_compute. reflexivity.
Qed.

Lemma C5_title_search_exact_match_witness :
  let candidates := [paperTitled "p1" "Shallow Learning"; paperTitled "p2" "deep learning 2016"] in
  let server := always_search candidates in
  fetchByTitle server "Deep Learning, 2016!" "paperId" normalizeTitleJS [] =
  (mkResult (paperTitled "p2" "deep learning 2016") false,
   [Sent (GET (searchUrl "Deep Learning, 2016!" "paperId"))]).
Proof.
  intros candidates server.
  apply (C5_title_search_exact_match server "Deep Learning, 2016!" "paperId" []
           (JObj [("total", JNum 2); ("data", JArr candidates)]) candidates).
  - reflexivity.
  - reflexivity.
  - repeat constructor; discriminate.
Defined.

(** C5, as stated, fails: with the normalization of the specification
    the title [a_b] would match the candidate [ab]; the code keeps the
    underscore and finds nothing. *)
Lemma C5_counterexample :
  ~ (forall (server : Server) (title fields : string) (log : list Event)
            (candidates : list JSON),
       server log (GET (searchUrl title fields)) = searchResponse candidates ->
       Forall (fun c => titleOf c <> None) candidates ->
       fst (fetchByTitle server title fields normalizeTitleJS log) =
       firstExactMatch normalizeTitle_stated title candidates).
Proof.
  intros H.
  specialize (H (always_search [paperTitled "p1" "ab"]) "a_b" "paperId" []
                [paperTitled "p1" "ab"] eq_refl).
  assert (Hw : Forall (fun c => titleOf c <> None) [paperTitled "p1" "ab"])
    by (repeat constructor; discriminate).
  specialize (H Hw). vm_compute in H. discriminate H.
Qed.

(** The loop that meets an exact match before any candidate without a
    string title. *)
Lemma matchLoop_match title pre hit post :
  Forall (fun c => titleOf c <> None /\ exactMatch normalizeTitle title c = false) pre ->
  exactMatch normalizeTitle title hit = true ->
  matchLoop normalizeTitleJS (normalizeTitle title) (pre ++ hit :: post) =
  inr (mkResult hit false).
Proof.
  intros Hpre Hhit. induction Hpre as [| c cs [Ht Hm] _ IH].
  - cbn [app matchLoop]. unfold exactMatch, titleOf in Hhit.
    destruct (getProp hit "title") as [e | [| | | | s | |]]; try discriminate Hhit.
    cbn [normalizeTitleJS truthy]. now rewrite Hhit.
  - cbn [app matchLoop]. unfold exactMatch, titleOf in Hm, Ht.
    destruct (getProp c "title") as [e | [| | | | s | |]]; try congruence.
    cbn [normalizeTitleJS truthy]. rewrite Hm. exact IH.
Qed.

(** C10, as the code has it.  In a 200 search response, what decides is
    which comes first in the list of candidates.  When a candidate whose
    title is null or missing comes with no exact match before it,
    normalizing it throws inside the search, the error is caught there
    (its message does not name 429), and the result is
    [{ data: null, rateLimited: false }], whatever follows.  When an
    exact match comes with only candidates before it that have a string
    title and do not match, the search returns it, whatever follows:
    a candidate without a title after it is never looked at. *)
Theorem C10_untitled_candidate_not_found :
  forall (server : Server) (title fields : string) (log : list Event)
         (responseData : JSON) (pre post : list JSON) (c : JSON),
    server log (GET (searchUrl title fields)) = Responded 200 (inr responseData) ->
    getProp responseData "data" = inr (JArr (pre ++ c :: post)) ->
    (titleAbsent c = true ->
     Forall (fun c0 => exactMatch normalizeTitle title c0 = false) pre ->
     fetchByTitle server title fields normalizeTitleJS log =
       (mkResult JNull false, log ++ [Sent (GET (searchUrl title fields))]) /\
     exists e, searchBody title normalizeTitleJS responseData = inl e /\
               mentions429 e = false) /\
    (exactMatch normalizeTitle title c = true ->
     Forall (fun c0 => titleOf c0 <> None /\ exactMatch normalizeTitle title c0 = false) pre ->
     fetchByTitle server title fields normalizeTitleJS log =
       (mkResult c false, log ++ [Sent (GET (searchUrl title fields))]) /\
     outcome (fst (fetchByTitle server title fields normalizeTitleJS log)) = Found c).
Proof.
  intros server title fields log responseData pre post c Hresp Hdata. split.
  - intros Hbad Hpre.
    destruct (matchLoop_titleAbsent title pre c post Hpre Hbad) as [e [He H429]].
    split.
    + rewrite fetchByTitle_run, Hresp. cbn [Z.eqb Pos.eqb negb].
      rewrite (searchBody_candidates _ _ _ Hdata), He.
      unfold onError. rewrite H429. reflexivity.
    + exists e. rewrite (searchBody_candidates _ _ _ Hdata). now split.
  - intros Hhit Hpre.
    assert (Hrun : fetchByTitle server title fields normalizeTitleJS log =
                   (mkResult c false, log ++ [Sent (GET (searchUrl title fields))])).
    { rewrite fetchByTitle_run, Hresp. cbn [Z.eqb Pos.eqb negb].
      now rewrite (searchBody_candidates _ _ _ Hdata), (matchLoop_match _ _ _ _ Hpre Hhit). }
    split; [exact Hrun |]. rewrite Hrun. cbn [fst]. unfold outcome. cbn [rateLimited data].
    unfold exactMatch, titleOf in Hhit. destruct c; try discriminate Hhit; reflexivity.
Qed.

Lemma C10_untitled_candidate_not_found_witness :
  let lost := [paperTitled "p1" "Shallow Learning"; paperUntitled "p2";
               paperTitled "p3" "Deep Learning"] in
  let found := [paperTitled "p1" "Shallow Learning"; paperTitled "p3" "Deep Learning";
                paperUntitled "p2"] in
  fetchByTitle (always_search lost) "Deep Learning" "paperId" normalizeTitleJS [] =
    (mkResult JNull false, [Sent (GET (searchUrl "Deep Learning" "paperId"))]) /\
  fetchByTitle (always_search found) "Deep Learning" "paperId" normalizeTitleJS [] =
    (mkResult (paperTitled "p3" "Deep Learning") false,
     [Sent (GET (searchUrl "Deep Learning" "paperId"))]).
Proof.
  intros lost found. split.
  - apply (proj1 (C10_untitled_candidate_not_found (always_search lost) "Deep Learning"
                    "paperId" [] (JObj [("total", JNum 3); ("data", JArr lost)])
                    [paperTitled "p1" "Shallow Learning"] [paperTitled "p3" "Deep Learning"]
                    (paperUntitled "p2") eq_refl eq_refl)).
    + reflexivity.
    + repeat constructor.
  - apply (proj2 (C10_untitled_candidate_not_found (always_search found) "Deep Learning"
                    "paperId" [] (JObj [("total", JNum 3); ("data", JArr found)])
                    [paperTitled "p1" "Shallow Learning"] [paperUntitled "p2"]
                    (paperTitled "p3" "Deep Learning") eq_refl eq_refl)).
    + reflexivity.
    + repeat constructor; discriminate.
Defined.

(** C10, as stated, fails: a candidate without a title that comes after
    an exact match is never looked at, and the search returns the match. *)
Lemma C10_counterexample :
  ~ (forall (server : Server) (title fields : string) (log : list Event)
            (candidates : list JSON),
       server log (GET (searchUrl title fields)) = searchResponse candidates ->
       existsb titleAbsent candidates = true ->
       fst (fetchByTitle server title fields normalizeTitleJS log) = mkResult JNull false).
Proof.
  intros H.
  specialize (H (always_search [paperTitled "p1" "Deep Learning"; paperUntitled "p2"])
                "Deep Learning" "paperId" []
                [paperTitled "p1" "Deep Learning"; paperUntitled "p2"] eq_refl eq_refl).
  vm_compute in H. discriminate H.
Qed.

End TitleFacts.

(** * Fetching one record *)

Module FetchFacts.
Import SemanticScholarAPI SemanticScholar Lookup.

Section WithServer.
Variable server : Server.
Variable p : Prefs.

Lemma tryIdentifier_firstDecisive {A : Type} (ident : option A)
    (lookup : A -> M FetchResult) (mk : A -> Identifier) (fields : string)
    (rest rest' : M FetchResult) :
  (forall x log, lookup x log = lookupByIdentifier server (mk x) fields log) ->
  (forall log, rest log = rest' log) ->
  forall log,
    tryIdentifier ident lookup rest log =
    firstDecisive server fields (match ident with Some x => [mk x] | None => [] end) rest' log.
Proof.
  intros Hl Hr log. destruct ident as [x |]; simpl; [| apply Hr].
  unfold bind. rewrite Hl.
  destruct (lookupByIdentifier server (mk x) fields log) as [result log1].
  unfold outcome. destruct (rateLimited result); [reflexivity |].
  destruct (truthy (data result)); [reflexivity | apply Hr].
Qed.

Lemma firstDecisive_app fields cs1 cs2 last : forall log,
  firstDecisive server fields (cs1 ++ cs2) last log =
  firstDecisive server fields cs1 (firstDecisive server fields cs2 last) log.
Proof.
  induction cs1 as [| c cs1 IH]; intros log; simpl; [reflexivity |].
  unfold bind. destruct (lookupByIdentifier server c fields log) as [result log1].
  destruct (outcome result); [reflexivity | apply IH | reflexivity].
Qed.

Lemma firstDecisive_nil fields last log :
  firstDecisive server fields [] last log = last log.
Proof. reflexivity. Qed.

Lemma getDOI_candidates it :
  match ItemUtils.getDOI it with Some x => [DOI x] | None => [] end =
  match getField it "DOI" with EmptyString => [] | doi => [DOI doi] end.
Proof. unfold ItemUtils.getDOI. now destruct (getField it "DOI"). Qed.

Lemma getArxivId_candidates it :
  match ItemUtils.getArxivId it with Some x => [ArXiv x] | None => [] end =
  match ItemUtils.firstMatch ItemUtils.arxivExtraAt (getField it "extra") with
  | Some a => [ArXiv a]
  | None =>
      match ItemUtils.firstMatch ItemUtils.arxivUrlAt (getField it "url") with
      | Some a => [ArXiv a]
      | None => []
      end
  end.
Proof.
  unfold ItemUtils.getArxivId.
  now destruct (ItemUtils.firstMatch ItemUtils.arxivExtraAt (getField it "extra")).
Qed.

Lemma present_candidates v :
  match present v with Some x => [ScholarId x] | None => [] end =
  if truthy v then [ScholarId v] else [].
Proof. unfold present. now destruct (truthy v). Qed.

Lemma fetchDataForItem_refines it log :
  isRegularItem it = true ->
  fetchDataForItem server p it log = fetchForRecord server p it log.
Proof.
  intros Hreg. unfold fetchDataForItem, fetchForRecord, candidates.
  rewrite Hreg; simpl negb; cbv iota.
  set (fields := buildFieldsParam (shouldFetchField p)).
  rewrite <- getDOI_candidates, <- getArxivId_candidates, <- present_candidates.
  rewrite firstDecisive_app.
  apply tryIdentifier_firstDecisive with (mk := DOI); [reflexivity |].
  intros log1. rewrite firstDecisive_app.
  apply tryIdentifier_firstDecisive with (mk := ArXiv); [reflexivity |].
  intros log2. rewrite firstDecisive_app.
  apply (tryIdentifier_firstDecisive (ItemUtils.getPMID it) _ PMID); [reflexivity |].
  intros log3.
  apply tryIdentifier_firstDecisive with (mk := ScholarId); [reflexivity |].
  intros log4. unfold titleFallback, getSearchMode.
  destruct (String.eqb (searchMode p) "title"); [| reflexivity].
  destruct (negb (String.eqb (getField it "title") "")); reflexivity.
Qed.

Lemma firstDecisive_sends fields last lastRequests :
  (forall log, exists j, snd (last log) = log ++ map Sent (firstn j lastRequests)) ->
  forall cs log, exists k,
    snd (firstDecisive server fields cs last log) =
    log ++ map Sent (firstn k (map (fun c => GET (lookupUrl c fields)) cs ++ lastRequests)).
Proof.
  intros Hlast cs. induction cs as [| c cs IH]; intros log.
  - simpl. apply Hlast.
  - simpl. unfold bind. rewrite ClientFacts.lookup_is_makeRequest, ClientFacts.makeRequest_run; cbn [fst snd].
    destruct (outcome _).
    + exists 1%nat. reflexivity.
    + destruct (IH (log ++ [Sent (GET (lookupUrl c fields))])) as [k Hk].
      exists (S k). rewrite Hk. rewrite <- app_assoc. reflexivity.
    + exists 1%nat. reflexivity.
Qed.

Lemma titleFallback_sends it fields log :
  exists j,
    snd (titleFallback server p it fields log) =
    log ++ map Sent
      (firstn j (if String.eqb (searchMode p) "title" &&
                    negb (String.eqb (getField it "title") "")
                 then [GET (searchUrl (getField it "title") fields)] else [])).
Proof.
  unfold titleFallback.
  destruct (String.eqb (searchMode p) "title" && negb (String.eqb (getField it "title") "")).
  - exists 1%nat. reflexivity.
  - exists 0%nat. simpl. now rewrite app_nil_r.
Qed.

End WithServer.

(** C3: for a regular item, fetchDataForItem is the short-circuiting
    fold over the identifier candidates in the order DOI, arXiv id (from
    the extra field, else from the URL), PMID, stored catalog id: it
    returns the first lookup result that is found or rate limited and
    sends nothing after it; the title search comes last, only in
    title-search mode and only after every identifier present was not
    found, and without it the result is not found.  The requests sent
    are an initial part of the planned ones, in their order. *)
Theorem C3_fetch_priority_order :
  forall (server : Server) (p : Prefs) (it : Item) (log : list Event),
    isRegularItem it = true ->
    fetchDataForItem server p it log = fetchForRecord server p it log /\
    exists k : nat,
      snd (fetchDataForItem server p it log) =
      log ++ map Sent (firstn k (plannedRequests p it)).
Proof.
  intros server p it log Hreg. split.
  - now apply fetchDataForItem_refines.
  - rewrite fetchDataForItem_refines by exact Hreg.
    unfold fetchForRecord, plannedRequests.
    apply firstDecisive_sends. intros log'. apply titleFallback_sends.
Qed.

Lemma C3_fetch_priority_order_witness :
  let server := always (Responded 404 (inl (mkExn "not json"))) in
  isRegularItem sampleRecord = true /\
  fetchDataForItem server (titlePrefs "title") sampleRecord [] =
  fetchForRecord server (titlePrefs "title") sampleRecord [].
Proof.
  intros server. split; [reflexivity |].
  apply (C3_fetch_priority_order server (titlePrefs "title") sampleRecord []).
  reflexivity.
Defined.

(** The sample record against a catalog that knows nothing: DOI, then
    arXiv id, then the title search. *)
Example fetch_sampleRecord_trace :
  fetchDataForItem (always (Responded 404 (inl (mkExn "not json"))))
                   (titlePrefs "title") sampleRecord [] =
  (mkResult JNull false,
   [ Sent (GET "https://api.semanticscholar.org/graph/v1/paper/DOI:10.1016%2FJ.JMVA.2021.104879?fields=paperId,citationCount,influentialCitationCount");
     Sent (GET "https://api.semanticscholar.org/graph/v1/paper/ARXIV:2106.00170?fields=paperId,citationCount,influentialCitationCount");
     Sent (GET "https://api.semanticscholar.org/graph/v1/paper/search?query=Adaptive%20Conformal%20Inference&fields=paperId,citationCount,influentialCitationCount,title&limit=5") ]).
Proof. vm_compute. reflexivity. Qed.

(** A rate limit on the DOI lookup ends the fetch at once. *)
Example fetch_sampleRecord_rate_limited :
  fetchDataForItem (always (Responded 429 (inl (mkExn "")))) (titlePrefs "title") sampleRecord [] =
  (mkResult JNull true,
   [ Sent (GET "https://api.semanticscholar.org/graph/v1/paper/DOI:10.1016%2FJ.JMVA.2021.104879?fields=paperId,citationCount,influentialCitationCount") ]).
Proof. vm_compute. reflexivity. Qed.

End FetchFacts.

(** * Merging a result into an item *)

Module MergeFacts.
Import ItemUtils Merge.

Lemma getField_setField it n v m :
  getField (setField it n v) m = if decide (n = m) then v else getField it m.
Proof.
  unfold getField, setField; simpl. rewrite lookup_insert.
  destruct (decide (n = m)); reflexivity.
Qed.

Lemma getField_writeField ow n v it m :
  getField (writeField ow n v it) m =
  if decide (n = m)
  then (if ow || String.eqb (getField it n) "" then jsString v else getField it m)
  else getField it m.
Proof.
  unfold writeField. destruct (ow || String.eqb (getField it n) "").
  - apply getField_setField.
  - now destruct (decide (n = m)).
Qed.

Lemma itemType_writeField ow n v it : itemType (writeField ow n v it) = itemType it.
Proof. unfold writeField. now destruct (ow || String.eqb (getField it n) ""). Qed.

Lemma getField_setStoredData it d m : getField (_setStoredData it d) m = getField it m.
Proof. unfold _setStoredData. now destruct (negb (isRegularItem it)). Qed.

Lemma itemType_setStoredData it d : itemType (_setStoredData it d) = itemType it.
Proof. unfold _setStoredData. now destruct (negb (isRegularItem it)). Qed.

Section Blocks.
Variable data : JSON.
Variable should : string -> bool.
Variable ow : bool.

Abbreviation block := (block data should ow).
Abbreviation applyBlocks := (applyBlocks data should ow).

Lemma optProp_truthy v k : truthy (optProp v k) = true -> prop v k = optProp v k.
Proof. destruct v; simpl; intros H; try reflexivity; discriminate H. Qed.

Lemma block_write f it :
  block f it =
  if should (flagOf f) && truthy (catalogValue data f)
  then writeField ow (targetOf it f) (catalogValue data f) it
  else it.
Proof.
  destruct f; simpl; unfold applyDOI, applyAbstract, applyPublicationDate, applyVenue,
    applyOpenAccessPdf; try reflexivity.
  - destruct (should "DOI"); [| reflexivity]. simpl.
    destruct (truthy (optProp (prop data "externalIds") "DOI")) eqn:H; [| reflexivity].
    now rewrite (optProp_truthy _ _ H).
  - destruct (should "venue"); reflexivity.
  - destruct (should "openAccessPdf"); [| reflexivity]. simpl.
    destruct (truthy (optProp (prop data "openAccessPdf") "url")) eqn:H; [| reflexivity].
    now rewrite (optProp_truthy _ _ H).
Qed.

Lemma itemType_block f it : itemType (block f it) = itemType it.
Proof.
  rewrite block_write. destruct (should (flagOf f) && truthy (catalogValue data f));
    [apply itemType_writeField | reflexivity].
Qed.

Lemma getField_block f it m :
  getField (block f it) m =
  if decide (targetOf it f = m)
  then (if should (flagOf f) && truthy (catalogValue data f) &&
           (ow || String.eqb (getField it m) "")
        then jsString (catalogValue data f) else getField it m)
  else getField it m.
Proof.
  rewrite block_write.
  destruct (should (flagOf f) && truthy (catalogValue data f)) eqn:Hc.
  - rewrite getField_writeField. destruct (decide (targetOf it f = m)) as [-> |]; reflexivity.
  - now destruct (decide (targetOf it f = m)).
Qed.

Lemma applyBlocks_cons g fs it : applyBlocks (g :: fs) it = applyBlocks fs (block g it).
Proof. reflexivity. Qed.

Lemma itemType_applyBlocks fs : forall it, itemType (applyBlocks fs it) = itemType it.
Proof.
  induction fs as [| g fs IH]; intros it; [reflexivity |].
  rewrite applyBlocks_cons, IH. apply itemType_block.
Qed.

Lemma targetOf_itemType it it' f : itemType it' = itemType it -> targetOf it' f = targetOf it f.
Proof. intros H. destruct f; simpl; now rewrite ?H. Qed.

Lemma targetOf_inj it f g : targetOf it f = targetOf it g -> f = g.
Proof.
  destruct f, g; simpl; unfold venueFieldOf; try reflexivity;
    repeat match goal with |- context [if ?b then _ else _] => destruct b end;
    intros H; discriminate H.
Qed.

(** Without overwriting, a field that has a value keeps it. *)
Lemma applyBlocks_keeps fs : forall it m,
  ow = false -> getField it m <> "" -> getField (applyBlocks fs it) m = getField it m.
Proof.
  induction fs as [| g fs IH]; intros it m How Hm; [reflexivity |].
  assert (Hstep : getField (block g it) m = getField it m).
  { rewrite getField_block. destruct (decide (targetOf it g = m)); [| reflexivity].
    rewrite How. apply String.eqb_neq in Hm. rewrite Hm.
    now rewrite andb_false_r. }
  rewrite applyBlocks_cons, IH; [exact Hstep | exact How |].
  now rewrite Hstep.
Qed.

Lemma truthy_text v :
  textOrAbsent v = true -> truthy v = true -> exists s, v = JStr s /\ s <> "".
Proof.
  destruct v; simpl; try discriminate. intros _ H. exists s. split; [reflexivity |].
  apply String.eqb_neq. now destruct (String.eqb s "").
Qed.

(** Whatever the policy, a field that has a value is not left empty. *)
Lemma applyBlocks_never_clears fs : forall it m,
  wellTyped data -> getField it m <> "" -> getField (applyBlocks fs it) m <> "".
Proof.
  induction fs as [| g fs IH]; intros it m Hty Hm; [exact Hm |].
  rewrite applyBlocks_cons. apply IH; [exact Hty |].
  rewrite getField_block. destruct (decide (targetOf it g = m)); [| exact Hm].
  destruct (should (flagOf g) && truthy (catalogValue data g) &&
            (ow || String.eqb (getField it m) "")) eqn:Hc; [| exact Hm].
  apply andb_prop in Hc as [Hc _]. apply andb_prop in Hc as [_ Ht].
  destruct (truthy_text _ (Hty g) Ht) as [v [-> Hv]]. exact Hv.
Qed.

(** Blocks of other fields leave a field alone. *)
Lemma applyBlocks_other fs : forall it m,
  (forall g, In g fs -> targetOf it g <> m) ->
  getField (applyBlocks fs it) m = getField it m.
Proof.
  induction fs as [| g fs IH]; intros it m Hne; [reflexivity |].
  rewrite applyBlocks_cons, IH.
  - rewrite getField_block. destruct (decide (targetOf it g = m)) as [E |]; [| reflexivity].
    exfalso. apply (Hne g); [now left | exact E].
  - intros h Hh. rewrite (targetOf_itemType it _ h (itemType_block g it)).
    apply Hne. now right.
Qed.

(** With overwriting, the block of a field writes the catalog value. *)
Lemma applyBlocks_overwrites fs : forall it f,
  NoDup fs -> In f fs -> ow = true -> should (flagOf f) = true ->
  truthy (catalogValue data f) = true ->
  getField (applyBlocks fs it) (targetOf it f) = jsString (catalogValue data f).
Proof.
  induction fs as [| g fs IH]; intros it f Hnd Hin How Hflag Ht; [destruct Hin |].
  apply NoDup_cons in Hnd as [Hg Hnd]. rewrite list_elem_of_In in Hg.
  rewrite applyBlocks_cons. destruct Hin as [-> | Hin].
  - rewrite applyBlocks_other.
    + rewrite getField_block. destruct (decide (targetOf it f = targetOf it f)); [| congruence].
      now rewrite Hflag, Ht, How.
    + intros h Hh E. rewrite (targetOf_itemType it _ h (itemType_block f it)) in E.
      apply targetOf_inj in E. subst h. exact (Hg Hh).
  - rewrite <- (targetOf_itemType it _ f (itemType_block g it)).
    now apply IH.
Qed.

End Blocks.

Lemma applyDataToItem_blocks today it data should ow :
  isRegularItem it = true -> truthy data = true ->
  applyDataToItem today it data should ow =
  applyBlocks data should ow exportedFields
              (_setStoredData it (buildStoredData today data should)).
Proof. intros Hr Hd. unfold applyDataToItem. rewrite Hr, Hd. reflexivity. Qed.

Lemma NoDup_exportedFields : NoDup exportedFields.
Proof.
  unfold exportedFields.
  repeat (apply NoDup_cons; split; [rewrite list_elem_of_In; simpl; intuition discriminate |]).
  apply NoDup_nil_2.
Qed.

Lemma In_exportedFields f : In f exportedFields.
Proof. destruct f; simpl; auto 10. Qed.

(** C8: for an exported field whose fetch flag is on, applyDataToItem
    on a regular item and a catalog result leaves a value that is there
    as it is when overwriting is off, whatever the catalog holds; writes
    the catalog value, when the catalog holds one, when overwriting is
    on; and never leaves a field that had a value empty. *)
Theorem C8_overwrite_policy :
  forall (today : string) (it : Item) (data : JSON) (should : string -> bool)
         (overwriteExisting : bool) (f : ExportedField),
    isRegularItem it = true ->
    truthy data = true ->
    wellTyped data ->
    should (flagOf f) = true ->
    let it' := applyDataToItem today it data should overwriteExisting in
    let field := targetOf it f in
    (overwriteExisting = false -> getField it field <> "" ->
     getField it' field = getField it field) /\
    (overwriteExisting = true ->
     forall v, catalogValue data f = JStr v -> v <> "" -> getField it' field = v) /\
    (forall name, getField it name <> "" -> getField it' name <> "").
Proof.
  intros today it data should ow f Hr Hd Hty Hflag it' field. subst it' field.
  rewrite (applyDataToItem_blocks _ _ _ _ _ Hr Hd).
  set (it0 := _setStoredData it (buildStoredData today data should)).
  assert (Hf : forall m, getField it0 m = getField it m)
    by (intros m; apply getField_setStoredData).
  assert (Ht : targetOf it0 f = targetOf it f)
    by (apply targetOf_itemType, itemType_setStoredData).
  split; [| split].
  - intros How Hold. rewrite <- Hf. apply applyBlocks_keeps; [exact How | now rewrite Hf].
  - intros How v Hv Hne. rewrite <- Ht.
    rewrite applyBlocks_overwrites;
      [ now rewrite Hv | apply NoDup_exportedFields | apply In_exportedFields
      | exact How | exact Hflag | ].
    rewrite Hv. simpl. apply String.eqb_neq in Hne. now rewrite Hne.
  - intros name Hold. apply applyBlocks_never_clears; [exact Hty | now rewrite Hf].
Qed.

Lemma wellTyped_sampleResult : wellTyped sampleResult.
Proof. intros f. destruct f; reflexivity. Qed.

Lemma C8_overwrite_policy_witness :
  getField (applyDataToItem "1/1/2026" sampleArticle sampleResult allFlags false) "DOI"
    = "10.1000/old" /\
  getField (applyDataToItem "1/1/2026" sampleArticle sampleResult allFlags true) "DOI"
    = "10.1000/new".
Proof.
  split.
  - apply (proj1 (C8_overwrite_policy "1/1/2026" sampleArticle sampleResult allFlags false
                    FieldDOI eq_refl eq_refl wellTyped_sampleResult eq_refl));
      [reflexivity | discriminate].
  - apply (proj1 (proj2 (C8_overwrite_policy "1/1/2026" sampleArticle sampleResult allFlags true
                           FieldDOI eq_refl eq_refl wellTyped_sampleResult eq_refl)));
      [reflexivity | reflexivity | discriminate].
Defined.

End MergeFacts.

(** * Batch lookup *)

Module BatchFacts.
Import SemanticScholarAPI SemanticScholar Batch.

Lemma skipn_skipn {A : Type} (n m : nat) (l : list A) :
  skipn n (skipn m l) = skipn (m + n) l.
Proof.
  revert l. induction m as [| m IH]; intros l; [reflexivity |].
  destruct l as [| x l]; [now rewrite !skipn_nil | apply IH].
Qed.

Lemma slice_chunk (i : nat) (ids : list JSON) :
  slice i (i + batchSize) ids = firstn batchSize (skipn i ids).
Proof. unfold slice. now replace (i + batchSize - i)%nat with batchSize by lia. Qed.

Lemma ltb_skipn_nonempty (i : nat) (ids : list JSON) :
  (i <? List.length ids)%nat = match skipn i ids with [] => false | _ => true end.
Proof.
  destruct (skipn i ids) as [| x r] eqn:E.
  - apply Nat.ltb_ge. apply (f_equal (@List.length JSON)) in E.
    rewrite length_skipn in E. simpl in E. lia.
  - apply Nat.ltb_lt. apply (f_equal (@List.length JSON)) in E.
    rewrite length_skipn in E. simpl in E. lia.
Qed.

Lemma batchSize_pos : (0 < batchSize)%nat.
Proof. unfold batchSize. lia. Qed.

Lemma chunksFrom_nonempty fuel (l : list JSON) :
  (List.length l <= fuel)%nat ->
  match chunksFrom fuel l with [] => l = [] | _ => l <> [] end.
Proof.
  intros H. destruct fuel as [| fuel], l as [| x l]; simpl in *; try reflexivity; try lia.
  discriminate.
Qed.

(** The loop, started at position [i] with enough fuel, is a run over
    the chunks of the ids from [i] on. *)
Lemma batchLoop_run server fields ids : forall fuel i results log,
  (List.length (skipn i ids) <= fuel)%nat ->
  exists b log',
    batchLoop server fuel ids fields i results log = (Some b, log') /\
    BatchRun server fields (chunksFrom fuel (skipn i ids)) log results b log'.
Proof.
  induction fuel as [| fuel IH]; intros i results log Hfuel.
  - destruct (skipn i ids) as [| x r] eqn:E; [| simpl in Hfuel; lia].
    exists (mkBatch results false), log. split; [| constructor].
    cbn [batchLoop]. now rewrite ltb_skipn_nonempty, E.
  - cbn [batchLoop]. rewrite ltb_skipn_nonempty.
    destruct (skipn i ids) as [| x r] eqn:E.
    + exists (mkBatch results false), log. split; [reflexivity | constructor].
    + cbn [chunksFrom]. rewrite <- E.
      assert (Hrest : skipn batchSize (skipn i ids) = skipn (i + batchSize) ids)
        by apply skipn_skipn.
      assert (Hlen : (List.length (skipn (i + batchSize) ids) <= fuel)%nat).
      { rewrite <- Hrest, length_skipn. rewrite E in *. simpl in *.
        pose proof batchSize_pos. lia. }
      unfold bind, HTTP_request. rewrite slice_chunk.
      set (chunk := firstn batchSize (skipn i ids)).
      destruct (chunkEffect (server log (POST (batchUrl fields) chunk))) as [| got] eqn:Heff.
      * exists (mkBatch results true), (log ++ [Sent (POST (batchUrl fields) chunk)]).
        split; [reflexivity | now constructor].
      * rewrite Hrest.
        pose proof (chunksFrom_nonempty fuel _ Hlen) as Hne.
        rewrite ltb_skipn_nonempty.
        destruct (IH (i + batchSize)%nat (results ++ got)
                     ((log ++ [Sent (POST (batchUrl fields) chunk)]) ++
                      match chunksFrom fuel (skipn (i + batchSize) ids) with
                      | [] => []
                      | _ => [Slept 200]
                      end) Hlen) as [b [log' [Hrun Hspec]]].
        exists b, log'. split.
        -- rewrite <- Hrun.
           destruct (chunksFrom fuel (skipn (i + batchSize) ids)) eqn:Hc.
           ++ rewrite Hne. unfold ret. now rewrite app_nil_r.
           ++ destruct (skipn (i + batchSize) ids); [congruence | reflexivity].
        -- eapply run_next; [exact Heff | exact Hspec].
Qed.

Lemma chunksFrom_concat fuel : forall l : list JSON,
  (List.length l <= fuel)%nat -> concat (chunksFrom fuel l) = l.
Proof.
  induction fuel as [| fuel IH]; intros l H.
  - destruct l; [reflexivity | simpl in H; lia].
  - destruct l as [| x l]; [reflexivity |].
    cbn [chunksFrom concat]. rewrite IH; [apply firstn_skipn |].
    rewrite length_skipn. simpl in *. pose proof batchSize_pos. lia.
Qed.

Lemma chunksFrom_sizes fuel : forall l : list JSON,
  Forall (fun c => (0 < List.length c <= batchSize)%nat) (chunksFrom fuel l).
Proof.
  induction fuel as [| fuel IH]; intros l; [constructor |].
  destruct l as [| x l]; [constructor |].
  cbn [chunksFrom]. constructor; [| apply IH].
  rewrite length_firstn. simpl List.length. pose proof batchSize_pos. lia.
Qed.

Lemma chunksFrom_cons fuel (l : list JSON) :
  l <> [] ->
  chunksFrom (S fuel) l = firstn batchSize l :: chunksFrom fuel (skipn batchSize l).
Proof. destruct l; [congruence | reflexivity]. Qed.

Lemma chunksFrom_nil fuel : chunksFrom fuel [] = [].
Proof. now destruct fuel. Qed.

Lemma chunks_600 (ids : list JSON) :
  List.length ids = 600%nat ->
  chunks ids = [firstn 500 ids; skipn 500 ids] /\
  List.length (firstn 500 ids) = 500%nat /\ List.length (skipn 500 ids) = 100%nat.
Proof.
  intros H.
  assert (H1 : List.length (skipn 500 ids) = 100%nat) by (rewrite length_skipn; lia).
  assert (H2 : skipn 500 (skipn 500 ids) = []).
  { apply length_zero_iff_nil. rewrite length_skipn. lia. }
  split; [| split; [rewrite length_firstn; lia | exact H1]].
  unfold chunks. rewrite H.
  change 600%nat with (S (S 598)).
  rewrite chunksFrom_cons by (intros ->; discriminate H).
  rewrite chunksFrom_cons by (unfold batchSize; intros E; rewrite E in H1; discriminate H1).
  unfold batchSize. rewrite H2, chunksFrom_nil.
  f_equal. f_equal. apply firstn_all2. lia.
Qed.

Lemma postsOf_app log1 log2 : postsOf (log1 ++ log2) = postsOf log1 ++ postsOf log2.
Proof.
  induction log1 as [| [[u | u ids] | ms] log1 IH]; simpl; [reflexivity | exact IH | | exact IH].
  now rewrite IH.
Qed.

(** What a run sends and keeps: an initial part of the chunks, all of
    them unless a rate limit ended it; and the results it started with. *)
Lemma BatchRun_posts server fields cs log results b log' :
  BatchRun server fields cs log results b log' ->
  (exists k, postsOf log' = postsOf log ++ firstn k cs /\
             (batchRateLimited b = false -> k = List.length cs)) /\
  (exists more, SemanticScholarAPI.results b = results ++ more).
Proof.
  induction 1 as [log results | chunk rest log results Heff
                 | chunk rest log results got b log' Heff Hrun [[k [Hk Hall]] [more Hmore]]].
  - split; [exists 0%nat | exists []]; simpl; rewrite ?app_nil_r; auto.
  - split; [exists 1%nat | exists []]; simpl; rewrite ?app_nil_r; [| reflexivity].
    split; [| discriminate]. rewrite postsOf_app. reflexivity.
  - split.
    + exists (S k). split; [| intros Hb; simpl; f_equal; now apply Hall].
      rewrite Hk, !postsOf_app. simpl postsOf at 2.
      destruct rest; simpl; rewrite <- ?app_assoc; reflexivity.
    + exists (got ++ more). now rewrite Hmore, app_assoc.
Qed.

Lemma batchFetch_runs server ids fields log :
  exists b log',
    batchFetch server ids fields log = (Some b, log') /\
    BatchRun server fields (chunks ids) log [] b log'.
Proof.
  destruct (batchLoop_run server fields ids (List.length ids) 0 [] log) as [b [log' H]];
    [exact (le_n _) |].
  destruct ids as [| x rest] eqn:E.
  - exists (mkBatch [] false), log. split; [reflexivity | constructor].
  - exists b, log'. exact H.
Qed.

Lemma BatchRun_two server fields c1 c2 log results b log' :
  BatchRun server fields [c1; c2] log results b log' ->
  chunkEffect (server log (POST (batchUrl fields) c1)) <> Abort ->
  postsOf log' = postsOf log ++ [c1; c2].
Proof.
  intros Hrun Hfirst.
  inversion Hrun as [| ? ? ? ? Heff | ? ? ? ? got ? ? Heff Hrest]; subst; [congruence |].
  inversion Hrest as [| ? ? ? ? Heff2 | ? ? ? ? got2 ? ? Heff2 Hlast]; subst.
  - rewrite !postsOf_app. simpl. now rewrite app_nil_r, <- app_assoc.
  - inversion Hlast; subst. rewrite !postsOf_app. simpl.
    now rewrite !app_nil_r, <- app_assoc.
Qed.

(** The effect of an answer on the loop is what the specification says
    of a chunk: stop when it is rate limited, else add its results. *)
Lemma chunkEffect_stated (r : HttpResult) :
  chunkEffect r = if chunkRateLimited r then Abort else Push (chunkResults r).
Proof.
  destruct r as [status [e | v] | e]; cbn [chunkEffect chunkRateLimited chunkResults].
  - destruct (status =? 429)%Z; [reflexivity |]. cbn [orb].
    destruct (status =? 200)%Z; [| reflexivity]. cbn [andb].
    destruct (mentions429 e); reflexivity.
  - destruct (status =? 429)%Z; [reflexivity |]. cbn [orb].
    destruct (status =? 200)%Z; [| destruct v; reflexivity].
    destruct v; reflexivity.
  - destruct (mentions429 e); reflexivity.
Qed.

Lemma BatchRun_stated server fields cs log results b log' :
  BatchRun server fields cs log results b log' ->
  batchLookup_stated server fields cs results log = (b, log').
Proof.
  induction 1 as [log results | chunk rest log results Heff
                 | chunk rest log results got b log' Heff Hrun IH];
    cbn [batchLookup_stated]; [reflexivity | |];
    unfold bind, HTTP_request; rewrite chunkEffect_stated in Heff.
  - destruct (chunkRateLimited _); [reflexivity | discriminate Heff].
  - destruct (chunkRateLimited _); [discriminate Heff |]. injection Heff as <-.
    rewrite <- IH. destruct rest; [| reflexivity].
    unfold ret. now rewrite app_nil_r.
Qed.

(** C9: batchFetch sends the ids in consecutive chunks of at most 500,
    one POST per chunk, with a 200 ms delay between a chunk and the
    next; a rate-limited chunk (status 429, or an error that names 429)
    ends the loop, nothing is sent after it, and the results gathered
    from the chunks before it are returned with the flag set: batchFetch
    does what the stated lookup does on the chunks.  For 600 ids the
    chunks are the first 500 and the last 100: when the first is
    answered with status 429 it is the only request and the result is
    empty and flagged; when the first is answered with an array and the
    second with status 429, both are sent and the result is that array,
    flagged; when both are answered with arrays the result is the two
    arrays in a row, not flagged. *)
Theorem C9_batch_chunking :
  forall (server : Server) (ids : list JSON) (fields : string) (log : list Event),
  exists (b : BatchResult) (log' : list Event),
    batchFetch server ids fields log = (Some b, log') /\
    BatchRun server fields (chunks ids) log [] b log' /\
    batchLookup_stated server fields (chunks ids) [] log = (b, log') /\
    concat (chunks ids) = ids /\
    Forall (fun c => (0 < List.length c <= 500)%nat) (chunks ids) /\
    (exists k, postsOf log' = postsOf log ++ firstn k (chunks ids) /\
               (batchRateLimited b = false -> k = List.length (chunks ids))) /\
    (List.length ids = 600%nat ->
     let first := POST (batchUrl fields) (firstn 500 ids) in
     let second := POST (batchUrl fields) (skipn 500 ids) in
     let log1 := log ++ [Sent first; Slept 200] in
     chunks ids = [firstn 500 ids; skipn 500 ids] /\
     List.length (firstn 500 ids) = 500%nat /\
     List.length (skipn 500 ids) = 100%nat /\
     (chunkEffect (server log first) <> Abort ->
      postsOf log' = postsOf log ++ [firstn 500 ids; skipn 500 ids]) /\
     (forall body,
         server log first = Responded 429 body ->
         b = mkBatch [] true /\ log' = log ++ [Sent first]) /\
     (forall got body,
         server log first = Responded 200 (inr (JArr got)) ->
         server log1 second = Responded 429 body ->
         b = mkBatch got true /\ log' = log1 ++ [Sent second]) /\
     (forall got1 got2,
         server log first = Responded 200 (inr (JArr got1)) ->
         server log1 second = Responded 200 (inr (JArr got2)) ->
         b = mkBatch (got1 ++ got2) false /\ log' = log1 ++ [Sent second])).
Proof.
  intros server ids fields log.
  destruct (batchFetch_runs server ids fields log) as [b [log' [Hfetch Hrun]]].
  exists b, log'.
  destruct (BatchRun_posts _ _ _ _ _ _ _ Hrun) as [[k [Hk Hall]] _].
  pose proof (BatchRun_stated _ _ _ _ _ _ _ Hrun) as Hstated.
  split; [exact Hfetch |]. split; [exact Hrun |]. split; [exact Hstated |].
  split; [apply chunksFrom_concat; lia |].
  split; [apply chunksFrom_sizes |].
  split; [exists k; split; assumption |].
  intros H600 first second log1. destruct (chunks_600 ids H600) as [Hc [H500 H100]].
  split; [exact Hc |]. split; [exact H500 |]. split; [exact H100 |].
  rewrite Hc in Hrun, Hstated.
  split; [intros Hfirst; exact (BatchRun_two _ _ _ _ _ _ _ _ Hrun Hfirst) |].
  cbn [batchLookup_stated] in Hstated. unfold bind, HTTP_request, Promise_delay, ret in Hstated.
  fold first in Hstated. 
  split; [| split].
  - intros body H1. rewrite H1 in Hstated. cbn in Hstated.
    injection Hstated as <- <-. now split.
  - intros got body H1 H2. rewrite H1 in Hstated. cbn [chunkRateLimited chunkResults
      Z.eqb Pos.eqb orb andb] in Hstated.
    rewrite <- app_assoc in Hstated. cbn [app] in Hstated.
    fold second log1 in Hstated. rewrite H2 in Hstated. cbn in Hstated.
    injection Hstated as <- <-. now split.
  - intros got1 got2 H1 H2. rewrite H1 in Hstated. cbn [chunkRateLimited chunkResults
      Z.eqb Pos.eqb orb andb] in Hstated.
    rewrite <- app_assoc in Hstated. cbn [app] in Hstated.
    fold second log1 in Hstated. rewrite H2 in Hstated.
    cbn [chunkRateLimited chunkResults Z.eqb Pos.eqb orb andb app] in Hstated.
    injection Hstated as <- <-. now split.
Qed.

Lemma length_ids600 : List.length (map scholarIdOf (seq 0 600)) = 600%nat.
Proof. vm_compute. reflexivity. Qed.

Lemma C9_batch_chunking_witness :
  let ids := map scholarIdOf (seq 0 600) in
  exists (b : BatchResult) (log' : list Event),
    batchFetch limitingCatalog ids "paperId" [] = (Some b, log') /\
    b = mkBatch (map paperOf (firstn 500 ids)) true /\
    map (@List.length JSON) (postsOf log') = [500; 100]%nat.
Proof.
  intros ids.
  destruct (C9_batch_chunking limitingCatalog ids "paperId" [])
    as [b [log' [Hfetch [_ [_ [_ [_ [_ H600]]]]]]]].
  exists b, log'. split; [exact Hfetch |].
  destruct (H600 length_ids600) as [_ [H500 [H100 [_ [_ [Hlimited _]]]]]].
  destruct (Hlimited (map paperOf (firstn 500 ids)) (inl (mkExn "Too Many Requests"))
              eq_refl eq_refl) as [-> ->].
  split; [reflexivity |].
  cbn [app postsOf map]. fold ids. now rewrite H500, H100.
Defined.

(** Six hundred ids against a catalog that answers every batch: two
    requests and one pause between them. *)
Example batchFetch_600_events :
  map (fun e => match e with
                | Sent (POST _ ids) => inl (List.length ids)
                | Sent (GET _) => inl 0%nat
                | Slept ms => inr ms
                end)
      (snd (batchFetch steadyCatalog (map scholarIdOf (seq 0 600)) "paperId" []))
  = [inl 500%nat; inr 200%Z; inl 100%nat].
Proof. vm_compute. reflexivity. Qed.

(** With a catalog that answers every batch, the results line up with
    the ids. *)
Lemma BatchRun_steady fields cs log results b log' :
  BatchRun steadyCatalog fields cs log results b log' ->
  b = mkBatch (results ++ map paperOf (concat cs)) false.
Proof.
  induction 1 as [log results | chunk rest log results Heff
                 | chunk rest log results got b log' Heff Hrun IH].
  - simpl. now rewrite app_nil_r.
  - discriminate Heff.
  - simpl in Heff. injection Heff as <-. rewrite IH. simpl concat.
    now rewrite map_app, app_assoc.
Qed.

Lemma batchFetch_steady_aligned ids fields log :
  fst (batchFetch steadyCatalog ids fields log) = Some (mkBatch (map paperOf ids) false).
Proof.
  destruct (batchFetch_runs steadyCatalog ids fields log) as [b [log' [Hf Hrun]]].
  rewrite Hf. simpl. f_equal. rewrite (BatchRun_steady _ _ _ _ _ _ Hrun). simpl.
  f_equal. f_equal. apply chunksFrom_concat. lia.
Qed.

(** C2: a chunk that fails without a rate limit pushes nothing, and the
    results of the chunks after it move up.  For 501 ids, a catalog
    whose first answer is a server error and whose second answer holds
    the paper of the last id: batchFetch returns that one paper at
    position 0, where the first id is, and batchFetchByScholarIds files
    it under the first record. *)
Theorem C2_failed_chunk_shifts_later_results :
  let ids := map scholarIdOf (seq 0 501) in
  let fields := buildFieldsParam (shouldFetchField defaultPrefs) in
  fst (batchFetch flakyCatalog ids fields []) =
    Some (mkBatch [paperOf (scholarIdOf 500)] false) /\
  nth 0 ids JUndefined = scholarIdOf 0 /\
  paperOf (scholarIdOf 500) <> paperOf (scholarIdOf 0) /\
  option_map (fun r => fst r !! item_id (storedItem 0))
             (fst (batchFetchByScholarIds flakyCatalog defaultPrefs (storedItems 501) []))
    = Some (Some (paperOf (scholarIdOf 500))).
Proof.
  intros ids fields. split; [| split; [| split]].
  - vm_compute. reflexivity.
  - reflexivity.
  - vm_compute. discriminate.
  - vm_compute. reflexivity.
Qed.

End BatchFacts.

(** * Title normalization and identifier extraction *)

Module ItemFacts.
Import ItemUtils TitleSearch Shapes.

Lemma lowerChar_idem c : lowerChar (lowerChar c) = lowerChar c.
Proof. destruct c as [[] [] [] [] [] [] [] []]; vm_compute; reflexivity. Qed.

Lemma toLowerCase_idem s : toLowerCase (toLowerCase s) = toLowerCase s.
Proof.
  induction s as [| c r IH]; [reflexivity |].
  cbn [toLowerCase]. now rewrite lowerChar_idem, IH.
Qed.

Lemma normalChar_fixed c :
  isNormalChar c = true ->
  lowerChar c = c /\ isWord c || isSpace c = true /\ (isSpace c = true -> c = " "%char).
Proof.
  destruct c as [[] [] [] [] [] [] [] []]; vm_compute; intros H;
    first [discriminate H | repeat split; intros; first [reflexivity | discriminate]].
Qed.

Lemma toLowerCase_normal s : allChars isNormalChar s = true -> toLowerCase s = s.
Proof.
  induction s as [| c r IH]; [reflexivity |].
  cbn [allChars toLowerCase]. intros H. apply andb_prop in H as [Hc Hr].
  destruct (normalChar_fixed c Hc) as [-> _]. now rewrite IH.
Qed.

Lemma filterChars_normal s :
  allChars isNormalChar s = true ->
  filterChars (fun c => isWord c || isSpace c) s = s.
Proof.
  induction s as [| c r IH]; [reflexivity |].
  cbn [allChars filterChars]. intros H. apply andb_prop in H as [Hc Hr].
  destruct (normalChar_fixed c Hc) as [_ [-> _]]. now rewrite IH.
Qed.

Lemma collapseSpaces_normal s : forall b,
  allChars isNormalChar s = true -> noSpaceRun s = true ->
  (b = true -> headIsSpace s = false) ->
  collapseSpaces b s = s.
Proof.
  induction s as [| c r IH]; intros b Hall Hrun Hb; [reflexivity |].
  cbn [allChars] in Hall. apply andb_prop in Hall as [Hc Hr].
  cbn [noSpaceRun] in Hrun. apply andb_prop in Hrun as [Hcr Hrun].
  cbn [collapseSpaces]. destruct (isSpace c) eqn:Hs.
  - destruct b; [specialize (Hb eq_refl); cbn [headIsSpace] in Hb; congruence |].
    destruct (normalChar_fixed c Hc) as [_ [_ Hsp]]. rewrite (Hsp Hs).
    f_equal. apply IH; [exact Hr | exact Hrun |].
    intros _. cbn [andb] in Hcr. now destruct (headIsSpace r).
  - f_equal. apply IH; [exact Hr | exact Hrun | discriminate].
Qed.

Lemma trimStart_headless s : headIsSpace s = false -> trimStart s = s.
Proof. destruct s as [| c r]; [reflexivity |]. cbn [headIsSpace trimStart]. now intros ->. Qed.

Lemma allSpaces_last s : s <> EmptyString -> allSpaces s = true -> lastIsSpace s = true.
Proof.
  induction s as [| c r IH]; [congruence |]. intros _ H.
  cbn [allSpaces] in H. apply andb_prop in H as [Hc Hr].
  cbn [lastIsSpace]. destruct r as [| d r']; [exact Hc |].
  apply IH; [discriminate | exact Hr].
Qed.

Lemma trimEnd_lastless s : lastIsSpace s = false -> trimEnd s = s.
Proof.
  induction s as [| c r IH]; [reflexivity |]. intros H.
  cbn [trimEnd]. destruct (allSpaces (String c r)) eqn:Ha.
  - rewrite allSpaces_last in H; [discriminate H | discriminate | exact Ha].
  - f_equal. destruct r as [| d r']; [reflexivity |]. apply IH. exact H.
Qed.

Lemma normalizeTitle_fixed s :
  allChars isNormalChar s = true -> tidy s = true -> normalizeTitle s = s.
Proof.
  intros Hall Htidy. unfold tidy in Htidy.
  apply andb_prop in Htidy as [Htidy Hrun]. apply andb_prop in Htidy as [Hhead Hlast].
  apply negb_true_iff in Hhead, Hlast.
  unfold normalizeTitle, trim.
  rewrite (toLowerCase_normal _ Hall), (filterChars_normal _ Hall).
  rewrite (collapseSpaces_normal _ false Hall Hrun) by discriminate.
  rewrite (trimStart_headless _ Hhead). apply trimEnd_lastless, Hlast.
Qed.

(** X1: normalizing a title twice is normalizing it once, and the case
    of the letters of a title does not change what it normalizes to. *)
Theorem normalizeTitle_idempotent :
  forall title : string,
    normalizeTitle (normalizeTitle title) = normalizeTitle title /\
    normalizeTitle (toLowerCase title) = normalizeTitle title.
Proof.
  intros title. split.
  - apply normalizeTitle_fixed;
      [apply TitleFacts.normalizeTitle_chars | apply TitleFacts.normalizeTitle_tidy].
  - unfold normalizeTitle. now rewrite toLowerCase_idem.
Qed.

Lemma takeWhile_allChars p s : allChars p (takeWhile p s) = true.
Proof.
  induction s as [| c r IH]; [reflexivity |].
  cbn [takeWhile]. destruct (p c) eqn:Hc; [| reflexivity].
  cbn [allChars]. now rewrite Hc, IH.
Qed.

Lemma allChars_app p s1 s2 :
  allChars p s1 = true -> allChars p s2 = true -> allChars p (s1 +:+ s2) = true.
Proof.
  induction s1 as [| c r IH]; intros H1 H2; [exact H2 |].
  cbn [allChars] in H1. apply andb_prop in H1 as [Hc Hr].
  change (allChars p (String c (r +:+ s2)) = true). cbn [allChars].
  now rewrite Hc, IH.
Qed.

Lemma allChars_weaken (p q : ascii -> bool) s :
  (forall c, p c = true -> q c = true) -> allChars p s = true -> allChars q s = true.
Proof.
  intros Hpq. induction s as [| c r IH]; [reflexivity |].
  cbn [allChars]. intros H. apply andb_prop in H as [Hc Hr].
  now rewrite (Hpq c Hc), IH.
Qed.

Lemma digit_unreserved c : isDigit c = true -> isUnreserved c = true.
Proof.
  destruct c as [[] [] [] [] [] [] [] []]; vm_compute; intros H;
    first [reflexivity | discriminate H].
Qed.

Lemma encodeURIComponent_unreserved s :
  allChars isUnreserved s = true -> encodeURIComponent s = s.
Proof.
  induction s as [| c r IH]; [reflexivity |].
  cbn [allChars encodeURIComponent]. intros H. apply andb_prop in H as [Hc Hr].
  unfold encodeChar. rewrite Hc, IH by exact Hr. reflexivity.
Qed.

Lemma digitsDotDigits_shape s a : digitsDotDigits s = Some a -> versionless a.
Proof.
  unfold digitsDotDigits.
  destruct (takeWhile isDigit s) as [| c1 r1] eqn:E1; [discriminate |].
  destruct (dropWhile isDigit s) as [| c r]; [discriminate |].
  destruct c as [[] [] [] [] [] [] [] []]; try discriminate.
  destruct (takeWhile isDigit r) as [| c2 r2] eqn:E2; [discriminate |].
  intros H. injection H as <-.
  exists (String c1 r1), (String c2 r2). repeat split; try discriminate.
  - rewrite <- E1. apply takeWhile_allChars.
  - rewrite <- E2. apply takeWhile_allChars.
Qed.

Lemma digits_shape s m : digits s = Some m -> m <> "" /\ allChars isDigit m = true.
Proof.
  unfold digits. destruct (takeWhile isDigit s) as [| c r] eqn:E; [discriminate |].
  intros H. injection H as <-. split; [discriminate |].
  rewrite <- E. apply takeWhile_allChars.
Qed.

Lemma firstMatch_at at_ s m :
  firstMatch at_ s = Some m -> exists s', at_ s' = Some m.
Proof.
  induction s as [| c r IH]; cbn [firstMatch].
  - destruct (at_ EmptyString) eqn:E; [| discriminate].
    intros H. injection H as <-. now exists EmptyString.
  - destruct (at_ (String c r)) eqn:E.
    + intros H. injection H as <-. now exists (String c r).
    + exact IH.
Qed.

Lemma versionless_encoded a : versionless a -> encodeURIComponent a = a.
Proof.
  intros [d1 [d2 [-> [_ [_ [H1 H2]]]]]].
  apply encodeURIComponent_unreserved.
  apply allChars_app.
  - exact (allChars_weaken _ _ _ digit_unreserved H1).
  - apply (allChars_app _ "."); [reflexivity |].
    exact (allChars_weaken _ _ _ digit_unreserved H2).
Qed.

(** X2: an arXiv id that getArxivId extracts is digits, a dot, digits,
    and a PMID that getPMID extracts is a non-empty run of digits; the
    URL of their lookup carries them as they are, with nothing escaped. *)
Theorem extracted_identifiers_are_plain :
  forall it : Item,
    (forall a, getArxivId it = Some a -> versionless a /\ encodeURIComponent a = a) /\
    (forall m, getPMID it = Some m ->
               m <> "" /\ allChars isDigit m = true /\ encodeURIComponent m = m).
Proof.
  intros it. split.
  - intros a H. unfold getArxivId in H.
    assert (Hv : versionless a).
    { destruct (firstMatch arxivExtraAt (getField it "extra")) as [m |] eqn:E.
      - injection H as <-. apply firstMatch_at in E as [s' E].
        unfold arxivExtraAt in E. destruct (literalCI "arXiv:" s'); [| discriminate].
        now apply digitsDotDigits_shape in E.
      - apply firstMatch_at in H as [s' H].
        unfold arxivUrlAt in H. destruct (literalCI "arxiv.org/abs/" s'); [| discriminate].
        now apply digitsDotDigits_shape in H. }
    split; [exact Hv | now apply versionless_encoded].
  - intros m H. unfold getPMID in H. apply firstMatch_at in H as [s' H].
    unfold pmidAt in H. destruct (literalCI "PMID:" s'); [| discriminate].
    apply digits_shape in H as [Hne Hd]. repeat split; [exact Hne | exact Hd |].
    apply encodeURIComponent_unreserved.
    exact (allChars_weaken _ _ _ digit_unreserved Hd).
Qed.

Lemma extracted_identifiers_are_plain_witness :
  getArxivId (annotated "PMID: 34551 arXiv:1706.03762v5" "") = Some "1706.03762" /\
  encodeURIComponent "1706.03762" = "1706.03762".
Proof.
  split; [reflexivity |].
  apply (proj1 (extracted_identifiers_are_plain
                  (annotated "PMID: 34551 arXiv:1706.03762v5" "")) "1706.03762").
  reflexivity.
Defined.

End ItemFacts.

(** * What applyDataToItem stores and what it leaves alone *)

Module StoredFacts.
Import ItemUtils Merge Shapes.

Lemma untouched_writeField ow n v it :
  item_id (writeField ow n v it) = item_id it /\
  isRegularItem (writeField ow n v it) = isRegularItem it /\
  storedData (writeField ow n v it) = storedData it.
Proof. unfold writeField. now destruct (ow || String.eqb (getField it n) ""). Qed.

Lemma untouched_block data should ow f it :
  item_id (block data should ow f it) = item_id it /\
  isRegularItem (block data should ow f it) = isRegularItem it /\
  storedData (block data should ow f it) = storedData it.
Proof.
  rewrite MergeFacts.block_write.
  destruct (should (flagOf f) && truthy (catalogValue data f));
    [apply untouched_writeField | now repeat split].
Qed.

Lemma untouched_applyBlocks data should ow fs : forall it,
  item_id (applyBlocks data should ow fs it) = item_id it /\
  isRegularItem (applyBlocks data should ow fs it) = isRegularItem it /\
  storedData (applyBlocks data should ow fs it) = storedData it.
Proof.
  induction fs as [| g fs IH]; intros it; [now repeat split |].
  rewrite MergeFacts.applyBlocks_cons.
  destruct (IH (block data should ow g it)) as [H1 [H2 H3]].
  destruct (untouched_block data should ow g it) as [G1 [G2 G3]].
  repeat split; congruence.
Qed.

Lemma applyDataToItem_cases today it data should ow :
  applyDataToItem today it data should ow =
  if isRegularItem it && truthy data
  then applyBlocks data should ow exportedFields
                   (_setStoredData it (buildStoredData today data should))
  else it.
Proof.
  unfold applyDataToItem.
  destruct (isRegularItem it), (truthy data); reflexivity.
Qed.

(** X3: applyDataToItem writes to nothing but the stored data and the
    five target fields: the id, the type and the kind of the item stay,
    and so does every field that is not the target of an exported field,
    the title and the extra field among them. *)
Theorem applyDataToItem_frame :
  forall (today : string) (it : Item) (data : JSON) (should : string -> bool)
         (overwriteExisting : bool),
    let it' := applyDataToItem today it data should overwriteExisting in
    item_id it' = item_id it /\
    itemType it' = itemType it /\
    isRegularItem it' = isRegularItem it /\
    (forall name, (forall f, targetOf it f <> name) -> getField it' name = getField it name) /\
    getField it' "title" = getField it "title" /\
    getField it' "extra" = getField it "extra".
Proof.
  intros today it data should ow it'. subst it'. rewrite applyDataToItem_cases.
  destruct (isRegularItem it && truthy data) eqn:Hg; [| now repeat split].
  set (it0 := _setStoredData it (buildStoredData today data should)).
  assert (H0 : item_id it0 = item_id it /\ itemType it0 = itemType it /\
               isRegularItem it0 = isRegularItem it).
  { unfold it0, _setStoredData. now destruct (negb (isRegularItem it)). }
  destruct H0 as [Hid [Hty Hreg]].
  destruct (untouched_applyBlocks data should ow exportedFields it0) as [B1 [B2 _]].
  assert (Hframe : forall name, (forall f, targetOf it f <> name) ->
            getField (applyBlocks data should ow exportedFields it0) name = getField it name).
  { intros name Hname. rewrite MergeFacts.applyBlocks_other.
    - apply MergeFacts.getField_setStoredData.
    - intros g _. rewrite (MergeFacts.targetOf_itemType it it0 g Hty). apply Hname. }
  split; [congruence |]. split; [rewrite MergeFacts.itemType_applyBlocks; exact Hty |].
  split; [congruence |]. split; [exact Hframe |].
  split; apply Hframe; intros f; destruct f; simpl; unfold venueFieldOf;
    repeat match goal with |- context [if ?b then _ else _] => destruct b end;
    discriminate.
Qed.

Lemma applyDataToItem_frame_witness :
  getField (applyDataToItem "1/1/2026" sampleArticle sampleResult allFlags true) "volume"
  = getField sampleArticle "volume".
Proof.
  apply (proj1 (proj2 (proj2 (proj2
           (applyDataToItem_frame "1/1/2026" sampleArticle sampleResult allFlags true))))).
  intros f; destruct f; discriminate.
Defined.

Lemma assoc_cond k (c : bool) k' v rest :
  assoc k ((if c then [(k', v)] else []) ++ rest) =
  if c && String.eqb k k' then v else assoc k rest.
Proof. destruct c; simpl; [now destruct (String.eqb k k') | reflexivity]. Qed.

Lemma assoc_cond_last k (c : bool) k' v :
  assoc k (if c then [(k', v)] else []) = if c && String.eqb k k' then v else JUndefined.
Proof. destruct c; simpl; [now destruct (String.eqb k k') | reflexivity]. Qed.

Lemma assoc_one k k' v rest :
  assoc k ([(k', v)] ++ rest) = if String.eqb k k' then v else assoc k rest.
Proof. reflexivity. Qed.

(** Reading one key out of what buildStoredData builds. *)
Ltac read_stored :=
  unfold buildStoredData; cbv zeta beta; cbn [prop];
  rewrite !assoc_cond, assoc_one, assoc_cond, assoc_cond_last;
  cbn [String.eqb Ascii.eqb Bool.eqb];
  rewrite ?andb_false_r, ?andb_true_r; cbv iota.

Lemma stored_paperId today data should :
  prop (buildStoredData today data should) "paperId" = jsOr (prop data "paperId") JUndefined.
Proof. read_stored. unfold jsOr. now destruct (truthy (prop data "paperId")). Qed.

Lemma stored_citationCount today data should :
  prop (buildStoredData today data should) "citationCount" = prop data "citationCount".
Proof. read_stored. now destruct (prop data "citationCount"). Qed.

Lemma stored_influentialCitationCount today data should :
  prop (buildStoredData today data should) "influentialCitationCount" =
  if should "influentialCitationCount" then prop data "influentialCitationCount" else JUndefined.
Proof.
  read_stored. destruct (should "influentialCitationCount");
    rewrite ?andb_false_r, ?andb_true_r; [| reflexivity].
  now destruct (prop data "influentialCitationCount").
Qed.

Lemma stored_referenceCount today data should :
  prop (buildStoredData today data should) "referenceCount" =
  if should "referenceCount" then prop data "referenceCount" else JUndefined.
Proof.
  read_stored. destruct (should "referenceCount");
    rewrite ?andb_false_r, ?andb_true_r; [| reflexivity].
  now destruct (prop data "referenceCount").
Qed.

Lemma stored_lastUpdated today data should :
  prop (buildStoredData today data should) "lastUpdated" = JStr today.
Proof. read_stored. reflexivity. Qed.

Lemma applyDataToItem_stored today it data should ow :
  isRegularItem it = true -> truthy data = true ->
  isRegularItem (applyDataToItem today it data should ow) = true /\
  storedData (applyDataToItem today it data should ow) =
  readBack (buildStoredData today data should).
Proof.
  intros Hr Hd. rewrite applyDataToItem_cases, Hr, Hd. cbn [andb].
  destruct (untouched_applyBlocks data should ow exportedFields
              (_setStoredData it (buildStoredData today data should))) as [_ [H2 H3]].
  rewrite H2, H3. unfold _setStoredData. rewrite Hr. now split.
Qed.

Lemma reparsed_parsed : forall v, parsed v = true -> reparsed v = v.
Proof.
  fix IH 1. intros [| | b | n | s | l | l] H; try reflexivity; try discriminate H.
  - cbn [reparsed]. f_equal. cbn [parsed] in H.
    induction l as [| x l IHl]; [reflexivity |].
    cbn [forallb] in H. apply andb_prop in H as [Hx Hl].
    cbn [map]. now rewrite (IH x Hx), (IHl Hl).
  - cbn [reparsed]. f_equal. cbn [parsed] in H.
    induction l as [| [k x] l IHl]; [reflexivity |].
    cbn [forallb] in H. apply andb_prop in H as [Hx Hl].
    cbn [flat_map]. rewrite (IHl Hl), (IH x Hx).
    destruct x; try reflexivity. discriminate Hx.
Qed.

(** A property of a parsed value is a parsed value, or is not there. *)
Lemma parsed_prop v k :
  v = JUndefined \/ parsed v = true ->
  prop v k = JUndefined \/ parsed (prop v k) = true.
Proof.
  intros [-> | H]; [now left |].
  destruct v as [| | b | n | s | l | l]; try (now left); cbn [prop].
  - destruct (String.eqb k "length"); [now right | now left].
  - destruct (String.eqb k "length"); [now right | now left].
  - cbn [parsed] in H. induction l as [| [k' x] l IHl]; [now left |].
    cbn [forallb] in H. apply andb_prop in H as [Hx Hl]. cbn [assoc].
    destruct (String.eqb k k'); [now right | exact (IHl Hl)].
Qed.

Lemma parsed_defined v :
  v = JUndefined \/ parsed v = true ->
  match v with JUndefined => false | _ => true end = true -> parsed v = true.
Proof. intros [-> | H] Hd; [discriminate Hd | exact H]. Qed.

Lemma parsed_truthy v :
  v = JUndefined \/ parsed v = true -> truthy v = true -> parsed v = true.
Proof. intros [-> | H] Hd; [discriminate Hd | exact H]. Qed.

Lemma buildStoredData_parsed today data should :
  parsed data = true -> parsed (buildStoredData today data should) = true.
Proof.
  intros H. unfold buildStoredData. cbn [parsed]. rewrite !forallb_app.
  pose proof (parsed_prop data "citationCount" (or_intror H)) as H1.
  pose proof (parsed_prop data "influentialCitationCount" (or_intror H)) as H2.
  pose proof (parsed_prop data "referenceCount" (or_intror H)) as H3.
  pose proof (parsed_prop data "paperId" (or_intror H)) as H4.
  pose proof (parsed_prop (prop data "externalIds") "ArXiv"
                (parsed_prop data "externalIds" (or_intror H))) as H5.
  pose proof (parsed_prop data "fieldsOfStudy" (or_intror H)) as H6.
  repeat (apply andb_true_intro; split).
  - destruct (match prop data "citationCount" with JUndefined => false | _ => true end) eqn:E;
      [| reflexivity]. cbn [forallb]. now rewrite (parsed_defined _ H1 E).
  - destruct (match prop data "influentialCitationCount" with
              | JUndefined => false | _ => true end) eqn:E; [| reflexivity].
    destruct (should "influentialCitationCount"); [| reflexivity].
    cbn [andb forallb]. now rewrite (parsed_defined _ H2 E).
  - destruct (match prop data "referenceCount" with
              | JUndefined => false | _ => true end) eqn:E; [| reflexivity].
    destruct (should "referenceCount"); [| reflexivity].
    cbn [andb forallb]. now rewrite (parsed_defined _ H3 E).
  - destruct (truthy (prop data "paperId")) eqn:E; [| reflexivity].
    cbn [forallb]. now rewrite (parsed_truthy _ H4 E).
  - reflexivity.
  - reflexivity.
  - destruct (should "arXivId"); [| reflexivity]. cbn [andb].
    destruct (truthy (optProp (prop data "externalIds") "ArXiv")) eqn:E; [| reflexivity].
    cbn [forallb]. rewrite andb_true_r.
    destruct H5 as [H5 | H5]; [| exact H5]. exfalso.
    unfold optProp in E. destruct (prop data "externalIds"); try discriminate E;
      rewrite H5 in E; discriminate E.
  - destruct (should "fieldsOfStudy"); [| reflexivity]. cbn [andb].
    destruct (truthy (optProp (prop data "fieldsOfStudy") "length")) eqn:E; [| reflexivity].
    cbn [forallb]. rewrite andb_true_r.
    destruct H6 as [H6 | H6]; [| exact H6]. exfalso.
    rewrite H6 in E. discriminate E.
Qed.

(** X4: what applyDataToItem stores is what the getters give back, when
    the note can be read back.  After it has run on a regular item with
    a catalog result that JSON.parse gave, and the JSON text of what it
    stores does not hold the closing tag of the note, the stored id is
    the paperId of the result (null when it has none), the citation
    count is the text of its citationCount, the last update is the day
    of the run, and the influential and reference counts are those of
    the result when their flag is on and empty when it is off, whatever
    the item had stored before.  When the text does hold the closing
    tag, in the paperId for one, nothing can be read back: the stored
    id and the last update are null and the counts are empty. *)
Theorem stored_data_round_trip :
  forall (today : string) (it : Item) (data : JSON) (should : string -> bool)
         (overwriteExisting : bool),
    isRegularItem it = true ->
    truthy data = true ->
    parsed data = true ->
    let it' := applyDataToItem today it data should overwriteExisting in
    let text v := match v with JUndefined => "" | _ => jsString v end in
    (readable (buildStoredData today data should) = true ->
     getScholarId it' = jsOr (prop data "paperId") JNull /\
     getCitationCount it' = text (prop data "citationCount") /\
     getInfluentialCitationCount it' =
       (if should "influentialCitationCount"
        then text (prop data "influentialCitationCount") else "") /\
     getReferenceCount it' =
       (if should "referenceCount" then text (prop data "referenceCount") else "") /\
     getLastUpdated it' = jsOr (JStr today) JNull) /\
    (readable (buildStoredData today data should) = false ->
     getScholarId it' = JNull /\
     getCitationCount it' = "" /\
     getInfluentialCitationCount it' = "" /\
     getReferenceCount it' = "" /\
     getLastUpdated it' = JNull).
Proof.
  intros today it data should ow Hr Hd Hp it' text. subst it'.
  destruct (applyDataToItem_stored today it data should ow Hr Hd) as [Hr' Hs'].
  unfold getScholarId, getCitationCount, getInfluentialCitationCount,
    getReferenceCount, getLastUpdated, readable.
  rewrite Hr', Hs'. cbn [negb]. unfold readBack. split; intros Hread.
  - apply negb_true_iff in Hread. rewrite Hread.
    change (match buildStoredData today data should with
            | JUndefined => JNull
            | _ => reparsed (buildStoredData today data should)
            end) with (reparsed (buildStoredData today data should)).
    rewrite (reparsed_parsed _ (buildStoredData_parsed today data should Hp)).
    change (truthy (buildStoredData today data should)) with true. cbn [negb].
    rewrite stored_paperId, stored_citationCount, stored_influentialCitationCount,
      stored_referenceCount, stored_lastUpdated.
    subst text. repeat split.
    + unfold jsOr. destruct (truthy (prop data "paperId")) eqn:E; [now rewrite E | reflexivity].
    + now destruct (prop data "citationCount").
    + destruct (should "influentialCitationCount"); [| reflexivity].
      now destruct (prop data "influentialCitationCount").
    + destruct (should "referenceCount"); [| reflexivity].
      now destruct (prop data "referenceCount").
  - apply negb_false_iff in Hread. rewrite Hread. cbn [truthy negb]. repeat split.
Qed.

Lemma stored_data_round_trip_witness :
  (getScholarId (applyDataToItem "1/1/2026" sampleArticle sampleResult allFlags false)
     = JStr "abc123" /\
   getCitationCount (applyDataToItem "1/1/2026" sampleArticle sampleResult allFlags false)
     = "12") /\
  (getScholarId (applyDataToItem "1/1/2026" sampleArticle tagResult allFlags false)
     = JNull /\
   getCitationCount (applyDataToItem "1/1/2026" sampleArticle tagResult allFlags false)
     = "").
Proof.
  split.
  - pose proof (proj1 (stored_data_round_trip "1/1/2026" sampleArticle sampleResult allFlags
                         false eq_refl eq_refl eq_refl) eq_refl) as [H1 [H2 _]].
    split; [exact H1 | exact H2].
  - pose proof (proj2 (stored_data_round_trip "1/1/2026" sampleArticle tagResult allFlags
                         false eq_refl eq_refl eq_refl) eq_refl) as [H1 [H2 _]].
    split; [exact H1 | exact H2].
Defined.

Section Settling.
Variable data : JSON.
Variable should : string -> bool.
Variable ow : bool.

Abbreviation blockOf := (block data should ow).
Abbreviation settledOn := (Shapes.settled data should ow).

Lemma setField_same it n x : fields it !! n = Some x -> setField it n x = it.
Proof.
  intros H. destruct it as [i r t fs sd]. unfold setField; simpl in *.
  f_equal. now apply insert_id.
Qed.

Lemma fields_writeField_other n v it m :
  n <> m -> fields (writeField ow n v it) !! m = fields it !! m.
Proof.
  intros Hne. unfold writeField. destruct (ow || String.eqb (getField it n) ""); [| reflexivity].
  unfold setField; simpl. now apply lookup_insert_ne.
Qed.

Lemma fields_block_other f it m :
  targetOf it f <> m -> fields (blockOf f it) !! m = fields it !! m.
Proof.
  intros Hne. rewrite MergeFacts.block_write.
  destruct (should (flagOf f) && truthy (catalogValue data f)); [| reflexivity].
  now apply fields_writeField_other.
Qed.

Lemma block_settled_id f it : settledOn it f -> blockOf f it = it.
Proof.
  unfold Shapes.settled. intros H. rewrite MergeFacts.block_write.
  destruct (should (flagOf f) && truthy (catalogValue data f)); [| reflexivity].
  unfold writeField.
  destruct (ow || String.eqb (getField it (targetOf it f)) "") eqn:Hw; [| reflexivity].
  destruct (H eq_refl) as [Hs | [How Hne]].
  - now apply setField_same.
  - subst ow. cbn [orb] in Hw. apply String.eqb_eq in Hw. congruence.
Qed.

Lemma block_settles f it : settledOn (blockOf f it) f.
Proof.
  unfold Shapes.settled. intros Hc.
  rewrite (MergeFacts.targetOf_itemType it _ f (MergeFacts.itemType_block data should ow f it)).
  rewrite MergeFacts.block_write, Hc. unfold writeField.
  destruct (ow || String.eqb (getField it (targetOf it f)) "") eqn:Hw.
  - left. unfold setField; simpl. apply lookup_insert_eq.
  - right. apply orb_false_elim in Hw as [How Hne]. split; [exact How |].
    now apply String.eqb_neq.
Qed.

Lemma block_keeps_settled f g it : f <> g -> settledOn it f -> settledOn (blockOf g it) f.
Proof.
  unfold Shapes.settled. intros Hfg H Hc.
  rewrite (MergeFacts.targetOf_itemType it _ f (MergeFacts.itemType_block data should ow g it)).
  assert (Hne : targetOf it g <> targetOf it f).
  { intros E. apply MergeFacts.targetOf_inj in E. congruence. }
  unfold getField. rewrite (fields_block_other g it _ Hne). exact (H Hc).
Qed.

Lemma applyBlocks_keeps_settled f fs : forall it,
  ~ In f fs -> settledOn it f -> settledOn (applyBlocks data should ow fs it) f.
Proof.
  induction fs as [| g fs IH]; intros it Hnot H; [exact H |].
  rewrite MergeFacts.applyBlocks_cons. apply IH.
  - intros Hin. apply Hnot. now right.
  - apply block_keeps_settled; [| exact H]. intros ->. apply Hnot. now left.
Qed.

Lemma applyBlocks_settles fs : forall it f,
  NoDup fs -> In f fs -> settledOn (applyBlocks data should ow fs it) f.
Proof.
  induction fs as [| g fs IH]; intros it f Hnd Hin; [destruct Hin |].
  apply NoDup_cons in Hnd as [Hg Hnd]. rewrite list_elem_of_In in Hg.
  rewrite MergeFacts.applyBlocks_cons. destruct Hin as [-> | Hin].
  - apply applyBlocks_keeps_settled; [exact Hg | apply block_settles].
  - now apply IH.
Qed.

Lemma applyBlocks_settled_id fs : forall it,
  (forall f, In f fs -> settledOn it f) -> applyBlocks data should ow fs it = it.
Proof.
  induction fs as [| g fs IH]; intros it H; [reflexivity |].
  rewrite MergeFacts.applyBlocks_cons, block_settled_id by (apply H; now left).
  apply IH. intros f Hf. apply H. now right.
Qed.

End Settling.

Lemma setStoredData_same it d :
  isRegularItem it = true -> storedData it = readBack d -> _setStoredData it d = it.
Proof.
  destruct it as [i r t fs sd]. unfold _setStoredData. cbn [isRegularItem storedData].
  intros -> ->. reflexivity.
Qed.

(** X5: applying the same catalog result a second time changes nothing:
    the item after two runs of applyDataToItem is the item after one. *)
Theorem applyDataToItem_idempotent :
  forall (today : string) (it : Item) (data : JSON) (should : string -> bool)
         (overwriteExisting : bool),
    applyDataToItem today (applyDataToItem today it data should overwriteExisting)
                    data should overwriteExisting
    = applyDataToItem today it data should overwriteExisting.
Proof.
  intros today it data should ow.
  destruct (isRegularItem it && truthy data) eqn:Hg.
  - apply andb_prop in Hg as [Hr Hd].
    destruct (applyDataToItem_stored today it data should ow Hr Hd) as [Hr' Hs'].
    rewrite (applyDataToItem_cases today (applyDataToItem today it data should ow)).
    rewrite Hr', Hd. cbn [andb].
    rewrite (setStoredData_same _ _ Hr' Hs').
    rewrite (applyDataToItem_cases today it), Hr, Hd. cbn [andb].
    apply applyBlocks_settled_id. intros f _.
    apply applyBlocks_settles; [apply MergeFacts.NoDup_exportedFields
                               | apply MergeFacts.In_exportedFields].
  - rewrite (applyDataToItem_cases today it), Hg.
    now rewrite applyDataToItem_cases, Hg.
Qed.

End StoredFacts.

(** * The field list and the drain *)

Module ApiFacts.
Import SemanticScholarAPI Scheduler Requests.

Lemma existsb_eqb_In x seen : existsb (String.eqb x) seen = true <-> In x seen.
Proof.
  rewrite existsb_exists. split.
  - intros [y [Hy E]]. apply String.eqb_eq in E. now subst.
  - intros H. exists x. split; [exact H | apply String.eqb_refl].
Qed.

Lemma dedupe_In l : forall seen x,
  In x (dedupe seen l) <-> In x l /\ ~ In x seen.
Proof.
  induction l as [| y l IH]; intros seen x; simpl; [tauto |].
  destruct (existsb (String.eqb y) seen) eqn:E.
  - apply existsb_eqb_In in E. rewrite IH. split.
    + intros [H1 H2]. tauto.
    + intros [[-> | H1] H2]; [contradiction | tauto].
  - assert (Hy : ~ In y seen).
    { intros H. apply existsb_eqb_In in H. congruence. }
    simpl. rewrite IH. simpl. split.
    + intros [-> | [H1 H2]]; [tauto | tauto].
    + intros [[-> | H1] H2]; [tauto |].
      destruct (String.eqb_spec y x) as [-> | Hne]; [tauto | right; tauto].
Qed.

Lemma dedupe_NoDup l : forall seen, NoDup (dedupe seen l).
Proof.
  induction l as [| y l IH]; intros seen; simpl; [apply NoDup_nil_2 |].
  destruct (existsb (String.eqb y) seen); [apply IH |].
  apply NoDup_cons. split; [| apply IH].
  rewrite list_elem_of_In, dedupe_In. simpl. tauto.
Qed.

(** X6: the field list of a request never names an attribute twice,
    always starts with paperId and citationCount, and asks for
    externalIds exactly when the DOI or the arXiv id is wanted. *)
Theorem buildFieldsParam_fields :
  forall shouldFetchField : string -> bool,
    let fs := requestedFields shouldFetchField in
    buildFieldsParam shouldFetchField = join "," fs /\
    NoDup fs /\
    (exists rest, fs = "paperId" :: "citationCount" :: rest) /\
    (In "externalIds" fs <->
     shouldFetchField "DOI" = true \/ shouldFetchField "arXivId" = true).
Proof.
  intros should fs. split; [reflexivity |]. split; [apply dedupe_NoDup |]. split.
  - eexists. reflexivity.
  - unfold fs, requestedFields. rewrite dedupe_In.
    destruct (should "influentialCitationCount"), (should "referenceCount"),
      (should "DOI"), (should "arXivId"), (should "abstract"),
      (should "publicationDate"), (should "venue"), (should "openAccessPdf"),
      (should "fieldsOfStudy"); simpl;
      intuition (first [discriminate | congruence]).
Qed.

Lemma addToRetryQueue_grows it rc api :
  exists added,
    retryQueue (addToRetryQueue it rc api) = retryQueue api ++ added /\
    Forall (fun e => (retryCount e < maxRetries)%Z) added /\
    (List.length added <= 1)%nat.
Proof.
  unfold addToRetryQueue. destruct (rc >=? maxRetries)%Z eqn:Hrc.
  - exists []. rewrite app_nil_r. repeat split; [constructor | simpl; lia].
  - destruct (queued it (retryQueue api)).
    + exists []. rewrite app_nil_r. repeat split; [constructor | simpl; lia].
    + exists [mkEntry it rc]. repeat split; [| simpl; lia].
      constructor; [| constructor].
      simpl. rewrite Z.geb_leb in Hrc. apply Z.leb_gt in Hrc. exact Hrc.
Qed.

(** X7: calls of addToRetryQueue only ever append: after any run of
    them the queue that was there is still at the front, in its order,
    and every entry that was added has a retryCount below maxRetries. *)
Theorem enqueue_appends_below_maxRetries :
  forall (calls : list (Item * Z)) (api : t),
  exists added : list RetryEntry,
    retryQueue (enqueueAll calls api) = retryQueue api ++ added /\
    Forall (fun e => (retryCount e < maxRetries)%Z) added /\
    (List.length added <= List.length calls)%nat.
Proof.
  induction calls as [| [it rc] calls IH]; intros api.
  - exists []. rewrite app_nil_r. repeat split; [constructor | reflexivity].
  - cbn [enqueueAll fold_left fst snd].
    destruct (addToRetryQueue_grows it rc api) as [a1 [E1 [F1 L1]]].
    destruct (IH (addToRetryQueue it rc api)) as [a2 [E2 [F2 L2]]].
    exists (a1 ++ a2). unfold enqueueAll in E2. rewrite E2, E1, app_assoc.
    repeat split; [apply Forall_app; now split |].
    rewrite length_app. cbn [List.length]. lia.
Qed.

Section Draining.
Context {W : Type}.
Variable fetchCallback : Item -> W -> FetchResult * W.
Variable applyCallback : Item -> JSON -> W -> W.
Variable sleep : Z -> W -> W.

Abbreviation stepOf := (drainStep fetchCallback applyCallback sleep).
Abbreviation loopOf := (drainLoop fetchCallback applyCallback sleep).

Lemma drainStep_flag s :
  isProcessingRetryQueue (fst (stepOf s)) = isProcessingRetryQueue (fst s).
Proof.
  unfold drainStep. destruct (retryQueue (fst s)) as [| e q]; [reflexivity |].
  rewrite SchedulerFacts.drainIteration_cases.
  destruct (outcome _); reflexivity.
Qed.

Lemma drainLoop_ends fuel : forall s s',
  loopOf fuel s = Some s' ->
  retryQueue (fst s') = [] /\
  isProcessingRetryQueue (fst s') = isProcessingRetryQueue (fst s).
Proof.
  induction fuel as [| fuel IH]; intros s s' H; cbn [drainLoop] in H.
  - destruct (retryQueue (fst s)) eqn:E; [| discriminate].
    injection H as <-. now split.
  - destruct (retryQueue (fst s)) eqn:E.
    + injection H as <-. now split.
    + destruct (IH _ _ H) as [H1 H2]. split; [exact H1 |].
      now rewrite H2, drainStep_flag.
Qed.

Hypothesis never_rate_limited :
  forall it w, rateLimited (fst (fetchCallback it w)) = false.

Lemma drainStep_serves e q api w :
  retryQueue api = e :: q ->
  exists api1,
    stepOf (api, w) = (api1, serve fetchCallback applyCallback sleep w e) /\
    retryQueue api1 = q /\
    (retryDelay api1 = retryDelay api \/ retryDelay api1 = 2000%Z).
Proof.
  intros Hq. unfold drainStep; cbn [fst snd]. rewrite Hq.
  unfold drainIteration, serve. pose proof (never_rate_limited (item e) w) as Hn.
  destruct (fetchCallback (item e) w) as [r w1]. cbn [fst] in Hn. rewrite Hn.
  destruct (truthy (data r)); eexists; (split; [reflexivity |]); split; auto.
Qed.

Lemma drainLoop_serves fuel : forall api w,
  (List.length (retryQueue api) <= fuel)%nat ->
  exists api',
    loopOf fuel (api, w) =
      Some (api', fold_left (serve fetchCallback applyCallback sleep) (retryQueue api) w) /\
    retryQueue api' = [] /\
    (retryDelay api' = retryDelay api \/ retryDelay api' = 2000%Z).
Proof.
  induction fuel as [| fuel IH]; intros api w Hlen.
  - destruct (retryQueue api) as [| e q] eqn:Hq; [| simpl in Hlen; lia].
    exists api. cbn [drainLoop fst]. rewrite Hq. repeat split; auto.
  - destruct (retryQueue api) as [| e q] eqn:Hq.
    + exists api. cbn [drainLoop fst]. rewrite Hq. repeat split; auto.
    + destruct (drainStep_serves e q api w Hq) as [api1 [Hstep [Hq1 Hd1]]].
      destruct (IH api1 (serve fetchCallback applyCallback sleep w e)) as [api' [Hl [Hq' Hd']]].
      { rewrite Hq1. simpl in Hlen. lia. }
      exists api'. cbn [drainLoop fst]. rewrite Hq, Hstep, Hl, Hq1.
      repeat split; [exact Hq' |]. destruct Hd1 as [E | E], Hd' as [E' | E']; rewrite ?E in *; auto.
Qed.

End Draining.

(** X8: a drain is single-flight and leaves nothing behind.  While one
    is in progress, a call of processRetryQueue returns at once, touches
    nothing and calls no callback; a call that starts a drain returns,
    if it does, with the queue empty and the in-progress flag down. *)
Theorem processRetryQueue_postcondition :
  forall (W : Type) (fetchCallback : Item -> W -> FetchResult * W)
         (applyCallback : Item -> JSON -> W -> W) (sleep : Z -> W -> W)
         (fuel : nat) (api : t) (w : W),
    (isProcessingRetryQueue api = true ->
     processRetryQueue fetchCallback applyCallback sleep fuel api w = Some (api, w)) /\
    (forall api' w',
        isProcessingRetryQueue api = false ->
        processRetryQueue fetchCallback applyCallback sleep fuel api w = Some (api', w') ->
        retryQueue api' = [] /\ isProcessingRetryQueue api' = false).
Proof.
  intros W f a sl fuel api w. unfold processRetryQueue. split.
  - intros ->. reflexivity.
  - intros api' w' Hp H. rewrite Hp in H. cbn [orb] in H.
    destruct (Z.of_nat (List.length (retryQueue api)) =? 0)%Z eqn:Hq.
    + injection H as <- <-. split; [| exact Hp].
      apply Z.eqb_eq in Hq. destruct (retryQueue api); [reflexivity | discriminate Hq].
    + destruct (drainLoop f a sl fuel _) as [[api2 w2] |] eqn:Hl; [| discriminate].
      injection H as <- <-. apply drainLoop_ends in Hl as [H1 _].
      split; [exact H1 | reflexivity].
Qed.

Lemma processRetryQueue_postcondition_witness :
  processRetryQueue neverFound noApply noSleep 1
    (addToRetryQueue (paperItem 1) 0 init) tt = Some (init, tt) /\
  retryQueue init = [].
Proof.
  split; [reflexivity |].
  apply (proj2 (processRetryQueue_postcondition unit neverFound noApply noSleep 1
                  (addToRetryQueue (paperItem 1) 0 init) tt) init tt);
    reflexivity.
Defined.

(** X9: when no fetch is rate limited the drain ends after one turn per
    queued record: every record is fetched once, in queue order (and
    applied when data came back), the queue is empty afterwards, and the
    backoff delay is what it was or back at its floor. *)
Theorem drain_serves_queue_in_order :
  forall (W : Type) (fetchCallback : Item -> W -> FetchResult * W)
         (applyCallback : Item -> JSON -> W -> W) (sleep : Z -> W -> W)
         (api : t) (w : W),
    (forall it w0, rateLimited (fst (fetchCallback it w0)) = false) ->
    isProcessingRetryQueue api = false ->
    retryQueue api <> [] ->
    exists api',
      processRetryQueue fetchCallback applyCallback sleep
                        (List.length (retryQueue api)) api w =
      Some (api',
            fold_left (serve fetchCallback applyCallback sleep) (retryQueue api)
                      (sleep (Z.min (retryDelay api) maxRetryDelay) w)) /\
      retryQueue api' = [] /\
      isProcessingRetryQueue api' = false /\
      (retryDelay api' = retryDelay api \/ retryDelay api' = 2000%Z).
Proof.
  intros W f a sl api w Hnr Hp Hq. unfold processRetryQueue. rewrite Hp. cbn [orb].
  destruct (Z.of_nat (List.length (retryQueue api)) =? 0)%Z eqn:E.
  { apply Z.eqb_eq in E. destruct (retryQueue api); [congruence | discriminate E]. }
  destruct (drainLoop_serves f a sl Hnr (List.length (retryQueue api))
              (with_processing true api) (sl (Z.min (retryDelay api) maxRetryDelay) w))
    as [api2 [Hl [Hq2 Hd2]]]; [reflexivity |].
  cbn [with_processing retryQueue retryDelay] in Hl, Hd2. cbn [with_processing retryDelay].
  rewrite Hl. exists (with_processing false api2). repeat split; assumption.
Qed.

Lemma drain_serves_queue_in_order_witness :
  let api := enqueueAll [(paperItem 3, 0%Z); (paperItem 1, 0%Z); (paperItem 2, 0%Z)] init in
  exists api',
    processRetryQueue recordFetch recordApply recordSleep 3 api [] = Some (api', [3; 1; 2]%Z).
Proof.
  intros api.
  destruct (drain_serves_queue_in_order (list Z) recordFetch recordApply recordSleep api [])
    as [api' [H _]]; [reflexivity | reflexivity | discriminate |].
  exists api'. exact H.
Defined.

End ApiFacts.

(** * What a title search can return *)

Module SearchFacts.
Import SemanticScholarAPI ItemUtils TitleSearch.

Lemma matchLoop_result title papers : forall r,
  matchLoop normalizeTitleJS (normalizeTitle title) papers = inr r ->
  rateLimited r = false /\
  (truthy (data r) = true ->
   In (data r) papers /\ exactMatch normalizeTitle title (data r) = true).
Proof.
  induction papers as [| paper rest IH]; intros r H; cbn [matchLoop] in H.
  - injection H as <-. split; [reflexivity | discriminate].
  - destruct (getProp paper "title") as [e | v] eqn:Eprop; [discriminate |].
    destruct (normalizeTitleJS v) as [e | n] eqn:Enorm; [discriminate |].
    destruct (truthy v && String.eqb n (normalizeTitle title)) eqn:Ec.
    + injection H as <-. cbn [data rateLimited]. split; [reflexivity |].
      intros _. split; [now left |].
      unfold exactMatch, titleOf. rewrite Eprop.
      destruct v; try discriminate Enorm. cbn [normalizeTitleJS] in Enorm.
      injection Enorm as <-. exact Ec.
    + destruct (IH r H) as [H1 H2]. split; [exact H1 |].
      intros Ht. destruct (H2 Ht) as [Hin Hm]. split; [now right | exact Hm].
Qed.

Lemma matchLoop_error title papers : forall e,
  matchLoop normalizeTitleJS (normalizeTitle title) papers = inl e -> mentions429 e = false.
Proof.
  induction papers as [| paper rest IH]; intros e H; cbn [matchLoop] in H; [discriminate |].
  destruct (getProp paper "title") as [e1 | v] eqn:Eprop.
  - injection H as <-. exact (TitleFacts.getProp_error _ _ _ Eprop).
  - destruct (normalizeTitleJS v) as [e2 | n] eqn:Enorm.
    + injection H as <-. exact (TitleFacts.normalizeTitleJS_error _ _ Enorm).
    + destruct (truthy v && String.eqb n (normalizeTitle title)); [discriminate |].
      exact (IH e H).
Qed.

Lemma iterate_error v e : iterate v = inl e -> mentions429 e = false.
Proof. destruct v; simpl; intros H; inversion H; reflexivity. Qed.

Lemma searchBody_error title responseData e :
  searchBody title normalizeTitleJS responseData = inl e -> mentions429 e = false.
Proof.
  unfold searchBody. destruct (getProp responseData "data") as [e1 | d] eqn:Eprop.
  - intros H. injection H as <-. exact (TitleFacts.getProp_error _ _ _ Eprop).
  - destruct (negb (truthy d) || _); [discriminate |].
    cbn [normalizeTitleJS].
    destruct (iterate d) as [e2 | papers] eqn:Eit.
    + intros H. injection H as <-. exact (iterate_error _ _ Eit).
    + apply matchLoop_error.
Qed.

Lemma searchBody_result title responseData r :
  searchBody title normalizeTitleJS responseData = inr r ->
  rateLimited r = false /\
  (truthy (data r) = true ->
   exists d candidates,
     getProp responseData "data" = inr d /\ iterate d = inr candidates /\
     In (data r) candidates /\ exactMatch normalizeTitle title (data r) = true).
Proof.
  unfold searchBody. destruct (getProp responseData "data") as [e1 | d] eqn:Eprop; [discriminate |].
  destruct (negb (truthy d) || _).
  - intros H. injection H as <-. split; [reflexivity | discriminate].
  - cbn [normalizeTitleJS]. destruct (iterate d) as [e2 | papers] eqn:Eit; [discriminate |].
    intros H. destruct (matchLoop_result _ _ _ H) as [H1 H2]. split; [exact H1 |].
    intros Ht. destruct (H2 Ht) as [Hin Hm]. exists d, papers. auto.
Qed.

(** X10: a title search never returns a paper the catalog did not list
    or whose title is not an exact match: when the outcome is Found, the
    response had status 200, the paper is one of its candidates, and the
    title of the paper normalizes to the normalized query. *)
Theorem title_search_sound :
  forall (server : Server) (title fields : string) (log : list Event) (paper : JSON),
    outcome (fst (fetchByTitle server title fields normalizeTitleJS log)) = Found paper ->
    exists responseData d candidates,
      server log (GET (searchUrl title fields)) = Responded 200 (inr responseData) /\
      getProp responseData "data" = inr d /\
      iterate d = inr candidates /\
      In paper candidates /\
      exactMatch normalizeTitle title paper = true.
Proof.
  intros server title fields log paper H.
  rewrite TitleFacts.fetchByTitle_run in H. cbn [fst] in H.
  assert (Herr : forall e, outcome (onError e) <> Found paper).
  { intros e. rewrite ClientFacts.outcome_onError. now destruct (mentions429 e). }
  destruct (server log (GET (searchUrl title fields))) as [status body | e];
    [| now apply Herr in H].
  destruct (status =? 429)%Z; [discriminate H |].
  destruct (status =? 200)%Z eqn:Es; [| discriminate H].
  apply Z.eqb_eq in Es. subst status. cbn [negb] in H.
  destruct body as [e | responseData]; [now apply Herr in H |].
  destruct (searchBody title normalizeTitleJS responseData) as [e | r] eqn:Eb;
    [now apply Herr in H |].
  destruct (searchBody_result _ _ _ Eb) as [Hrl Hres].
  unfold outcome in H. rewrite Hrl in H.
  destruct (truthy (data r)) eqn:Ht; [| discriminate H].
  injection H as <-. destruct (Hres eq_refl) as [d [candidates [H1 [H2 [H3 H4]]]]].
  exists responseData, d, candidates. auto.
Qed.

Lemma title_search_sound_witness :
  let candidates := [paperTitled "p1" "Shallow Learning"; paperTitled "p2" "deep learning 2016"] in
  exactMatch normalizeTitle "Deep Learning, 2016!" (paperTitled "p2" "deep learning 2016") = true.
Proof.
  intros candidates.
  destruct (title_search_sound (always_search candidates) "Deep Learning, 2016!" "paperId" []
              (paperTitled "p2" "deep learning 2016") eq_refl)
    as [responseData [d [cs [_ [_ [_ [_ H]]]]]]].
  exact H.
Defined.

(** X11: a title search reports a rate limit only on a 429: the status
    429, or a rejected request or an unparseable 200 body whose error
    message contains 429.  Whatever else the response holds, a body of
    the wrong shape included, is never a rate limit. *)
Theorem title_search_rate_limited_iff :
  forall (server : Server) (title fields : string) (log : list Event),
    rateLimited (fst (fetchByTitle server title fields normalizeTitleJS log)) = true <->
    match server log (GET (searchUrl title fields)) with
    | Responded status body =>
        status = 429%Z \/
        (status = 200%Z /\ exists e, body = inl e /\ mentions429 e = true)
    | Rejected e => mentions429 e = true
    end.
Proof.
  intros server title fields log.
  rewrite TitleFacts.fetchByTitle_run. cbn [fst].
  assert (Herr : forall e, rateLimited (onError e) = mentions429 e).
  { intros e. unfold onError. now destruct (mentions429 e). }
  destruct (server log (GET (searchUrl title fields))) as [status body | e];
    [| now rewrite Herr].
  destruct (status =? 429)%Z eqn:E429.
  - apply Z.eqb_eq in E429. split; [now left | reflexivity].
  - apply Z.eqb_neq in E429. destruct (status =? 200)%Z eqn:E200; cbn [negb].
    + apply Z.eqb_eq in E200. destruct body as [e | responseData].
      * rewrite Herr. split.
        -- intros H. right. split; [exact E200 |]. now exists e.
        -- intros [H | [_ [e' [He' H]]]]; [contradiction |]. injection He' as <-. exact H.
      * split.
        -- intros H. exfalso.
           destruct (searchBody title normalizeTitleJS responseData) as [e | r] eqn:Eb.
           ++ rewrite Herr, (searchBody_error _ _ _ Eb) in H. discriminate H.
           ++ destruct (searchBody_result _ _ _ Eb) as [Hrl _]. congruence.
        -- intros [H | [_ [e' [He' _]]]]; [contradiction | discriminate He'].
    + apply Z.eqb_neq in E200. simpl. split; [discriminate |].
      intros [H | [H _]]; contradiction.
Qed.

End SearchFacts.

(** * Batches: how many, and whose results *)

Module BatchMoreFacts.
Import SemanticScholarAPI SemanticScholar Batch.

Lemma ceil_step (n : nat) :
  (0 < n)%nat -> ((n + 499) / 500 = S ((n - 500 + 499) / 500))%nat.
Proof.
  intros Hn. destruct (Nat.le_gt_cases n 500) as [Hle | Hgt].
  - replace (n - 500)%nat with 0%nat by lia.
    change ((0 + 499) / 500)%nat with 0%nat.
    symmetry. apply (Nat.div_unique (n + 499) 500 1 (n - 1)); lia.
  - replace (n + 499)%nat with ((n - 500 + 499) + 1 * 500)%nat by lia.
    rewrite Nat.div_add by lia. lia.
Qed.

Lemma chunksFrom_count fuel : forall l : list JSON,
  (List.length l <= fuel)%nat ->
  List.length (chunksFrom fuel l) = ((List.length l + 499) / 500)%nat.
Proof.
  induction fuel as [| fuel IH]; intros l H.
  - destruct l; [reflexivity | simpl in H; lia].
  - destruct l as [| x l]; [reflexivity |].
    rewrite BatchFacts.chunksFrom_cons by discriminate.
    remember (x :: l) as xl eqn:Exl.
    assert (Hpos : (0 < List.length xl)%nat) by (subst xl; simpl; lia).
    change (S (List.length (chunksFrom fuel (skipn batchSize xl))) =
            ((List.length xl + 499) / 500)%nat).
    rewrite IH by (rewrite length_skipn; unfold batchSize; lia).
    rewrite length_skipn. unfold batchSize.
    now rewrite (ceil_step (List.length xl) Hpos).
Qed.

(** X12: batchFetch sends at most one request per 500 ids, rounded up,
    and exactly that many when no chunk is rate limited. *)
Theorem batchFetch_request_count :
  forall (server : Server) (ids : list JSON) (fields : string) (log : list Event),
  exists (b : BatchResult) (log' : list Event),
    batchFetch server ids fields log = (Some b, log') /\
    (List.length (postsOf log') <=
     List.length (postsOf log) + (List.length ids + 499) / 500)%nat /\
    (batchRateLimited b = false ->
     List.length (postsOf log') =
     (List.length (postsOf log) + (List.length ids + 499) / 500)%nat).
Proof.
  intros server ids fields log.
  destruct (BatchFacts.batchFetch_runs server ids fields log) as [b [log' [Hf Hrun]]].
  exists b, log'. split; [exact Hf |].
  destruct (BatchFacts.BatchRun_posts _ _ _ _ _ _ _ Hrun) as [[k [Hk Hall]] _].
  assert (Hc : List.length (chunks ids) = ((List.length ids + 499) / 500)%nat)
    by (apply chunksFrom_count; lia).
  rewrite Hk, length_app, length_firstn, Hc. split; [lia |].
  intros Hb. rewrite (Hall Hb), Hc. lia.
Qed.

Lemma batchFetch_request_count_witness :
  exists (b : BatchResult) (log' : list Event),
    batchFetch steadyCatalog (map scholarIdOf (seq 0 1001)) "paperId" [] = (Some b, log') /\
    List.length (postsOf log') = 3%nat.
Proof.
  destruct (batchFetch_request_count steadyCatalog (map scholarIdOf (seq 0 1001)) "paperId" [])
    as [b [log' [Hf [_ Hall]]]].
  exists b, log'. split; [exact Hf |].
  assert (E : option_map batchRateLimited
                (fst (batchFetch steadyCatalog (map scholarIdOf (seq 0 1001)) "paperId" []))
              = Some false) by (vm_compute; reflexivity).
  rewrite Hf in E. injection E as Hb.
  rewrite (Hall Hb). vm_compute. reflexivity.
Defined.

Section Answering.
Variable server : Server.
Variable answer : JSON -> JSON.

(** The catalog answers every batch with one entry per id, in order. *)
Hypothesis answers :
  forall log url chunk,
    server log (POST url chunk) = Responded 200 (inr (JArr (map answer chunk))).

Lemma BatchRun_answering fields cs log results b log' :
  BatchRun server fields cs log results b log' ->
  b = mkBatch (results ++ map answer (concat cs)) false.
Proof.
  induction 1 as [log results | chunk rest log results Heff
                 | chunk rest log results got b log' Heff Hrun IH].
  - simpl. now rewrite app_nil_r.
  - rewrite answers in Heff. discriminate Heff.
  - rewrite answers in Heff. simpl in Heff. injection Heff as <-. rewrite IH. simpl concat.
    now rewrite map_app, app_assoc.
Qed.

Lemma batchFetch_answering ids fields log :
  fst (batchFetch server ids fields log) = Some (mkBatch (map answer ids) false).
Proof.
  destruct (BatchFacts.batchFetch_runs server ids fields log) as [b [log' [Hf Hrun]]].
  rewrite Hf. simpl. f_equal. rewrite (BatchRun_answering _ _ _ _ _ _ Hrun). simpl.
  f_equal. f_equal. apply BatchFacts.chunksFrom_concat. lia.
Qed.

End Answering.

(** X13: when the catalog answers every batch with one entry per id, in
    the order of the ids, the results of batchFetch are aligned with the
    ids across the chunks: one result per id, the i-th for the i-th. *)
Theorem batchFetch_aligned_when_answered :
  forall (server : Server) (answer : JSON -> JSON) (ids : list JSON)
         (fields : string) (log : list Event),
    (forall log0 url chunk,
        server log0 (POST url chunk) = Responded 200 (inr (JArr (map answer chunk)))) ->
    fst (batchFetch server ids fields log) = Some (mkBatch (map answer ids) false).
Proof. intros server answer ids fields log H. now apply batchFetch_answering. Qed.

Lemma batchFetch_aligned_when_answered_witness :
  fst (batchFetch steadyCatalog (map scholarIdOf (seq 0 501)) "paperId" []) =
  Some (mkBatch (map paperOf (map scholarIdOf (seq 0 501))) false).
Proof.
  apply (batchFetch_aligned_when_answered steadyCatalog paperOf).
  reflexivity.
Defined.

End BatchMoreFacts.

(** * The plugin's use of the client *)

Module PluginFacts.
Import SemanticScholarAPI SemanticScholar Batch Lookup.

Lemma withScholarIds_In it sid items :
  In (it, sid) (withScholarIds items) ->
  In it items /\ sid = ItemUtils.getScholarId it /\ truthy sid = true.
Proof.
  unfold withScholarIds. rewrite in_flat_map. intros [it0 [Hin H]].
  destruct (truthy (ItemUtils.getScholarId it0)) eqn:Ht; [| destruct H].
  destruct H as [H | []]. injection H as <- <-. auto.
Qed.

Lemma withScholarIds_ids items :
  NoDup (map item_id items) -> NoDup (map (fun pr => item_id (fst pr)) (withScholarIds items)).
Proof.
  induction items as [| it items IH]; intros H; [apply NoDup_nil_2 |].
  cbn [map] in H. apply NoDup_cons in H as [Hit H].
  unfold withScholarIds. cbn [flat_map].
  destruct (truthy (ItemUtils.getScholarId it)); [| now apply IH].
  cbn [app map fst]. apply NoDup_cons. split; [| now apply IH].
  intros Hin. apply Hit. rewrite list_elem_of_In in *.
  apply in_map_iff in Hin as [[it' sid] [E Hin]]. cbn [fst] in E.
  apply withScholarIds_In in Hin as [Hin _]. rewrite <- E. now apply in_map.
Qed.

Lemma mapBack_origin pairs : forall rs acc id v,
  mapBack pairs rs acc !! id = Some v ->
  acc !! id = Some v \/
  (truthy v = true /\ exists pr, In pr pairs /\ item_id (fst pr) = id).
Proof.
  induction pairs as [| [it sid] pairs IH]; intros rs acc id v H; [now left |].
  destruct rs as [| r rs]; [now left |]. cbn [mapBack] in H.
  apply IH in H as [H | [Ht [pr [Hin E]]]].
  - destruct (truthy r) eqn:Hr; [| now left].
    destruct (decide (item_id it = id)) as [E | Hne].
    + subst id. rewrite lookup_insert_eq in H. injection H as <-.
      right. split; [exact Hr |]. exists (it, sid). split; [now left | reflexivity].
    + rewrite lookup_insert_ne in H by exact Hne. now left.
  - right. split; [exact Ht |]. exists pr. split; [now right | exact E].
Qed.

Lemma mapBack_other pairs : forall rs acc id,
  ~ In id (map (fun pr => item_id (fst pr)) pairs) ->
  mapBack pairs rs acc !! id = acc !! id.
Proof.
  induction pairs as [| [it sid] pairs IH]; intros rs acc id Hnot; [reflexivity |].
  destruct rs as [| r rs]; [reflexivity |]. cbn [mapBack].
  rewrite IH by (intros H; apply Hnot; now right).
  destruct (truthy r); [| reflexivity].
  apply lookup_insert_ne. intros E. apply Hnot. left. exact E.
Qed.

Lemma mapBack_answered (answer : JSON -> JSON) pairs : forall acc it sid,
  NoDup (map (fun pr => item_id (fst pr)) pairs) ->
  In (it, sid) pairs ->
  truthy (answer sid) = true ->
  mapBack pairs (map answer (map snd pairs)) acc !! item_id it = Some (answer sid).
Proof.
  induction pairs as [| [it0 sid0] pairs IH]; intros acc it sid Hnd Hin Ht; [destruct Hin |].
  cbn [map fst] in Hnd. apply NoDup_cons in Hnd as [Hfresh Hnd].
  rewrite list_elem_of_In in Hfresh. cbn [map snd mapBack].
  destruct Hin as [E | Hin].
  - injection E as -> ->. rewrite mapBack_other by exact Hfresh.
    rewrite Ht. apply lookup_insert_eq.
  - now apply IH.
Qed.

Lemma batchFetchByScholarIds_run server p items log :
  withScholarIds items <> [] ->
  batchFetchByScholarIds server p items log =
  (match fst (batchFetch server (map snd (withScholarIds items))
                (buildFieldsParam (shouldFetchField p)) log) with
   | None => None
   | Some b => Some (mapBack (withScholarIds items) (results b) ∅, batchRateLimited b)
   end,
   snd (batchFetch server (map snd (withScholarIds items))
          (buildFieldsParam (shouldFetchField p)) log)).
Proof.
  intros Hne. unfold batchFetchByScholarIds.
  destruct (withScholarIds items) as [| pr0 prs]; [congruence |].
  unfold bind. now destruct (batchFetch server _ _ log) as [[b |] log1].
Qed.

(** X14: batchFetchByScholarIds always returns, and it files results
    only under records that have a stored catalog id, and only results
    that are not null; when no record has a stored id it sends nothing. *)
Theorem batch_results_belong_to_stored_records :
  forall (server : Server) (p : Prefs) (items : list Item) (log : list Event),
  exists (results : gmap Z JSON) (rl : bool),
    fst (batchFetchByScholarIds server p items log) = Some (results, rl) /\
    (forall id v, results !! id = Some v ->
       truthy v = true /\
       exists it, In it items /\ item_id it = id /\
                  truthy (ItemUtils.getScholarId it) = true) /\
    (Forall (fun it => truthy (ItemUtils.getScholarId it) = false) items ->
     results = ∅ /\ snd (batchFetchByScholarIds server p items log) = log).
Proof.
  intros server p items log.
  destruct (withScholarIds items) as [| pr0 prs] eqn:Ew.
  - exists ∅, false. unfold batchFetchByScholarIds. rewrite Ew. cbn [ret fst snd].
    split; [reflexivity |]. split; [| auto].
    intros id v Hv. rewrite lookup_empty in Hv. discriminate Hv.
  - rewrite batchFetchByScholarIds_run by (rewrite Ew; discriminate).
    destruct (BatchFacts.batchFetch_runs server (map snd (withScholarIds items))
                (buildFieldsParam (shouldFetchField p)) log) as [b [log' [Hf _]]].
    rewrite Hf. cbn [fst snd].
    exists (mapBack (withScholarIds items) (results b) ∅), (batchRateLimited b).
    split; [reflexivity |]. split.
    + intros id v Hv.
      apply mapBack_origin in Hv as [Hv | [Ht [[it sid] [Hin E]]]].
      * rewrite lookup_empty in Hv. discriminate Hv.
      * split; [exact Ht |]. cbn [fst] in E.
        apply withScholarIds_In in Hin as [Hin [-> Hs]]. exists it. auto.
    + intros Hnone. exfalso.
      assert (E : withScholarIds items = []).
      { clear Ew Hf. induction Hnone as [| it its Hit _ IH]; [reflexivity |].
        unfold withScholarIds in *. cbn [flat_map]. now rewrite Hit, IH. }
      rewrite E in Ew. discriminate Ew.
Qed.

(** X15: when the catalog answers every batch with one non-null entry
    per id, in order, and the records have distinct ids, every record
    with a stored catalog id is filed with the answer for its own id. *)
Theorem batch_files_each_record_its_own_result :
  forall (server : Server) (answer : JSON -> JSON) (p : Prefs)
         (items : list Item) (log : list Event) (it : Item),
    (forall log0 url chunk,
        server log0 (POST url chunk) = Responded 200 (inr (JArr (map answer chunk)))) ->
    (forall sid, truthy (answer sid) = true) ->
    NoDup (map item_id items) ->
    In it items ->
    truthy (ItemUtils.getScholarId it) = true ->
    exists results,
      fst (batchFetchByScholarIds server p items log) = Some (results, false) /\
      results !! item_id it = Some (answer (ItemUtils.getScholarId it)).
Proof.
  intros server answer p items log it Hans Htruthy Hnd Hin Hsid.
  assert (Hpair : In (it, ItemUtils.getScholarId it) (withScholarIds items)).
  { unfold withScholarIds. rewrite in_flat_map. exists it. split; [exact Hin |].
    rewrite Hsid. now left. }
  rewrite batchFetchByScholarIds_run by (intros E; rewrite E in Hpair; destruct Hpair).
  cbn [fst]. rewrite (BatchMoreFacts.batchFetch_answering server answer Hans).
  eexists. split; [reflexivity |]. cbn [results].
  apply mapBack_answered; [now apply withScholarIds_ids | exact Hpair | apply Htruthy].
Qed.

Lemma batch_files_each_record_its_own_result_witness :
  exists results,
    fst (batchFetchByScholarIds steadyCatalog defaultPrefs (storedItems 501) [])
      = Some (results, false) /\
    results !! item_id (storedItem 500) = Some (paperOf (scholarIdOf 500)).
Proof.
  apply (batch_files_each_record_its_own_result steadyCatalog paperOf defaultPrefs
           (storedItems 501) [] (storedItem 500)).
  - reflexivity.
  - reflexivity.
  - apply (bool_decide_eq_true_1 (NoDup (map item_id (storedItems 501)))).
    vm_compute. reflexivity.
  - apply in_map. apply in_seq. lia.
  - reflexivity.
Defined.

Lemma candidates_at_most_four it : (List.length (candidates it) <= 4)%nat.
Proof.
  unfold candidates. rewrite !length_app.
  destruct (getField it "DOI");
    destruct (ItemUtils.firstMatch ItemUtils.arxivExtraAt (getField it "extra"));
    destruct (ItemUtils.firstMatch ItemUtils.arxivUrlAt (getField it "url"));
    destruct (ItemUtils.firstMatch ItemUtils.pmidAt (getField it "extra"));
    destruct (truthy (ItemUtils.getScholarId it)); simpl; lia.
Qed.

Lemma all_gets (rs : list Request) :
  Forall (fun r => exists u, r = GET u) rs ->
  exists urls, map Sent rs = map (fun u => Sent (GET u)) urls /\ List.length urls = List.length rs.
Proof.
  induction 1 as [| r rs [u ->] _ [urls [E L]]].
  - now exists [].
  - exists (u :: urls). simpl. now rewrite E, L.
Qed.

Lemma plannedRequests_gets p it :
  Forall (fun r => exists u, r = GET u) (plannedRequests p it) /\
  (List.length (plannedRequests p it) <= 5)%nat.
Proof.
  unfold plannedRequests. split.
  - apply Forall_app. split.
    + apply Forall_forall. intros r Hr. rewrite list_elem_of_In in Hr.
      apply in_map_iff in Hr as [c [<- _]]. eauto.
    + destruct (_ && _); repeat constructor. eauto.
  - rewrite length_app, length_map. pose proof (candidates_at_most_four it).
    destruct (_ && _); simpl; lia.
Qed.

(** What one call of fetchDataForItem adds to the log: requests only, a
    prefix of those planned for the item, and none for an item that is
    not a regular item. *)
Lemma fetchDataForItem_sends server p it log :
  exists rs,
    snd (fetchDataForItem server p it log) = log ++ map Sent rs /\
    (isRegularItem it = true -> exists k, rs = firstn k (plannedRequests p it)) /\
    (isRegularItem it = false -> rs = []).
Proof.
  destruct (isRegularItem it) eqn:Hr.
  - rewrite FetchFacts.fetchDataForItem_refines by exact Hr.
    unfold fetchForRecord.
    destruct (FetchFacts.firstDecisive_sends server
                (buildFieldsParam (shouldFetchField p))
                (titleFallback server p it (buildFieldsParam (shouldFetchField p)))
                _ (FetchFacts.titleFallback_sends server p it _) (candidates it) log)
      as [k Hk].
    eexists. split; [exact Hk |]. split; [| discriminate].
    intros _. exists k. reflexivity.
  - exists []. unfold fetchDataForItem. rewrite Hr. cbn. rewrite app_nil_r.
    split; [reflexivity |]. split; [discriminate | reflexivity].
Qed.

(** X16: one call of fetchDataForItem sends at most five requests, all
    of them GETs, and never pauses; for an item that is not a regular
    item it sends none. *)
Theorem fetch_sends_at_most_five_gets :
  forall (server : Server) (p : Prefs) (it : Item) (log : list Event),
  exists urls : list string,
    snd (fetchDataForItem server p it log) = log ++ map (fun u => Sent (GET u)) urls /\
    (List.length urls <= 5)%nat /\
    (isRegularItem it = false -> urls = []).
Proof.
  intros server p it log.
  destruct (fetchDataForItem_sends server p it log) as [rs [Hlog [Hreg Hnot]]].
  destruct (isRegularItem it) eqn:Hr.
  - destruct (Hreg eq_refl) as [k ->].
    destruct (plannedRequests_gets p it) as [Hg Hl].
    destruct (all_gets (firstn k (plannedRequests p it))) as [urls [E L]].
    { apply Forall_take. exact Hg. }
    exists urls. rewrite Hlog, E. split; [reflexivity |]. split; [| discriminate].
    rewrite L, length_firstn. lia.
  - exists []. rewrite Hlog, (Hnot eq_refl).
    split; [reflexivity |]. split; [cbn; lia | reflexivity].
Qed.

End PluginFacts.


(** * Runs over a selection, a new item and the whole library *)

Module RunFacts.
Import SemanticScholarAPI SemanticScholar Tally.

Local Open Scope Z_scope.

Lemma getsOf_app log1 log2 : getsOf (log1 ++ log2) = getsOf log1 ++ getsOf log2.
Proof.
  induction log1 as [| [[url | url ids] | ms] log1 IH]; cbn [app getsOf]; [reflexivity | | |];
    now rewrite IH.
Qed.

Lemma BatchRun_gets server fields cs log results b log' :
  Batch.BatchRun server fields cs log results b log' -> getsOf log' = getsOf log.
Proof.
  induction 1 as [| chunk rest log results _ | chunk rest log results got b log' _ _ IH].
  - reflexivity.
  - rewrite getsOf_app. cbn. apply app_nil_r.
  - rewrite IH, !getsOf_app. destruct rest; cbn; now rewrite !app_nil_r.
Qed.

Lemma pauses_app ms log1 log2 : pauses ms (log1 ++ log2) = pauses ms log1 + pauses ms log2.
Proof.
  induction log1 as [| [r | d] log1 IH]; cbn [app pauses]; [reflexivity | exact IH |].
  rewrite IH. lia.
Qed.

Lemma pauses_sent ms rs : pauses ms (map Sent rs) = 0.
Proof. induction rs as [| r rs IH]; [reflexivity | exact IH]. Qed.

Lemma BatchRun_pauses ms server fields cs log results b log' :
  ms <> 200 ->
  Batch.BatchRun server fields cs log results b log' -> pauses ms log' = pauses ms log.
Proof.
  intros Hms. induction 1 as [| chunk rest log results _ | chunk rest log results got b log' _ _ IH].
  - reflexivity.
  - rewrite pauses_app. cbn. lia.
  - rewrite IH, !pauses_app. destruct rest; cbn [pauses]; [lia |].
    destruct (200 =? ms) eqn:E; [apply Z.eqb_eq in E; congruence | lia].
Qed.

Lemma filter_none {A : Type} (f : A -> bool) (l : list A) :
  Forall (fun x => f x = false) l -> List.filter f l = [].
Proof.
  induction 1 as [| x l Hx _ IH]; [reflexivity |]. cbn [List.filter]. now rewrite Hx.
Qed.

Lemma filter_either {A : Type} (f g : A -> bool) (l : list A) :
  (forall x, In x l -> f x = true -> g x = false) ->
  List.length (List.filter (fun x => f x || g x) l) =
  (List.length (List.filter f l) + List.length (List.filter g l))%nat.
Proof.
  induction l as [| x l IH]; intros H; [reflexivity |].
  cbn [List.filter]. rewrite Nat.add_comm.
  pose proof (H x (or_introl eq_refl)) as Hx.
  assert (IH' := IH (fun y Hy => H y (or_intror Hy))).
  destruct (f x); cbn [orb List.length].
  - rewrite (Hx eq_refl), IH'. lia.
  - destruct (g x); cbn [List.length]; rewrite IH'; lia.
Qed.

Lemma filter_the_one (items : list Item) (k : Z) :
  NoDup (map item_id items) -> In k (map item_id items) ->
  List.length (List.filter (fun it => k =? item_id it) items) = 1%nat.
Proof.
  induction items as [| it items IH]; intros Hnd Hin; [destruct Hin |].
  cbn [map] in Hnd. apply NoDup_cons in Hnd as [Hfresh Hnd].
  rewrite list_elem_of_In in Hfresh. cbn [List.filter].
  destruct (k =? item_id it) eqn:E.
  - apply Z.eqb_eq in E. subst k. cbn [List.length]. f_equal.
    rewrite filter_none; [reflexivity |].
    apply Forall_forall. intros x Hx. rewrite list_elem_of_In in Hx.
    apply Z.eqb_neq. intros Eq. apply Hfresh. rewrite Eq. now apply in_map.
  - apply IH; [exact Hnd |]. destruct Hin as [Eq | Hin]; [| exact Hin].
    apply Z.eqb_neq in E. congruence.
Qed.

Lemma has_spec entries id : has entries id = true <-> In id (map fst entries).
Proof.
  unfold has. rewrite existsb_exists, in_map_iff. split.
  - intros [kv [Hin E]]. apply Z.eqb_eq in E. eauto.
  - intros [kv [E Hin]]. exists kv. split; [exact Hin | now apply Z.eqb_eq].
Qed.

(** The entries of a result map and the records it leaves out are the
    records, when no two of them share an id. *)
Lemma unresolved_count (items : list Item) : forall entries : list (Z * JSON),
  NoDup (map item_id items) ->
  NoDup (map fst entries) ->
  (forall id, In id (map fst entries) -> In id (map item_id items)) ->
  (List.length (List.filter (fun it => negb (has entries (item_id it))) items) +
   List.length entries)%nat = List.length items.
Proof.
  intros entries Hnd Hkeys Hsub.
  rewrite <- (filter_length (fun it => has entries (item_id it)) items).
  rewrite Nat.add_comm. f_equal.
  revert Hkeys Hsub. induction entries as [| [k v] entries IH]; intros Hkeys Hsub.
  - cbn [List.length]. symmetry. apply length_zero_iff_nil. now apply filter_none, Forall_forall.
  - cbn [map fst] in Hkeys. apply NoDup_cons in Hkeys as [Hfresh Hkeys].
    rewrite list_elem_of_In in Hfresh.
    change (fun it : Item => has ((k, v) :: entries) (item_id it))
      with (fun it : Item => (k =? item_id it) || has entries (item_id it)).
    rewrite filter_either.
    + rewrite filter_the_one by (auto; apply Hsub; now left).
      cbn [List.length]. f_equal. apply IH; [exact Hkeys |].
      intros id Hid. apply Hsub. now right.
    + intros it _ E. apply Z.eqb_eq in E. subst k.
      destruct (has entries (item_id it)) eqn:Hh; [| reflexivity].
      apply has_spec in Hh. contradiction.
Qed.

Lemma mapSet_keys id v entries :
  map fst (mapSet id v entries) =
  if has entries id then map fst entries else map fst entries ++ [id].
Proof.
  induction entries as [| [k x] entries IH]; [reflexivity |].
  cbn [mapSet]. unfold has in *. cbn [existsb fst].
  destruct (k =? id) eqn:E.
  - apply Z.eqb_eq in E. subst k. reflexivity.
  - cbn [orb map fst]. rewrite IH. now destruct (existsb _ entries).
Qed.

Lemma mapBackInOrder_keys pairs : forall rs entries,
  NoDup (map fst entries) ->
  NoDup (map fst (mapBackInOrder pairs rs entries)) /\
  forall id, In id (map fst (mapBackInOrder pairs rs entries)) ->
             In id (map fst entries) \/ In id (map (fun pr => item_id (fst pr)) pairs).
Proof.
  induction pairs as [| [it sid] pairs IH]; intros rs entries Hnd.
  - cbn [mapBackInOrder]. split; [exact Hnd | now left].
  - destruct rs as [| r rs]; [cbn [mapBackInOrder]; split; [exact Hnd | now left] |].
    cbn [mapBackInOrder]. destruct (truthy r).
    + assert (Hnd' : NoDup (map fst (mapSet (item_id it) r entries))).
      { rewrite mapSet_keys. destruct (has entries (item_id it)) eqn:Hh; [exact Hnd |].
        apply NoDup_app. split; [exact Hnd |]. split; [| apply NoDup_singleton].
        intros x Hx Hy. rewrite list_elem_of_In in Hx, Hy. destruct Hy as [<- | []].
        apply has_spec in Hx. congruence. }
      destruct (IH rs _ Hnd') as [H1 H2]. split; [exact H1 |].
      intros id Hid. destruct (H2 id Hid) as [Hin | Hin]; [| right; now right].
      rewrite mapSet_keys in Hin. destruct (has entries (item_id it)); [now left |].
      apply in_app_or in Hin as [Hin | [<- | []]]; [now left | right; now left].
    + destruct (IH rs _ Hnd) as [H1 H2]. split; [exact H1 |].
      intros id Hid. destruct (H2 id Hid) as [Hin | Hin]; [now left | right; now right].
Qed.

(** The entries in insertion order, read as a finite map, are the map
    that batchFetchByScholarIds is given above. *)
Lemma mapSet_map id v entries :
  (list_to_map (mapSet id v entries) : gmap Z JSON) = <[id := v]> (list_to_map entries).
Proof.
  induction entries as [| [k x] entries IH]; [reflexivity |].
  cbn [mapSet]. destruct (k =? id) eqn:E.
  - apply Z.eqb_eq in E. subst k. rewrite !list_to_map_cons. now rewrite insert_insert_eq.
  - apply Z.eqb_neq in E. rewrite !list_to_map_cons, IH. now apply insert_insert_ne.
Qed.

Lemma mapBackInOrder_map pairs : forall rs entries,
  (list_to_map (mapBackInOrder pairs rs entries) : gmap Z JSON) =
  mapBack pairs rs (list_to_map entries).
Proof.
  induction pairs as [| [it sid] pairs IH]; intros rs entries; [reflexivity |].
  destruct rs as [| r rs]; [reflexivity |]. cbn [mapBackInOrder mapBack].
  rewrite IH. destruct (truthy r); [now rewrite mapSet_map | reflexivity].
Qed.

Lemma batchFetchByScholarIdsInOrder_map server p items log :
  batchFetchByScholarIds server p items log =
  (match fst (batchFetchByScholarIdsInOrder server p items log) with
   | Some (entries, rl) => Some (list_to_map entries, rl)
   | None => None
   end,
   snd (batchFetchByScholarIdsInOrder server p items log)).
Proof.
  unfold batchFetchByScholarIds, batchFetchByScholarIdsInOrder.
  destruct (withScholarIds items) as [| pr0 prs]; [reflexivity |].
  unfold bind, ret. destruct (batchFetch server _ _ log) as [[b |] log1]; [| reflexivity].
  cbn [fst snd]. now rewrite mapBackInOrder_map.
Qed.

Lemma addToRetryQueue_first it api :
  exists added,
    retryQueue (addToRetryQueue it 0 api) = retryQueue api ++ added /\
    Forall (fun e => retryCount e = 0 /\ item e = it) added /\
    (List.length added <= 1)%nat /\
    retryQueue (addToRetryQueue it 0 api) <> [] /\
    isProcessingRetryQueue (addToRetryQueue it 0 api) = isProcessingRetryQueue api /\
    retryDelay (addToRetryQueue it 0 api) = retryDelay api.
Proof.
  unfold addToRetryQueue. cbn [Z.geb Z.compare maxRetries].
  destruct (queued it (retryQueue api)) eqn:Hq.
  - exists []. rewrite app_nil_r. repeat split; auto.
    intros E. rewrite E in Hq. discriminate Hq.
  - exists [mkEntry it 0]. cbn [with_queue retryQueue isProcessingRetryQueue retryDelay].
    repeat split; auto.
    intros E. destruct (retryQueue api); discriminate E.
Qed.

Lemma addToRetryQueue_member it api :
  queued it (retryQueue (addToRetryQueue it 0 api)) = true.
Proof.
  unfold addToRetryQueue. cbn [Z.geb Z.compare maxRetries].
  destruct (queued it (retryQueue api)) eqn:Hq; [exact Hq |].
  cbn [with_queue retryQueue]. unfold queued. rewrite existsb_app. cbn [existsb item].
  rewrite Z.eqb_refl. now rewrite orb_true_r.
Qed.

Lemma hasQueuedItems_spec api : hasQueuedItems api = true <-> retryQueue api <> [].
Proof.
  unfold hasQueuedItems. destruct (retryQueue api) as [| e q].
  - cbn. split; [discriminate | congruence].
  - replace (0 <? Z.of_nat (List.length (e :: q))) with true
      by (symmetry; apply Z.ltb_lt; cbn [List.length]; lia).
    split; [discriminate | reflexivity].
Qed.

(** What the start of a drain does: it touches neither the queue nor
    the delay, raises the flag when the queue is not empty, and pauses
    when it has raised it. *)
Lemma processRetryQueue_start_run api log :
  exists api' log',
    processRetryQueue_start api log = (api', log') /\
    retryQueue api' = retryQueue api /\
    retryDelay api' = retryDelay api /\
    isProcessingRetryQueue api' = isProcessingRetryQueue api || hasQueuedItems api /\
    getsOf log' = getsOf log /\
    (forall ms, pauses ms log' = pauses ms log + drainStartPauses ms api api').
Proof.
  unfold processRetryQueue_start, drainStartPauses, hasQueuedItems.
  destruct (isProcessingRetryQueue api) eqn:Hp; cbn [orb negb andb].
  - exists api, log. cbn [ret]. rewrite Hp. repeat split; auto. intros ms. lia.
  - destruct (retryQueue api) as [| e q] eqn:Hq.
    + exists api, log. cbn [ret List.length Z.of_nat Z.eqb Z.ltb Z.compare].
      rewrite Hp, Hq. cbn [List.length Z.of_nat Z.ltb Z.compare negb andb].
      repeat split; auto. intros ms. change (0 <? Z.of_nat 0) with false.
      cbn [andb]. lia.
    + eexists _, _. split; [reflexivity |].
      cbn [with_processing retryQueue retryDelay isProcessingRetryQueue].
      assert (Hpos : (0 <? Z.of_nat (List.length (e :: q))) = true)
        by (apply Z.ltb_lt; cbn [List.length]; lia).
      rewrite Hq, Hpos.
      split; [reflexivity |]. split; [reflexivity |]. split; [reflexivity |]. split.
      * rewrite getsOf_app. cbn. apply app_nil_r.
      * intros ms. rewrite pauses_app. cbn [pauses andb]. lia.
Qed.

Section WithHost.

Variable server : Server.
Variable p : Prefs.
Variable today : list Event -> string.

Lemma startDrainIfQueued_run r log :
  exists r' log',
    startDrainIfQueued r log = (r', log') /\
    saved r' = saved r /\ successCount r' = successCount r /\
    failCount r' = failCount r /\ rateLimitedCount r' = rateLimitedCount r /\
    retryQueue (scheduler r') = retryQueue (scheduler r) /\
    retryDelay (scheduler r') = retryDelay (scheduler r) /\
    isProcessingRetryQueue (scheduler r') =
      isProcessingRetryQueue (scheduler r) || hasQueuedItems (scheduler r) /\
    getsOf log' = getsOf log /\
    (forall ms, pauses ms log' = pauses ms log + drainStartPauses ms (scheduler r) (scheduler r')) /\
    (retryQueue (scheduler r) = [] -> r' = r /\ log' = log).
Proof.
  unfold startDrainIfQueued. destruct (hasQueuedItems (scheduler r)) eqn:Hh.
  - unfold startDrain, bind, ret.
    destruct (processRetryQueue_start_run (scheduler r) log)
      as [api' [log' [Hrun [Hq [Hd [Hp [Hg Hs]]]]]]].
    rewrite Hrun. eexists _, log'. split; [reflexivity |].
    cbn [saved successCount failCount rateLimitedCount scheduler].
    rewrite Hh in Hp. repeat split; auto;
      apply hasQueuedItems_spec in Hh; contradiction.
  - exists r, log. cbn [ret]. rewrite orb_false_r. repeat split; auto.
    intros ms. unfold drainStartPauses. rewrite Hh, andb_false_r. cbn. lia.
Qed.

(** The batch phase returns; its entries have distinct keys, ids of the
    items it was given; it sends no GET and pauses 200 ms only. *)
Lemma batch_phase items log :
  exists entries rl log1,
    batchFetchByScholarIdsInOrder server p items log = (Some (entries, rl), log1) /\
    NoDup (map fst entries) /\
    (forall id, In id (map fst entries) -> In id (map item_id items)) /\
    (Forall (fun it => stored it = false) items -> log1 = log) /\
    getsOf log1 = getsOf log /\
    (forall ms, ms <> 200 -> pauses ms log1 = pauses ms log).
Proof.
  unfold batchFetchByScholarIdsInOrder.
  destruct (withScholarIds items) as [| pr0 prs] eqn:Ew.
  - exists [], false, log. cbn [ret map]. repeat split; auto; [apply NoDup_nil_2 | intros id []].
  - rewrite <- Ew.
    destruct (BatchFacts.batchFetch_runs server (map snd (withScholarIds items))
                (buildFieldsParam (shouldFetchField p)) log) as [b [log1 [Hf Hrun]]].
    unfold bind, ret. rewrite Hf.
    destruct (mapBackInOrder_keys (withScholarIds items) (results b) [] NoDup_nil_2)
      as [Hnd Hsub].
    eexists _, _, log1. split; [rewrite Ew; rewrite <- Ew; reflexivity |].
    split; [exact Hnd |]. split; [| split; [| split]].
    + intros id Hid. destruct (Hsub id Hid) as [[] | Hin].
      apply in_map_iff in Hin as [[it sid] [E Hin]]. cbn [fst] in E.
      apply PluginFacts.withScholarIds_In in Hin as [Hin _]. rewrite <- E. now apply in_map.
    + intros Hnone. exfalso.
      assert (E : withScholarIds items = []).
      { clear Ew Hf Hrun Hnd Hsub. induction Hnone as [| it its Hit _ IH]; [reflexivity |].
        unfold withScholarIds, stored in *. cbn [flat_map]. now rewrite Hit, IH. }
      rewrite E in Ew. discriminate Ew.
    + exact (BatchRun_gets _ _ _ _ _ _ _ Hrun).
    + intros ms Hms. exact (BatchRun_pauses ms _ _ _ _ _ _ _ Hms Hrun).
Qed.

Lemma fetchDataForItem_pauses ms it log :
  pauses ms (snd (fetchDataForItem server p it log)) = pauses ms log.
Proof.
  destruct (PluginFacts.fetchDataForItem_sends server p it log) as [rs [-> _]].
  rewrite pauses_app, pauses_sent. lia.
Qed.

Lemma applyBatchResults_run regularItems : forall entries r log,
  (forall id, In id (map fst entries) -> In id (map item_id regularItems)) ->
  exists r',
    applyBatchResults p today regularItems entries r log = (r', log) /\
    scheduler r' = scheduler r /\
    successCount r' = successCount r + Z.of_nat (List.length entries) /\
    failCount r' = failCount r /\
    rateLimitedCount r' = rateLimitedCount r /\
    Z.of_nat (List.length (saved r')) - successCount r' =
    Z.of_nat (List.length (saved r)) - successCount r.
Proof.
  induction entries as [| [id v] entries IH]; intros r log Hkeys.
  - exists r. cbn [applyBatchResults ret List.length]. repeat split; lia.
  - cbn [applyBatchResults].
    destruct (List.find (fun i => item_id i =? id) regularItems) as [it |] eqn:Hfind.
    + unfold bind, applyAndSave.
      destruct (IH (countFound (applyDataToItem p (today log) it v) r) log) as [r' H].
      { intros id' Hin. apply Hkeys. now right. }
      destruct H as [Hrun [Hs [Hsc [Hf [Hrl Hsv]]]]].
      exists r'. rewrite Hrun. cbn [countFound scheduler successCount failCount
                                     rateLimitedCount saved] in *.
      rewrite length_app in Hsv. cbn [List.length] in *.
      repeat split; auto; lia.
    + exfalso. pose proof (Hkeys id (or_introl eq_refl)) as Hin.
      apply in_map_iff in Hin as [it [E Hin]].
      pose proof (find_none _ _ Hfind it Hin) as Hn. cbn beta in Hn.
      rewrite E, Z.eqb_refl in Hn. discriminate Hn.
Qed.

(** The loop over the records fetched one by one: a record is counted
    once, a save goes with a success, and the queue grows by at most
    the record, as a first attempt. *)
Lemma fetchRemaining_run : forall items r log,
  exists r' log' added,
    fetchRemaining server p today items r log = (r', log') /\
    counted r' = counted r + Z.of_nat (List.length items) /\
    Z.of_nat (List.length (saved r')) - successCount r' =
    Z.of_nat (List.length (saved r)) - successCount r /\
    retryQueue (scheduler r') = retryQueue (scheduler r) ++ added /\
    Forall (fun e => retryCount e = 0 /\ In (item e) items) added /\
    Z.of_nat (List.length added) <= rateLimitedCount r' - rateLimitedCount r /\
    (rateLimitedCount r < rateLimitedCount r' -> retryQueue (scheduler r') <> []) /\
    isProcessingRetryQueue (scheduler r') = isProcessingRetryQueue (scheduler r) /\
    retryDelay (scheduler r') = retryDelay (scheduler r).
Proof.
  induction items as [| it items IH]; intros r log.
  - exists r, log, []. cbn [fetchRemaining ret List.length]. rewrite app_nil_r.
    repeat split; auto; try lia.
  - cbn [fetchRemaining]. unfold bind at 1.
    destruct (fetchDataForItem server p it log) as [result log1].
    set (pause := match items with [] => ret tt | _ :: _ => Promise_delay 200 end).
    destruct (rateLimited result) eqn:Hrl; [| destruct (truthy (data result)) eqn:Hd].
    + unfold bind, ret. destruct (pause log1) as [[] log2].
      destruct (IH (countRateLimited it r) log2)
        as [r' [log' [added [Hrun [Hc [Hsv [Hq [Hadd [Hlen [Hne [Hp Hdl]]]]]]]]]]].
      destruct (addToRetryQueue_first it (scheduler r))
        as [a1 [Hq1 [Ha1 [Hl1 [Hne1 [Hp1 Hd1]]]]]].
      unfold counted in *.
      cbn [countRateLimited scheduler successCount failCount rateLimitedCount saved] in *.
      exists r', log', (a1 ++ added). rewrite Hrun.
      split; [reflexivity |]. cbn [List.length].
      split; [lia |]. split; [lia |].
      split; [rewrite Hq, Hq1; now rewrite app_assoc |].
      split.
      { apply Forall_app. split.
        - eapply Forall_impl; [exact Ha1 |]. cbn beta. intros e [H0 ->]. split; [exact H0 | now left].
        - eapply Forall_impl; [exact Hadd |]. cbn beta. intros e [H0 Hin]. split; [exact H0 | now right]. }
      split; [rewrite length_app; lia |].
      split.
      { intros _ E. rewrite Hq in E. apply app_eq_nil in E as [E _]. now apply Hne1. }
      split; [now rewrite Hp, Hp1 | now rewrite Hdl, Hd1].
    + unfold bind, ret, applyAndSave. destruct (pause log1) as [[] log2].
      destruct (IH (countFound (applyDataToItem p (today log1) it (data result)) r) log2)
        as [r' [log' [added [Hrun [Hc [Hsv [Hq [Hadd [Hlen [Hne [Hp Hdl]]]]]]]]]]].
      unfold counted in *.
      cbn [countFound scheduler successCount failCount rateLimitedCount saved] in *.
      rewrite length_app in Hsv. cbn [List.length] in *.
      exists r', log', added. rewrite Hrun.
      split; [reflexivity |]. split; [lia |]. split; [lia |].
      split; [exact Hq |].
      split.
      { eapply Forall_impl; [exact Hadd |]. cbn beta. intros e [H0 Hin]. split; [exact H0 | now right]. }
      repeat split; auto.
    + unfold bind, ret. destruct (pause log1) as [[] log2].
      destruct (IH (countNotFound 1 r) log2)
        as [r' [log' [added [Hrun [Hc [Hsv [Hq [Hadd [Hlen [Hne [Hp Hdl]]]]]]]]]]].
      unfold counted in *.
      cbn [countNotFound scheduler successCount failCount rateLimitedCount saved] in *.
      cbn [List.length].
      exists r', log', added. rewrite Hrun.
      split; [reflexivity |]. split; [lia |]. split; [lia |].
      split; [exact Hq |].
      split.
      { eapply Forall_impl; [exact Hadd |]. cbn beta. intros e [H0 Hin]. split; [exact H0 | now right]. }
      repeat split; auto.
Qed.

Lemma searchEach_run : forall items r log,
  exists r' log',
    searchEach server p today items r log = (r', log') /\
    counted r' = counted r + Z.of_nat (List.length items) /\
    Z.of_nat (List.length (saved r')) - successCount r' =
    Z.of_nat (List.length (saved r)) - successCount r /\
    pauses 3000 log' = pauses 3000 log + (rateLimitedCount r' - rateLimitedCount r) /\
    pauses 500 log' = pauses 500 log + Z.of_nat (List.length items) /\
    isProcessingRetryQueue (scheduler r') = isProcessingRetryQueue (scheduler r) /\
    retryDelay (scheduler r') = retryDelay (scheduler r).
Proof.
  induction items as [| it items IH]; intros r log.
  - exists r, log. cbn [searchEach ret List.length]. repeat split; lia.
  - cbn [searchEach]. unfold bind at 1.
    pose proof (fetchDataForItem_pauses 3000 it log) as H3.
    pose proof (fetchDataForItem_pauses 500 it log) as H5.
    destruct (fetchDataForItem server p it log) as [result log1]. cbn [snd] in H3, H5.
    destruct (rateLimited result) eqn:Hrl; [| destruct (truthy (data result)) eqn:Hd];
      unfold bind, ret, Promise_delay, applyAndSave;
      match goal with
      | |- context [searchEach _ _ _ _ ?r1 ?l1] =>
          destruct (IH r1 l1) as [r' [log' [Hrun [Hc [Hsv [I3 [I5 [Ip Id]]]]]]]]
      end;
      exists r', log'; rewrite Hrun; unfold counted in *;
      rewrite ?pauses_app in I3, I5;
      destruct (addToRetryQueue_first it (scheduler r)) as [a1 [_ [_ [_ [_ [Hp1 Hd1]]]]]];
      cbn [countRateLimited countFound countNotFound scheduler successCount failCount
           rateLimitedCount saved pauses Z.eqb Pos.eqb] in *;
      rewrite ?length_app in Hsv; cbn [List.length] in *;
      rewrite Ip, Id, ?Hp1, ?Hd1;
      (split; [reflexivity |]); repeat split; lia.
Qed.

(** A selection: the run returns, and its phases add up. *)
Lemma fetchForSelectedItems_run items api log :
  exists r log' added,
    fetchForSelectedItems server p today items api log = (Some r, log') /\
    (NoDup (map item_id (List.filter isRegularItem items)) ->
     counted r = Z.of_nat (List.length (List.filter isRegularItem items))) /\
    Z.of_nat (List.length (saved r)) = successCount r /\
    retryQueue (scheduler r) = retryQueue api ++ added /\
    Forall (fun e => retryCount e = 0 /\ In (item e) items /\
                     isRegularItem (item e) = true) added /\
    Z.of_nat (List.length added) <= rateLimitedCount r /\
    (0 < rateLimitedCount r -> hasQueuedItems (scheduler r) = true) /\
    (List.filter isRegularItem items <> [] ->
     isProcessingRetryQueue (scheduler r) =
     isProcessingRetryQueue api || hasQueuedItems (scheduler r)) /\
    retryDelay (scheduler r) = retryDelay api.
Proof.
  assert (Hstart : exists r log' added,
             (Some (startOf api), log) = (Some r, log') /\
             (NoDup (map item_id (@nil Item)) -> counted r = Z.of_nat (@List.length Item [])) /\
             Z.of_nat (List.length (saved r)) = successCount r /\
             retryQueue (scheduler r) = retryQueue api ++ added /\
             Forall (fun e => retryCount e = 0 /\ In (item e) items /\
                              isRegularItem (item e) = true) added /\
             Z.of_nat (List.length added) <= rateLimitedCount r /\
             (0 < rateLimitedCount r -> hasQueuedItems (scheduler r) = true) /\
             (@nil Item <> [] ->
              isProcessingRetryQueue (scheduler r) =
              isProcessingRetryQueue api || hasQueuedItems (scheduler r)) /\
             retryDelay (scheduler r) = retryDelay api).
  { exists (startOf api), log, []. cbn [startOf scheduler saved successCount
      rateLimitedCount failCount List.length]. rewrite app_nil_r.
    repeat split; auto; try lia. congruence. }
  unfold fetchForSelectedItems. destruct items as [| it0 items0] eqn:Eitems; [exact Hstart |].
  rewrite <- Eitems in *. clear Eitems it0 items0.
  destruct (List.filter isRegularItem items) as [| it1 regular1] eqn:Ereg; [exact Hstart |].
  rewrite <- Ereg in *. clear Hstart.
  set (regularItems := List.filter isRegularItem items) in *.
  destruct (batch_phase regularItems log) as [entries [rl [log1 [Hb [Hnd [Hkeys _]]]]]].
  unfold bind at 1. rewrite Hb.
  destruct (applyBatchResults_run regularItems entries (startOf api) log1 Hkeys)
    as [r1 [Hr1 [Hs1 [Hsc1 [Hf1 [Hrl1 Hsv1]]]]]].
  unfold bind at 1. rewrite Hr1.
  destruct (fetchRemaining_run
              (List.filter (fun it => negb (has entries (item_id it))) regularItems) r1 log1)
    as [r2 [log2 [added [Hr2 [Hc2 [Hsv2 [Hq2 [Hadd [Hlen [Hne [Hp Hdl]]]]]]]]]]].
  unfold bind at 1. rewrite Hr2.
  destruct (startDrainIfQueued_run r2 log2)
    as [r3 [log3 [Hr3 [Es [Esc [Ef [Erl [Eq [Ed [Ep [_ [_ Hnone]]]]]]]]]]]].
  unfold bind, ret. rewrite Hr3. exists r3, log3, added.
  assert (Hh : hasQueuedItems (scheduler r3) = hasQueuedItems (scheduler r2))
    by (unfold hasQueuedItems; now rewrite Eq).
  unfold counted in *. rewrite Es, Esc, Ef, Erl, Eq, Ed, Ep, Hh.
  cbn [startOf scheduler successCount failCount rateLimitedCount saved List.length] in *.
  split; [reflexivity |]. split.
  { intros Hnodup.
    pose proof (unresolved_count regularItems entries Hnodup Hnd Hkeys) as Hcount.
    rewrite Hc2, Hsc1, Hf1, Hrl1, <- Hcount. lia. }
  split; [lia |]. split; [now rewrite Hq2, Hs1 |]. split.
  { eapply Forall_impl; [exact Hadd |]. cbn beta. intros e [H0 Hin].
    apply filter_In in Hin as [Hin _]. apply filter_In in Hin as [Hin Hreg]. auto. }
  split; [lia |]. split.
  { intros Hpos. apply hasQueuedItems_spec. apply Hne. lia. }
  split; [intros _; now rewrite Hp, Hs1 | now rewrite Hdl, Hs1].
Qed.

(** The batch phase of the startup update. *)
Lemma startup_batch_run withIds api log :
  exists r1 log1,
    (match withIds with
     | [] => ret (Some (startOf api))
     | _ :: _ =>
         let* b := batchFetchByScholarIdsInOrder server p withIds in
         match b with
         | None => ret None
         | Some (batchResults, _) =>
             let* r := applyBatchResults p today withIds batchResults (startOf api) in
             ret (Some (countNotFound
                          (Z.of_nat (List.length withIds) -
                           Z.of_nat (List.length batchResults)) r))
         end
     end) log = (Some r1, log1) /\
    counted r1 = Z.of_nat (List.length withIds) /\
    Z.of_nat (List.length (saved r1)) = successCount r1 /\
    getsOf log1 = getsOf log /\ scheduler r1 = api /\ rateLimitedCount r1 = 0 /\
    (forall ms, ms <> 200 -> pauses ms log1 = pauses ms log).
Proof.
  destruct withIds as [| it1 rest1] eqn:Ew.
  - exists (startOf api), log. cbn. repeat split; reflexivity.
  - rewrite <- Ew. clear Ew it1 rest1.
    destruct (batch_phase withIds log) as [entries [rl [log1 [Hb [_ [Hkeys [_ [Hg Hp]]]]]]]].
    unfold bind at 1. rewrite Hb.
    destruct (applyBatchResults_run withIds entries (startOf api) log1 Hkeys)
      as [r1 [Hr1 [Hs1 [Hsc1 [Hf1 [Hrl1 Hsv1]]]]]].
    unfold bind, ret. rewrite Hr1. eexists _, log1. split; [reflexivity |].
    unfold counted.
    cbn [countNotFound startOf scheduler successCount failCount rateLimitedCount saved
         List.length] in *.
    repeat split; auto; lia.
Qed.

(** The startup update: the run returns, and its phases add up. *)
Lemma updateLibraryOnStartup_run libraries api log :
  let allItems := flat_map (List.filter isRegularItem) libraries in
  exists r2 r log2 log',
    updateLibraryOnStartup server p today true libraries api log = (Some r, log') /\
    startDrainIfQueued r2 log2 = (r, log') /\
    counted r2 = Z.of_nat (List.length allItems) /\
    Z.of_nat (List.length (saved r2)) = successCount r2 /\
    pauses 3000 log2 = pauses 3000 log + rateLimitedCount r2 /\
    pauses 500 log2 =
      pauses 500 log +
      Z.of_nat (List.length (List.filter (fun it => negb (stored it)) allItems)) /\
    isProcessingRetryQueue (scheduler r2) = isProcessingRetryQueue api /\
    retryDelay (scheduler r2) = retryDelay api /\
    (Forall (fun it => stored it = true) allItems ->
     getsOf log2 = getsOf log /\ scheduler r2 = api /\ rateLimitedCount r2 = 0).
Proof.
  intros allItems.
  unfold updateLibraryOnStartup. cbn [negb]. fold allItems.
  change (fun it : Item => truthy (ItemUtils.getScholarId it)) with stored.
  change (fun it : Item => negb (truthy (ItemUtils.getScholarId it)))
    with (fun it : Item => negb (stored it)).
  pose proof (filter_length stored allItems) as Hsplit.
  assert (Hnone : Forall (fun it => stored it = true) allItems ->
                  List.filter (fun it => negb (stored it)) allItems = []).
  { intros Hall. apply filter_none. eapply Forall_impl; [exact Hall |].
    cbn beta. intros it ->. reflexivity. }
  destruct (startup_batch_run (List.filter stored allItems) api log)
    as [r1 [log1 [Hrun1 [Hc1 [Hsv1 [Hg1 [Hs1 [Hrl1 Hp1]]]]]]]].
  unfold bind at 1. rewrite Hrun1.
  destruct (searchEach_run (List.filter (fun it => negb (stored it)) allItems) r1 log1)
    as [r2 [log2 [Hrun2 [Hc2 [Hsv2 [H3 [H5 [Hp2 Hd2]]]]]]]].
  unfold bind at 1. rewrite Hrun2.
  unfold bind, ret.
  destruct (startDrainIfQueued r2 log2) as [r log'] eqn:Hr3.
  exists r2, r, log2, log'.
  split; [reflexivity |]. split; [exact Hr3 |].
  split; [lia |]. split; [lia |].
  split; [rewrite H3, (Hp1 3000) by discriminate; lia |].
  split; [rewrite H5, (Hp1 500) by discriminate; lia |].
  split; [now rewrite Hp2, Hs1 |]. split; [now rewrite Hd2, Hs1 |].
  intros Hall. rewrite (Hnone Hall) in Hrun2. cbn [searchEach ret] in Hrun2.
  injection Hrun2 as <- <-. auto.
Qed.

End WithHost.

Lemma backoffDelay_pause d ms :
  backoffDelay d -> ms = 3000 \/ ms = 500 ->
  forall before after, retryDelay before = d -> drainStartPauses ms before after = 0.
Proof.
  intros Hd Hms before after E. unfold drainStartPauses. rewrite E.
  replace (Z.min d maxRetryDelay =? ms) with false; [now rewrite andb_false_r |].
  symmetry. apply Z.eqb_neq. unfold backoffDelay, maxRetryDelay in *. cbn [In] in Hd. lia.
Qed.

(** The delays the backoff can hold are kept by whatever happens to the
    scheduler: the floor, 2000 ms, is where it starts. *)
Lemma backoffDelay_kept {W : Type} (fetchCallback : Item -> W -> FetchResult * W)
    (applyCallback : Item -> JSON -> W -> W) (sleep : Z -> W -> W)
    (ops : list Scheduler.Op) : forall s,
  backoffDelay (retryDelay (fst s)) ->
  backoffDelay (retryDelay (fst (Scheduler.runOps fetchCallback applyCallback sleep ops s))).
Proof.
  induction ops as [| op ops IH]; intros s H; [exact H |].
  cbn [Scheduler.runOps fold_left]. apply IH.
  destruct op as [it rc | meanwhile]; cbn [Scheduler.runOp fst].
  - now rewrite SchedulerFacts.addToRetryQueue_delay.
  - destruct (retryQueue (fst s)) as [| e q]; [exact H |].
    rewrite SchedulerFacts.drainIteration_cases.
    destruct (outcome _); cbn [retryDelay with_delay];
      rewrite ?SchedulerFacts.enqueues_delay; cbn [with_queue retryDelay].
    + unfold backoffDelay. cbn [In]. auto.
    + exact H.
    + unfold backoffDelay, maxRetryDelay in *. cbn [In] in *. lia.
Qed.

(** X17: fetchForSelectedItems always returns, and when the selected
    regular items have distinct ids it counts each of them once: found,
    not found and queued add up to their number, whatever the batch and
    the single lookups returned; a save goes with every success. *)
Theorem selected_items_all_accounted :
  forall (server : Server) (p : Prefs) (today : list Event -> string)
         (items : list Item) (api : t) (log : list Event),
    NoDup (map item_id (List.filter isRegularItem items)) ->
    exists (r : Run) (log' : list Event),
      fetchForSelectedItems server p today items api log = (Some r, log') /\
      counted r = Z.of_nat (List.length (List.filter isRegularItem items)) /\
      Z.of_nat (List.length (saved r)) = successCount r.
Proof.
  intros server p today items api log Hnd.
  destruct (fetchForSelectedItems_run server p today items api log)
    as [r [log' [added [Hrun [Hc [Hsv _]]]]]].
  exists r, log'. split; [exact Hrun |]. split; [exact (Hc Hnd) | exact Hsv].
Qed.

Lemma selected_items_all_accounted_witness :
  exists (r : Run) (log' : list Event),
    fetchForSelectedItems busyCatalog Batch.defaultPrefs sameDay
      (Batch.storedItems 2 ++ [doiItem 7]) init [] = (Some r, log') /\
    counted r = 3 /\
    Z.of_nat (List.length (saved r)) = successCount r.
Proof.
  apply (selected_items_all_accounted busyCatalog Batch.defaultPrefs sameDay
           (Batch.storedItems 2 ++ [doiItem 7]) init []).
  apply (bool_decide_eq_true_1
           (NoDup (map item_id (List.filter isRegularItem (Batch.storedItems 2 ++ [doiItem 7]))))).
  vm_compute. reflexivity.
Defined.



(** X19: the startup update always returns and counts every regular
    item of the libraries once: updated, failed and queued add up to
    their number.  Records with a stored catalog id are only ever asked
    for in batches: when every record has one, no GET is sent, whatever
    the batches returned, and nothing is counted as rate limited; the
    update then leaves the queue and the delay of a scheduler with no
    drain in progress as they were, and starts a drain exactly when
    the queue already held an entry. *)
Theorem startup_update_accounts_for_every_record :
  forall (server : Server) (p : Prefs) (today : list Event -> string)
         (libraries : list (list Item)) (api : t) (log : list Event),
    let allItems := flat_map (List.filter isRegularItem) libraries in
    exists (r : Run) (log' : list Event),
      updateLibraryOnStartup server p today true libraries api log = (Some r, log') /\
      counted r = Z.of_nat (List.length allItems) /\
      Z.of_nat (List.length (saved r)) = successCount r /\
      (Forall (fun it => stored it = true) allItems ->
       getsOf log' = getsOf log /\
       rateLimitedCount r = 0 /\
       (isProcessingRetryQueue api = false ->
        retryQueue (scheduler r) = retryQueue api /\
        retryDelay (scheduler r) = retryDelay api /\
        isProcessingRetryQueue (scheduler r) = hasQueuedItems api)).
Proof.
  intros server p today libraries api log allItems.
  destruct (updateLibraryOnStartup_run server p today libraries api log)
    as [r2 [r [log2 [log' [Hrun [Hr3 [Hc [Hsv [_ [_ [_ [_ Hall]]]]]]]]]]]].
  destruct (startDrainIfQueued_run r2 log2)
    as [r3 [log3 [Hr3' [Es [Esc [Ef [Erl [Eq [Ed [Ep [Eg _]]]]]]]]]]].
  rewrite Hr3 in Hr3'. injection Hr3' as <- <-.
  exists r, log'. fold allItems in Hc, Hall. unfold counted in *.
  split; [exact Hrun |]. rewrite Es, Esc, Ef, Erl.
  split; [lia |]. split; [lia |].
  intros Hstored. destruct (Hall Hstored) as [Hg [Hs Hrl]].
  split; [now rewrite Eg |]. split; [lia |].
  intros Hidle. rewrite Eq, Ed, Ep, Hs, Hidle. auto.
Qed.

(** X20: fetchForNewItem against fetchForSelectedItems on that item
    alone, for a regular item with no stored catalog id and a scheduler
    with no drain in progress.  Both count or save the item the same
    way, and when the lookup is rate limited both leave the item in the
    retry queue, save nothing and start a drain.  When the queue was
    empty, or the lookup is rate limited, they leave the same scheduler
    behind after the same requests and pauses.  When the queue already
    held an entry and the lookup is not rate limited, the selection
    starts a drain at its end and the automatic fetch does not. *)
Theorem new_item_fetch_agrees_with_selection_of_one :
  forall (server : Server) (p : Prefs) (today : list Event -> string)
         (it : Item) (api : t) (log : list Event),
    isRegularItem it = true ->
    stored it = false ->
    isProcessingRetryQueue api = false ->
    let auto := fetchForNewItem server p today true it api log in
    let result := fst (fetchDataForItem server p it log) in
    exists (r : Run) (log' : list Event),
      fetchForSelectedItems server p today [it] api log = (Some r, log') /\
      counted r = 1 /\
      saved r = match snd (fst auto) with Some it' => [it'] | None => [] end /\
      (rateLimited result = true ->
       queued it (retryQueue (scheduler r)) = true /\
       saved r = [] /\
       isProcessingRetryQueue (scheduler r) = true) /\
      (retryQueue api = [] \/ rateLimited result = true ->
       scheduler r = fst (fst auto) /\ log' = snd auto) /\
      (retryQueue api <> [] -> rateLimited result = false ->
       isProcessingRetryQueue (scheduler r) = true /\ fst (fst auto) = api).
Proof.
  intros server p today it api log Hreg Hstored Hidle auto result. subst auto result.
  unfold fetchForSelectedItems, fetchForNewItem. cbn [List.filter]. rewrite Hreg. cbn [negb].
  assert (Hbatch : batchFetchByScholarIdsInOrder server p [it] log = (Some ([], false), log)).
  { unfold batchFetchByScholarIdsInOrder, withScholarIds. cbn [flat_map].
    unfold stored in Hstored. rewrite Hstored. reflexivity. }
  unfold bind at 1. rewrite Hbatch.
  cbn [applyBatchResults]. unfold bind at 1. cbn [ret].
  cbn [List.filter has existsb negb fetchRemaining]. unfold bind.
  destruct (fetchDataForItem server p it log) as [result log1]. cbn [fst].
  destruct (rateLimited result) eqn:Hrl; [| destruct (truthy (data result)) eqn:Hd].
  - unfold startDrainIfQueued, ret.
    cbn [countRateLimited startOf scheduler saved successCount failCount rateLimitedCount].
    assert (Hne : retryQueue (addToRetryQueue it 0 api) <> []).
    { destruct (addToRetryQueue_first it api) as [a [_ [_ [_ [H _]]]]]. exact H. }
    rewrite (proj2 (hasQueuedItems_spec _) Hne).
    unfold startDrain, bind, ret.
    cbn [countRateLimited startOf scheduler saved successCount failCount rateLimitedCount].
    destruct (processRetryQueue_start_run (addToRetryQueue it 0 api) log1)
      as [api2 [log2 [Hs [Hq [_ [Hp _]]]]]].
    rewrite Hs. eexists _, _. split; [reflexivity |].
    unfold counted. cbn [scheduler saved successCount failCount rateLimitedCount fst snd].
    split; [reflexivity |]. split; [reflexivity |]. split; [| split; [auto | discriminate]].
    intros _. rewrite Hq. split; [apply addToRetryQueue_member |]. split; [reflexivity |].
    rewrite Hp, (proj2 (hasQueuedItems_spec _) Hne). apply orb_true_r.
  - unfold ret, applyAndSave.
    destruct (startDrainIfQueued_run
                (countFound (applyDataToItem p (today log1) it (data result)) (startOf api)) log1)
      as [r3 [log3 [Hr3 [Es [Esc [Ef [Erl [Eq [Ed [Ep [_ [_ Hnone]]]]]]]]]]]].
    rewrite Hr3. exists r3, log3. split; [reflexivity |].
    unfold counted. rewrite Es, Esc, Ef, Erl.
    cbn [countFound startOf scheduler saved successCount failCount rateLimitedCount
         fst snd app] in *.
    split; [reflexivity |]. split; [reflexivity |]. split; [discriminate |]. split.
    + intros [Hempty | Habs]; [| discriminate Habs].
      destruct (Hnone Hempty) as [-> ->]. auto.
    + intros Hne _. split; [| reflexivity].
      rewrite Ep, Hidle. cbn [orb]. now apply hasQueuedItems_spec.
  - unfold ret.
    destruct (startDrainIfQueued_run (countNotFound 1 (startOf api)) log1)
      as [r3 [log3 [Hr3 [Es [Esc [Ef [Erl [Eq [Ed [Ep [_ [_ Hnone]]]]]]]]]]]].
    rewrite Hr3. exists r3, log3. split; [reflexivity |].
    unfold counted. rewrite Es, Esc, Ef, Erl.
    cbn [countNotFound startOf scheduler saved successCount failCount rateLimitedCount
         fst snd] in *.
    split; [reflexivity |]. split; [reflexivity |]. split; [discriminate |]. split.
    + intros [Hempty | Habs]; [| discriminate Habs].
      destruct (Hnone Hempty) as [-> ->]. auto.
    + intros Hne _. split; [| reflexivity].
      rewrite Ep, Hidle. cbn [orb]. now apply hasQueuedItems_spec.
Qed.

Lemma new_item_fetch_agrees_with_selection_of_one_witness :
  (exists (r : Run) (log' : list Event),
     fetchForSelectedItems busyCatalog Batch.defaultPrefs sameDay [doiItem 7] init [] =
       (Some r, log') /\
     scheduler r = fst (fst (fetchForNewItem busyCatalog Batch.defaultPrefs sameDay true
                               (doiItem 7) init [])) /\
     isProcessingRetryQueue (scheduler r) = true) /\
  (exists (r : Run) (log' : list Event),
     fetchForSelectedItems knowingCatalog Batch.defaultPrefs sameDay [doiItem 7] waiting [] =
       (Some r, log') /\
     isProcessingRetryQueue (scheduler r) = true /\
     fst (fst (fetchForNewItem knowingCatalog Batch.defaultPrefs sameDay true
                 (doiItem 7) waiting [])) = waiting).
Proof.
  split.
  - destruct (new_item_fetch_agrees_with_selection_of_one busyCatalog Batch.defaultPrefs
                sameDay (doiItem 7) init [] eq_refl eq_refl eq_refl)
      as [r [log' [Hrun [_ [_ [Hrl [Hsame _]]]]]]].
    exists r, log'. split; [exact Hrun |].
    split; [exact (proj1 (Hsame (or_introl eq_refl))) |].
    exact (proj2 (proj2 (Hrl eq_refl))).
  - destruct (new_item_fetch_agrees_with_selection_of_one knowingCatalog Batch.defaultPrefs
                sameDay (doiItem 7) waiting [] eq_refl eq_refl eq_refl)
      as [r [log' [Hrun [_ [_ [_ [_ Hdiff]]]]]]].
    exists r, log'. split; [exact Hrun |].
    apply Hdiff; [discriminate | reflexivity].
Defined.

(** X21: the pacing of the startup update.  It waits 3 s after every
    record it counted as rate limited and half a second after every
    record it looked up one by one, that is every regular item without
    a stored catalog id; beyond these it makes one more pause, when it
    starts a drain at its end, of the backoff delay.  As the backoff
    delay is the floor doubled up to the ceiling, never 3 s or half a
    second, the pauses of these two lengths are the ones it makes after
    its records. *)
Theorem startup_update_pacing :
  forall (server : Server) (p : Prefs) (today : list Event -> string)
         (libraries : list (list Item)) (api : t) (log : list Event),
    let allItems := flat_map (List.filter isRegularItem) libraries in
    let searched := List.filter (fun it => negb (stored it)) allItems in
    exists (r : Run) (log' : list Event),
      updateLibraryOnStartup server p today true libraries api log = (Some r, log') /\
      pauses 3000 log' =
        pauses 3000 log + rateLimitedCount r + drainStartPauses 3000 api (scheduler r) /\
      pauses 500 log' =
        pauses 500 log + Z.of_nat (List.length searched) +
        drainStartPauses 500 api (scheduler r) /\
      (backoffDelay (retryDelay api) ->
       pauses 3000 log' = pauses 3000 log + rateLimitedCount r /\
       pauses 500 log' = pauses 500 log + Z.of_nat (List.length searched)).
Proof.
  intros server p today libraries api log allItems searched.
  destruct (updateLibraryOnStartup_run server p today libraries api log)
    as [r2 [r [log2 [log' [Hrun [Hr3 [_ [_ [H3 [H5 [Hp [Hd _]]]]]]]]]]]].
  fold allItems in H5. fold searched in H5.
  destruct (startDrainIfQueued_run r2 log2)
    as [r3 [log3 [Hr3' [_ [_ [_ [Erl [Eq [_ [_ [_ [Epause _]]]]]]]]]]]].
  rewrite Hr3 in Hr3'. injection Hr3' as <- <-.
  assert (Estart : forall ms,
             drainStartPauses ms (scheduler r2) (scheduler r) =
             drainStartPauses ms api (scheduler r)).
  { intros ms. unfold drainStartPauses. now rewrite Hp, Hd. }
  exists r, log'. split; [exact Hrun |].
  assert (E3 : pauses 3000 log' =
               pauses 3000 log + rateLimitedCount r + drainStartPauses 3000 api (scheduler r))
    by (rewrite Epause, Estart, H3, Erl; lia).
  assert (E5 : pauses 500 log' =
               pauses 500 log + Z.of_nat (List.length searched) +
               drainStartPauses 500 api (scheduler r))
    by (rewrite Epause, Estart, H5; lia).
  split; [exact E3 |]. split; [exact E5 |].
  intros Hb.
  rewrite (backoffDelay_pause _ 3000 Hb (or_introl eq_refl) api (scheduler r) eq_refl) in E3.
  rewrite (backoffDelay_pause _ 500 Hb (or_intror eq_refl) api (scheduler r) eq_refl) in E5.
  split; lia.
Qed.

End RunFacts.
